(** * Threshold pressures of the ECL black-oil simulator

    A shallow embedding of [Ewoms::EclThresholdPressure]
    (ebos/eclthresholdpressure.hh) and the properties of its
    initialisation and of its query [thresholdPressure].

    Conventions of the embedding.
    - [Scalar] (a C++ [double]) is modelled by the rationals [Q], of
      which the finite doubles are a part.  The class only stores,
      compares, negates and takes maxima of scalars, all of which are
      exact on finite doubles; the single product [faceArea * trans] is
      rounded to the nearest double ([double_mul]) and the literal
      [1e-18] is the double that the compiler reads ([negligibleFlow]).
      NaN and infinities are outside the model.  Numeric equality ([==]
      in C++) is [Qeq].
    - A [std::vector] is a [list]; reading or writing outside the vector
      and a failed [assert] are modelled as the [Fault] result.
    - Cell indices, region numbers and offsets are [nat].  A region is
      stored in a byte (the conversion is written out in
      [toUnsignedChar]) and [finishInit] lets at most 255 regions pass, so
      the unsigned offsets [r1 * R + r2] of the source do not wrap.
    - The simulator, the grid view, the deck and the parser objects that
      the class only reads are gathered in the record [Simulator].

    The module [FlowMainEbos] embeds the functions of the driver
    [Opm::FlowMainEbos] (opm/autodiff/FlowMainEbos.hpp) that compute on
    its own data members; its conventions are stated there. *)

From Stdlib Require Import ZArith QArith Qabs Lia Lqa Ascii.
From stdpp Require Import base option list strings pretty.

Open Scope nat_scope.

(** ** Scalars *)

Abbreviation Scalar := Q (only parsing).

(** [a < b] on scalars, as a boolean. *)
Definition scalar_lt (a b : Scalar) : bool := negb (Qle_bool b a).

(** [std::max(a, b)], which is [(a < b) ? b : a]. *)
Definition std_max (a b : Scalar) : Scalar := if scalar_lt a b then b else a.

(** [std::abs] on a scalar. *)
Definition std_abs (a : Scalar) : Scalar := Qabs a.

#[global] Arguments scalar_lt : simpl never.
#[global] Arguments std_max : simpl never.
#[global] Arguments std_abs : simpl never.
#[global] Arguments Qmult : simpl never.

(** *** Rounding to a [double]

    A [double] is a binary64 number: 53 bits of precision, the exponent of
    a normal number at least -1022, rounding to the nearest number and, of
    two that are equally near, to the one with an even last bit.  A result
    beyond the largest double, which the machine turns into an infinity,
    is outside the model: the exponent is not bounded from above. *)

(** The largest [e] with [2 ^ e <= n / d], for positive [n] and [d]. *)
Definition binade (n d : Z) : Z :=
  let e0 := (Z.log2 n - Z.log2 d)%Z in
  if (0 <=? e0)%Z
  then (if (d * 2 ^ e0 <=? n)%Z then e0 else e0 - 1)%Z
  else (if (d <=? n * 2 ^ (- e0))%Z then e0 else e0 - 1)%Z.

(** The integer nearest to [n / d] for positive [d], the even one of two
    that are equally near. *)
Definition nearestEven (n d : Z) : Z :=
  let k := (n / d)%Z in
  let r := (n mod d)%Z in
  match (2 * r ?= d)%Z with
  | Lt => k
  | Gt => (k + 1)%Z
  | Eq => if Z.even k then k else (k + 1)%Z
  end.

(** The double nearest to [n / d], for positive [n] and [d]: a multiple of
    the unit in the last place [2 ^ ulp]. *)
Definition roundMagnitude (n d : Z) : Scalar :=
  let ulp := (Z.max (binade n d) (-1022) - 52)%Z in
  if (0 <=? ulp)%Z
  then inject_Z (nearestEven n (d * 2 ^ ulp) * 2 ^ ulp)
  else Qmake (nearestEven (n * 2 ^ (- ulp)) d) (Z.to_pos (2 ^ (- ulp))).

Definition roundDouble (q : Scalar) : Scalar :=
  match Qnum q with
  | Z0 => 0%Q
  | Zpos n => roundMagnitude (Zpos n) (Zpos (Qden q))
  | Zneg n => (- roundMagnitude (Zpos n) (Zpos (Qden q)))%Q
  end.

(** [a * b] on two doubles. *)
Definition double_mul (a b : Scalar) : Scalar := roundDouble (a * b)%Q.

#[global] Arguments roundDouble : simpl never.
#[global] Arguments double_mul : simpl never.

(** The literal [1e-18] of the negligible-flow test: the double nearest to
    [10 ^ -18], which is [1298074214633707 / 2 ^ 110]. *)
Definition negligibleFlow : Scalar :=
  Eval vm_compute in Qred (roundDouble (1 # 1000000000000000000)%Q).

(** ** Results of operations that can go wrong *)

Inductive FaultKind : Type :=
| AssertionFailure
| OutOfBounds.

Inductive Res (A : Type) : Type :=
| Ok (a : A)
| Fault (k : FaultKind).
Arguments Ok {A} a.
Arguments Fault {A} k.

#[global] Instance Res_bind : MBind Res := fun A B f r =>
  match r with
  | Ok a => f a
  | Fault k => Fault k
  end.

(** A [for] loop over [l] whose body may fail. *)
Fixpoint forEach {A S : Type} (body : S -> A -> Res S) (l : list A) (s : S) : Res S :=
  match l with
  | [] => Ok s
  | x :: rest => s' ← body s x; forEach body rest s'
  end.

(** [v[i]] as an rvalue. *)
Definition vec_at {A : Type} (v : list A) (i : nat) : Res A :=
  match v !! i with
  | Some x => Ok x
  | None => Fault OutOfBounds
  end.

(** [v[i] = x]. *)
Definition vec_set {A : Type} (v : list A) (i : nat) (x : A) : Res (list A) :=
  if decide (i < length v) then Ok (<[i:=x]> v) else Fault OutOfBounds.

(** [v[i]] where [i] is a (signed) [int]. *)
Definition vec_at_int {A : Type} (v : list A) (i : Z) : Res A :=
  if decide (0 <= i)%Z then vec_at v (Z.to_nat i) else Fault OutOfBounds.

(** ** The objects the class reads *)

Inductive PartitionType : Type :=
| InteriorEntity
| BorderEntity
| OverlapEntity
| FrontEntity
| GhostEntity.

Definition isInterior (p : PartitionType) : bool :=
  match p with
  | InteriorEntity => true
  | _ => false
  end.

(** What [computeDefaultThresholdPressures_] reads for one phase at a face:
    [up.mobility(phaseIdx)] of the upstream cell and
    [extQuants.pressureDifference(phaseIdx)]. *)
Record PhaseQuantities : Type := {
  mobility : Scalar;
  pressureDifference : Scalar
}.

(** An interior face of an element's stencil, with the quantities of the
    element context at that face. *)
Record StencilFace : Type := {
  interiorElemIdx : nat;   (* elemCtx.globalSpaceIndex(face.interiorIndex(), 0) *)
  exteriorElemIdx : nat;   (* elemCtx.globalSpaceIndex(face.exteriorIndex(), 0) *)
  area : Scalar;           (* face.area() *)
  transmissibility : Scalar;
  phases : list PhaseQuantities   (* phaseIdx = 0 .. numPhases-1 *)
}.

(** An intersection of the grid view. *)
Record Intersection : Type := {
  boundary : bool;
  insideElemIdx : nat;     (* elementMapper.index(intersection.inside()) *)
  outsideElemIdx : nat     (* elementMapper.index(intersection.outside()) *)
}.

Record Element : Type := {
  partitionType : PartitionType;
  interiorFaces : list StencilFace;
  intersections : list Intersection
}.

(** [Opm::ThresholdPressure], queried with 1-based region numbers. *)
Record ThresholdPressureConfig : Type := {
  restart : bool;
  hasRegionBarrier : nat -> nat -> bool;
  hasThresholdPressure : nat -> nat -> bool;
  getThresholdPressure : nat -> nat -> Scalar
}.

(** [Opm::Fault]: a name and its "faces", each a collection of cartesian
    cell indices. *)
Record FaultRecord : Type := {
  getName : string;
  faultFaces : list (list nat)
}.

(** A record of the THPRESFT keyword. *)
Record ThpresftRecord : Type := {
  faultName : string;      (* FAULT_NAME, trimmed *)
  thpresValue : Scalar     (* VALUE, in SI units *)
}.

(** [gridView.comm()] as one rank sees it: at the [i]-th collective call
    the ranks below and above this one contribute the [i]-th entry of
    their own arrays. *)
Record Communication : Type := {
  lowerRanks : list (list Scalar);
  upperRanks : list (list Scalar)
}.

Record Simulator : Type := {
  enableExperiments : bool;          (* GET_PROP_VALUE(TypeTag, EnableExperiments) *)
  numElements : nat;                 (* gridView.size(0) *)
  numGridDof : nat;                  (* model().numGridDof() *)
  elements : list Element;           (* the elements of the grid view, in order *)
  cartesianIndex : nat -> Z;         (* vanguard.cartesianIndex(elemIdx) *)
  comm : Communication;              (* gridView.comm() *)
  useThresholdPressure : bool;       (* simConfig.useThresholdPressure() *)
  getNumEquilRegions : nat;          (* getEqldims().getNumEquilRegions() *)
  equilRegionData : list Z;          (* the data of the EQLNUM grid property *)
  getThresholdPressureConfig : ThresholdPressureConfig;
  thpresftKeyword : option (list ThpresftRecord);   (* deck.getKeyword("THPRESFT") *)
  faults : list FaultRecord;         (* eclState.getFaults() *)
  cartesianSize : nat                (* getInputGrid().getCartesianSize() *)
}.

(** ** The data members of the class *)

Record EclThresholdPressure : Type := {
  thpresDefault_ : list Scalar;
  thpres_ : list Scalar;
  numEquilRegions_ : nat;
  elemEquilRegion_ : list nat;       (* unsigned char *)
  thpresftValues_ : list Scalar;
  cartElemFaultIdx_ : list Z;        (* int *)
  enableThresholdPressure_ : bool
}.

(** The constructor.  [numEquilRegions_] is left uninitialised by the
    source and is assigned before it is first read; the model starts it
    at 0. *)
Definition constructed : EclThresholdPressure := {|
  thpresDefault_ := [];
  thpres_ := [];
  numEquilRegions_ := 0;
  elemEquilRegion_ := [];
  thpresftValues_ := [];
  cartElemFaultIdx_ := [];
  enableThresholdPressure_ := false
|}.

Definition set_thpresDefault (v : list Scalar) (st : EclThresholdPressure) :=
  {| thpresDefault_ := v; thpres_ := thpres_ st;
     numEquilRegions_ := numEquilRegions_ st;
     elemEquilRegion_ := elemEquilRegion_ st;
     thpresftValues_ := thpresftValues_ st;
     cartElemFaultIdx_ := cartElemFaultIdx_ st;
     enableThresholdPressure_ := enableThresholdPressure_ st |}.

Definition set_thpres (v : list Scalar) (st : EclThresholdPressure) :=
  {| thpresDefault_ := thpresDefault_ st; thpres_ := v;
     numEquilRegions_ := numEquilRegions_ st;
     elemEquilRegion_ := elemEquilRegion_ st;
     thpresftValues_ := thpresftValues_ st;
     cartElemFaultIdx_ := cartElemFaultIdx_ st;
     enableThresholdPressure_ := enableThresholdPressure_ st |}.

Definition set_numEquilRegions (n : nat) (st : EclThresholdPressure) :=
  {| thpresDefault_ := thpresDefault_ st; thpres_ := thpres_ st;
     numEquilRegions_ := n;
     elemEquilRegion_ := elemEquilRegion_ st;
     thpresftValues_ := thpresftValues_ st;
     cartElemFaultIdx_ := cartElemFaultIdx_ st;
     enableThresholdPressure_ := enableThresholdPressure_ st |}.

Definition set_elemEquilRegion (v : list nat) (st : EclThresholdPressure) :=
  {| thpresDefault_ := thpresDefault_ st; thpres_ := thpres_ st;
     numEquilRegions_ := numEquilRegions_ st;
     elemEquilRegion_ := v;
     thpresftValues_ := thpresftValues_ st;
     cartElemFaultIdx_ := cartElemFaultIdx_ st;
     enableThresholdPressure_ := enableThresholdPressure_ st |}.

Definition set_faults (vals : list Scalar) (idx : list Z) (st : EclThresholdPressure) :=
  {| thpresDefault_ := thpresDefault_ st; thpres_ := thpres_ st;
     numEquilRegions_ := numEquilRegions_ st;
     elemEquilRegion_ := elemEquilRegion_ st;
     thpresftValues_ := vals;
     cartElemFaultIdx_ := idx;
     enableThresholdPressure_ := enableThresholdPressure_ st |}.

Definition set_enableThresholdPressure (b : bool) (st : EclThresholdPressure) :=
  {| thpresDefault_ := thpresDefault_ st; thpres_ := thpres_ st;
     numEquilRegions_ := numEquilRegions_ st;
     elemEquilRegion_ := elemEquilRegion_ st;
     thpresftValues_ := thpresftValues_ st;
     cartElemFaultIdx_ := cartElemFaultIdx_ st;
     enableThresholdPressure_ := b |}.

(** ** [setFromRestart] and [data] *)

Definition setFromRestart (values : list Scalar) (st : EclThresholdPressure)
  : EclThresholdPressure :=
  set_thpres values st.

Definition data (st : EclThresholdPressure) : list Scalar := thpres_ st.

(** ** [thresholdPressure] *)

(** The part of the query below the comment
    "threshold pressure accross EQUIL regions". *)
Definition regionThresholdPressure (st : EclThresholdPressure) (elem1Idx elem2Idx : nat)
  : Res Scalar :=
  equilRegion1Idx ← vec_at (elemEquilRegion_ st) elem1Idx;
  equilRegion2Idx ← vec_at (elemEquilRegion_ st) elem2Idx;
  if decide (equilRegion1Idx = equilRegion2Idx) then Ok 0%Q
  else vec_at (thpres_ st) (equilRegion1Idx * numEquilRegions_ st + equilRegion2Idx).

(** [assert(0 <= cartElemIdx && cartElemFaultIdx_.size() > cartElemIdx)] *)
Definition assertCartIdx (st : EclThresholdPressure) (cartElemIdx : Z) : Res unit :=
  if decide (0 <= cartElemIdx /\ cartElemIdx < Z.of_nat (length (cartElemFaultIdx_ st)))%Z
  then Ok tt else Fault AssertionFailure.

(** [(faultIdx >= 0) ? thpresftValues_[faultIdx] : 0.0] *)
Definition faultValue (st : EclThresholdPressure) (faultIdx : Z) : Res Scalar :=
  if decide (0 <= faultIdx)%Z then vec_at (thpresftValues_ st) (Z.to_nat faultIdx)
  else Ok 0%Q.

(** The two cell indices are [int] in the source; the model takes them
    non-negative. *)
Definition thresholdPressure (sim : Simulator) (st : EclThresholdPressure)
    (elem1Idx elem2Idx : nat) : Res Scalar :=
  if negb (enableThresholdPressure_ st) then Ok 0%Q
  else if enableExperiments sim && negb (bool_decide (thpresftValues_ st = [])) then
    let cartElem1Idx := cartesianIndex sim elem1Idx in
    let cartElem2Idx := cartesianIndex sim elem2Idx in
    _ ← assertCartIdx st cartElem1Idx;
    _ ← assertCartIdx st cartElem2Idx;
    fault1Idx ← vec_at_int (cartElemFaultIdx_ st) cartElem1Idx;
    fault2Idx ← vec_at_int (cartElemFaultIdx_ st) cartElem2Idx;
    if bool_decide (fault1Idx <> (-1)%Z) && bool_decide (fault1Idx = fault2Idx) then Ok 0%Q
    else if bool_decide (fault1Idx <> fault2Idx) then
      val1 ← faultValue st fault1Idx;
      val2 ← faultValue st fault2Idx;
      Ok (std_max val1 val2)
    else regionThresholdPressure st elem1Idx elem2Idx
  else regionThresholdPressure st elem1Idx elem2Idx.

(** ** [computeDefaultThresholdPressures_] *)

(** The loop over the phases at one face: the value of [pth] after it. *)
Definition faceThreshold (phs : list PhaseQuantities) : Scalar :=
  fold_left
    (fun pth ph =>
       if scalar_lt 0%Q (mobility ph)
       then std_max pth (std_abs (pressureDifference ph))
       else pth)
    phs 0%Q.

(** The body of the loop over the interior faces of a stencil. *)
Definition defaultFaceStep (st : EclThresholdPressure) (thpresDefault : list Scalar)
    (face : StencilFace) : Res (list Scalar) :=
  equilRegionInside ← vec_at (elemEquilRegion_ st) (interiorElemIdx face);
  equilRegionOutside ← vec_at (elemEquilRegion_ st) (exteriorElemIdx face);
  if decide (equilRegionInside = equilRegionOutside) then Ok thpresDefault
  else if scalar_lt (std_abs (double_mul (area face) (transmissibility face))) negligibleFlow
  then Ok thpresDefault
  else
    let pth := faceThreshold (phases face) in
    let offset1 := equilRegionInside * numEquilRegions_ st + equilRegionOutside in
    let offset2 := equilRegionOutside * numEquilRegions_ st + equilRegionInside in
    old1 ← vec_at thpresDefault offset1;
    d1 ← vec_set thpresDefault offset1 (std_max old1 pth);
    old2 ← vec_at d1 offset2;
    vec_set d1 offset2 (std_max old2 pth).

(** The body of the loop over the elements. *)
Definition defaultElementStep (st : EclThresholdPressure) (thpresDefault : list Scalar)
    (elem : Element) : Res (list Scalar) :=
  if isInterior (partitionType elem)
  then forEach (defaultFaceStep st) (interiorFaces elem) thpresDefault
  else Ok thpresDefault.

(** The loop over the whole grid. *)
Definition scanFaces (sim : Simulator) (st : EclThresholdPressure) : Res (list Scalar) :=
  forEach (defaultElementStep st) (elements sim) (thpresDefault_ st).

(** The collective maximum of the values contributed by the ranks, taken in
    rank order; every rank receives this one value. *)
Definition allreduce_max (contributions : list Scalar) : Scalar :=
  match contributions with
  | [] => 0%Q
  | x :: rest => fold_left std_max rest x
  end.

(** The [i]-th entries of the arrays of some ranks. *)
Definition column (i : nat) (arrays : list (list Scalar)) : list Scalar :=
  map (fun a => default 0%Q (a !! i)) arrays.

(** [gridView.comm().max(x)] at the [i]-th collective call. *)
Definition comm_max (c : Communication) (i : nat) (x : Scalar) : Scalar :=
  allreduce_max (column i (lowerRanks c) ++ x :: column i (upperRanks c)).

(** The loop "take the maximum of all processes". *)
Definition reduceDefaults (c : Communication) (thpresDefault : list Scalar)
  : Res (list Scalar) :=
  forEach
    (fun d i => x ← vec_at d i; vec_set d i (comm_max c i x))
    (seq 0 (length thpresDefault)) thpresDefault.

Definition computeDefaultThresholdPressures_ (sim : Simulator) (st : EclThresholdPressure)
  : Res EclThresholdPressure :=
  scanned ← scanFaces sim st;
  reduced ← reduceDefaults (comm sim) scanned;
  Ok (set_thpresDefault reduced st).

(** ** [extractThpresft_] *)

(** [for (face: fault) for (cartElemIdx: face) cartElemFaultIdx_[cartElemIdx] = faultIdx] *)
Definition assignFaultCells (faultIdx : nat) (fault : FaultRecord) (cartElemFaultIdx : list Z)
  : Res (list Z) :=
  forEach
    (fun idx face => forEach (fun idx' cartElemIdx => vec_set idx' cartElemIdx (Z.of_nat faultIdx)) face idx)
    (faultFaces fault) cartElemFaultIdx.

(** The body of the loop over the faults, for one record. *)
Definition thpresftFaultStep (record : ThpresftRecord) (acc : list Scalar * list Z)
    (f : nat * FaultRecord) : Res (list Scalar * list Z) :=
  if bool_decide (getName f.2 <> faultName record) then Ok acc
  else
    vals ← vec_set acc.1 f.1 (thpresValue record);
    idx ← assignFaultCells f.1 f.2 acc.2;
    Ok (vals, idx).

(** The body of the loop over the records of the keyword. *)
Definition thpresftRecordStep (sim : Simulator) (acc : list Scalar * list Z)
    (record : ThpresftRecord) : Res (list Scalar * list Z) :=
  forEach (thpresftFaultStep record) (zip (seq 0 (length (faults sim))) (faults sim)) acc.

Definition extractThpresft_ (sim : Simulator) (thpresftKw : list ThpresftRecord)
    (st : EclThresholdPressure) : Res EclThresholdPressure :=
  let numFaults := length (faults sim) in
  let numCartesianElem := cartesianSize sim in
  let vals := resize numFaults (-1)%Q (thpresftValues_ st) in
  let idx := resize numCartesianElem (-1)%Z (cartElemFaultIdx_ st) in
  acc ← forEach (thpresftRecordStep sim) thpresftKw (vals, idx);
  Ok (set_faults acc.1 acc.2 st).

(** ** [applyExplicitThresholdPressures_] *)

(** The body of the loop over the intersections of an element; [thpres] is
    the vector [thpres_] being filled. *)
Definition explicitIntersectionStep (sim : Simulator) (st : EclThresholdPressure)
    (thpres : list Scalar) (intersection : Intersection) : Res (list Scalar) :=
  let cfg := getThresholdPressureConfig sim in
  if boundary intersection then Ok thpres
  else
    equilRegionInside ← vec_at (elemEquilRegion_ st) (insideElemIdx intersection);
    equilRegionOutside ← vec_at (elemEquilRegion_ st) (outsideElemIdx intersection);
    if hasRegionBarrier cfg (equilRegionInside + 1) (equilRegionOutside + 1) then
      pth ← (if hasThresholdPressure cfg (equilRegionInside + 1) (equilRegionOutside + 1)
             then Ok (getThresholdPressure cfg (equilRegionInside + 1) (equilRegionOutside + 1))
             else vec_at (thpresDefault_ st)
                    (equilRegionInside * numEquilRegions_ st + equilRegionOutside));
      let offset1 := equilRegionInside * numEquilRegions_ st + equilRegionOutside in
      let offset2 := equilRegionOutside * numEquilRegions_ st + equilRegionInside in
      t1 ← vec_set thpres offset1 pth;
      vec_set t1 offset2 pth
    else Ok thpres.

Definition explicitElementStep (sim : Simulator) (st : EclThresholdPressure)
    (thpres : list Scalar) (elem : Element) : Res (list Scalar) :=
  if isInterior (partitionType elem)
  then forEach (explicitIntersectionStep sim st) (intersections elem) thpres
  else Ok thpres.

(** The loop over the grid of [applyExplicitThresholdPressures_]. *)
Definition applyBarriers (sim : Simulator) (st : EclThresholdPressure) : Res (list Scalar) :=
  forEach (explicitElementStep sim st) (elements sim) (thpres_ st).

Definition applyExplicitThresholdPressures_ (sim : Simulator) (st : EclThresholdPressure)
  : Res EclThresholdPressure :=
  thpres ← applyBarriers sim st;
  let st1 := set_thpres thpres st in
  if enableExperiments sim then
    match thpresftKeyword sim with
    | Some kw => extractThpresft_ sim kw st1
    | None => Ok st1
    end
  else Ok st1.

(** ** [finishInit] *)

Inductive InitResult : Type :=
| Initialized (st : EclThresholdPressure)
| Thrown (what : string) (st : EclThresholdPressure)   (* the object as the throw leaves it *)
| Undefined (k : FaultKind).

(** Conversion of an [int] to [unsigned char]. *)
Definition toUnsignedChar (x : Z) : nat := Z.to_nat (x mod 256).

(** The loop "internalize the data specified using the EQLNUM keyword". *)
Definition internalizeEqlnum (sim : Simulator) (elemEquilRegion : list nat) : Res (list nat) :=
  forEach
    (fun regs elemIdx =>
       let cartElemIdx := cartesianIndex sim elemIdx in
       d ← vec_at_int (equilRegionData sim) cartElemIdx;
       vec_set regs elemIdx (toUnsignedChar (d - 1)))
    (seq 0 (numElements sim)) elemEquilRegion.

Definition tooManyRegions : string :=
  "The maximum number of supported equilibration regions is 255!".

Definition finishInit (sim : Simulator) (st0 : EclThresholdPressure) : InitResult :=
  if negb (bool_decide (numGridDof sim = numElements sim)) then Undefined AssertionFailure
  else
    let st1 := set_enableThresholdPressure (useThresholdPressure sim) st0 in
    if negb (enableThresholdPressure_ st1) then Initialized st1
    else
      let st2 := set_numEquilRegions (getNumEquilRegions sim) st1 in
      if decide (255 < numEquilRegions_ st2) then Thrown tooManyRegions st2
      else
        match internalizeEqlnum sim (resize (numElements sim) 0 (elemEquilRegion_ st2)) with
        | Fault k => Undefined k
        | Ok regs =>
          let st3 := set_elemEquilRegion regs st2 in
          if restart (getThresholdPressureConfig sim) then Initialized st3
          else
            let n := numEquilRegions_ st3 * numEquilRegions_ st3 in
            let st4 := set_thpres (resize n 0%Q (thpres_ st3)) st3 in
            let st5 := set_thpresDefault (resize n 0%Q (thpresDefault_ st4)) st4 in
            match st6 ← computeDefaultThresholdPressures_ sim st5;
                  applyExplicitThresholdPressures_ sim st6 with
            | Ok st7 => Initialized st7
            | Fault k => Undefined k
            end
        end.

(** ** Notions used in the statements *)

(** The two entries of a region pair hold the same value. *)
Definition symmetricMatrix (R : nat) (m : list Scalar) : Prop :=
  forall r1 r2, r1 < R -> r2 < R -> m !! (r1 * R + r2) = m !! (r2 * R + r1).

(** The stencil faces that [computeDefaultThresholdPressures_] visits, in
    the order of the visit: the interior faces of the elements of
    partition type [InteriorEntity]. *)
Definition visitedFaces (sim : Simulator) : list StencilFace :=
  concat (map (fun e => if isInterior (partitionType e) then interiorFaces e else [])
              (elements sim)).

(** The intersections that [applyExplicitThresholdPressures_] visits. *)
Definition visitedIntersections (sim : Simulator) : list Intersection :=
  concat (map (fun e => if isInterior (partitionType e) then intersections e else [])
              (elements sim)).

(** Every cell has an EQLNUM value, and it is one of [1 .. NTEQUL]. *)
Definition eqlnumInRange (sim : Simulator) : bool :=
  forallb
    (fun elemIdx =>
       let c := cartesianIndex sim elemIdx in
       bool_decide (0 <= c)%Z &&
       match equilRegionData sim !! Z.to_nat c with
       | Some d => bool_decide (1 <= d <= Z.of_nat (getNumEquilRegions sim))%Z
       | None => false
       end)
    (seq 0 (numElements sim)).

(** The cells at the visited faces and intersections are cells of the grid. *)
Definition gridInRange (sim : Simulator) : bool :=
  forallb
    (fun f => bool_decide (interiorElemIdx f < numElements sim)
              && bool_decide (exteriorElemIdx f < numElements sim))
    (visitedFaces sim)
  && forallb
    (fun i => boundary i
              || (bool_decide (insideElemIdx i < numElements sim)
                  && bool_decide (outsideElemIdx i < numElements sim)))
    (visitedIntersections sim).

(** The cells of the faults are cells of the cartesian grid. *)
Definition faultsInRange (sim : Simulator) : bool :=
  forallb
    (fun f => forallb (forallb (fun c => bool_decide (c < cartesianSize sim))) (faultFaces f))
    (faults sim).

(** The cartesian index of every cell lies in the cartesian grid. *)
Definition cartesianInRange (sim : Simulator) : bool :=
  forallb
    (fun elemIdx => bool_decide (0 <= cartesianIndex sim elemIdx < Z.of_nat (cartesianSize sim))%Z)
    (seq 0 (numElements sim)).

(** The environment of a run in which initialisation has no undefined
    behaviour. *)
Definition wellFormed (sim : Simulator) : bool :=
  bool_decide (numGridDof sim = numElements sim)
  && eqlnumInRange sim && gridInRange sim && faultsInRange sim.

(** The configuration does not depend on the order in which a region pair
    is given. *)
Definition symmetricConfig (cfg : ThresholdPressureConfig) : Prop :=
  forall r1 r2,
    hasRegionBarrier cfg r1 r2 = hasRegionBarrier cfg r2 r1
    /\ hasThresholdPressure cfg r1 r2 = hasThresholdPressure cfg r2 r1
    /\ getThresholdPressure cfg r1 r2 = getThresholdPressure cfg r2 r1.

(** The arrays contributed by the other ranks are region matrices of this
    run: of the same size, and symmetric. *)
Definition peersSymmetric (sim : Simulator) : Prop :=
  Forall (fun m => length m = getNumEquilRegions sim * getNumEquilRegions sim
                   /\ symmetricMatrix (getNumEquilRegions sim) m)
         (lowerRanks (comm sim) ++ upperRanks (comm sim)).

(** The state in which [finishInit] starts the two algorithms: both
    matrices allocated and zero, the regions of the cells internalized. *)
Definition allocated (sim : Simulator) (regs : list nat) : EclThresholdPressure := {|
  thpresDefault_ := replicate (getNumEquilRegions sim * getNumEquilRegions sim) 0%Q;
  thpres_ := replicate (getNumEquilRegions sim * getNumEquilRegions sim) 0%Q;
  numEquilRegions_ := getNumEquilRegions sim;
  elemEquilRegion_ := regs;
  thpresftValues_ := [];
  cartElemFaultIdx_ := [];
  enableThresholdPressure_ := true
|}.


(** Every region stored for a cell is a region of the run. *)
Definition regionsBelow (R : nat) (regs : list nat) : Prop :=
  forall i r, regs !! i = Some r -> r < R.

(** The value that [applyExplicitThresholdPressures_] writes for a face
    from region [rI] to region [rO]: the explicit value, or else the entry
    of the default matrix. *)
Definition overrideValue (sim : Simulator) (st : EclThresholdPressure) (rI rO : nat)
  : option Scalar :=
  if hasThresholdPressure (getThresholdPressureConfig sim) (rI + 1) (rO + 1)
  then Some (getThresholdPressure (getThresholdPressureConfig sim) (rI + 1) (rO + 1))
  else thpresDefault_ st !! (rI * numEquilRegions_ st + rO).

(** Every cell of the fault index is outside all faults ([-1]) or carries
    the index of a fault whose value has been set, to a value satisfying
    [P]. *)
Definition faultIndexOk (P : Scalar -> Prop) (vals : list Scalar) (idx : list Z) : Prop :=
  forall c f, idx !! c = Some f ->
    f = (-1)%Z \/ ((0 <= f)%Z /\ exists v, vals !! Z.to_nat f = Some v /\ P v).

(** The invariant of the loops of [extractThpresft_]. *)
Definition thpresftInvariant (P : Scalar -> Prop) (numFaults numCells : nat)
    (acc : list Scalar * list Z) : Prop :=
  length acc.1 = numFaults /\ length acc.2 = numCells /\ faultIndexOk P acc.1 acc.2.

(** The state in which [finishInit] leaves a restart run: the regions of
    the cells internalized, no matrix allocated. *)
Definition awaitingRestart (sim : Simulator) (regs : list nat) : EclThresholdPressure := {|
  thpresDefault_ := [];
  thpres_ := [];
  numEquilRegions_ := getNumEquilRegions sim;
  elemEquilRegion_ := regs;
  thpresftValues_ := [];
  cartElemFaultIdx_ := [];
  enableThresholdPressure_ := true
|}.

(** The same simulator over another grid content: other elements, faces
    and flow quantities at the faces. *)
Definition withElements (elems : list Element) (sim : Simulator) : Simulator := {|
  enableExperiments := enableExperiments sim;
  numElements := numElements sim;
  numGridDof := numGridDof sim;
  elements := elems;
  cartesianIndex := cartesianIndex sim;
  comm := comm sim;
  useThresholdPressure := useThresholdPressure sim;
  getNumEquilRegions := getNumEquilRegions sim;
  equilRegionData := equilRegionData sim;
  getThresholdPressureConfig := getThresholdPressureConfig sim;
  thpresftKeyword := thpresftKeyword sim;
  faults := faults sim;
  cartesianSize := cartesianSize sim
|}.

(** What the query returns when it reads the matrix [M] for cells of the
    regions [regs] in a run with [R] regions. *)
Definition lookupInMatrix (M : list Scalar) (R : nat) (regs : list nat) (a b : nat)
  : Res Scalar :=
  rA ← vec_at regs a;
  rB ← vec_at regs b;
  if decide (rA = rB) then Ok 0%Q else vec_at M (rA * R + rB).

(** The region of a cell as [finishInit] stores it: the EQLNUM value of the
    cell, minus one, converted to [unsigned char]. *)
Definition equilRegionOf (sim : Simulator) (elemIdx : nat) : option nat :=
  if decide (0 <= cartesianIndex sim elemIdx)%Z
  then (fun d => toUnsignedChar (d - 1))
         <$> equilRegionData sim !! Z.to_nat (cartesianIndex sim elemIdx)
  else None.

(** The cells [a] and [b] lie one in region [r1] and the other in [r2]. *)
Definition joinsRegions (sim : Simulator) (a b r1 r2 : nat) : bool :=
  bool_decide ((equilRegionOf sim a = Some r1 /\ equilRegionOf sim b = Some r2)
               \/ (equilRegionOf sim a = Some r2 /\ equilRegionOf sim b = Some r1)).

(** No visited intersection of the grid, the boundary ones apart, joins the
    regions [r1] and [r2]. *)
Definition noIntersectionJoins (sim : Simulator) (r1 r2 : nat) : bool :=
  forallb
    (fun i => boundary i || negb (joinsRegions sim (insideElemIdx i) (outsideElemIdx i) r1 r2))
    (visitedIntersections sim).

(** No visited interior face of a stencil joins the regions [r1] and [r2]. *)
Definition noFaceJoins (sim : Simulator) (r1 r2 : nat) : bool :=
  forallb
    (fun f => negb (joinsRegions sim (interiorElemIdx f) (exteriorElemIdx f) r1 r2))
    (visitedFaces sim).

(** The other ranks contribute zero to the entry at offset [o]. *)
Definition peersZeroAt (sim : Simulator) (o : nat) : Prop :=
  Forall (fun m : list Scalar => default 0%Q (m !! o) = 0%Q)
         (lowerRanks (comm sim) ++ upperRanks (comm sim)).

(** The communicator of rank [p] in a run whose ranks hold the arrays
    [locals], in rank order, when the collective calls are made. *)
Definition commOfRank (locals : list (list Scalar)) (p : nat) : Communication := {|
  lowerRanks := take p locals;
  upperRanks := drop (S p) locals
|}.

(** The element-wise collective maximum of the arrays of all ranks. *)
Definition collectiveMatrix (n : nat) (locals : list (list Scalar)) : list Scalar :=
  (fun i => allreduce_max (column i locals)) <$> seq 0 n.

(** The value of the fault of a cell as the query is specified to see it:
    zero for a cell outside all faults and for a fault whose value is
    unset (negative). *)
Definition faultValueOrZero (st : EclThresholdPressure) (faultIdx : Z) : Scalar :=
  if decide (0 <= faultIdx)%Z then
    match thpresftValues_ st !! Z.to_nat faultIdx with
    | Some v => if scalar_lt v 0%Q then 0%Q else v
    | None => 0%Q
    end
  else 0%Q.

(** What the query needs of the object in order to return. *)
Definition queryReady (sim : Simulator) (st : EclThresholdPressure) : Prop :=
  enableThresholdPressure_ st = true ->
  length (elemEquilRegion_ st) = numElements sim
  /\ regionsBelow (numEquilRegions_ st) (elemEquilRegion_ st)
  /\ length (thpres_ st) = numEquilRegions_ st * numEquilRegions_ st
  /\ (thpresftValues_ st = []
      \/ (length (cartElemFaultIdx_ st) = cartesianSize sim
          /\ faultIndexOk (fun _ => True) (thpresftValues_ st) (cartElemFaultIdx_ st))).

(** The stencil face [f] joins the regions [r1] and [r2], and its flow is
    not negligible. *)
Definition contributes (st : EclThresholdPressure) (f : StencilFace) (r1 r2 : nat) : Prop :=
  ((elemEquilRegion_ st !! interiorElemIdx f = Some r1
    /\ elemEquilRegion_ st !! exteriorElemIdx f = Some r2)
   \/ (elemEquilRegion_ st !! interiorElemIdx f = Some r2
       /\ elemEquilRegion_ st !! exteriorElemIdx f = Some r1))
  /\ scalar_lt (std_abs (double_mul (area f) (transmissibility f))) negligibleFlow = false.

(** ** Concrete runs *)

Definition serial : Communication := {| lowerRanks := []; upperRanks := [] |}.

Definition noBarriers (isRestart : bool) : ThresholdPressureConfig := {|
  restart := isRestart;
  hasRegionBarrier := fun _ _ => false;
  hasThresholdPressure := fun _ _ => false;
  getThresholdPressure := fun _ _ => 0%Q
|}.

(** A grid of one cell in a deck that declares [ntequl] regions. *)
Definition oneCell (ntequl : nat) : Simulator := {|
  enableExperiments := false;
  numElements := 1;
  numGridDof := 1;
  elements := [ {| partitionType := InteriorEntity; interiorFaces := []; intersections := [] |} ];
  cartesianIndex := Z.of_nat;
  comm := serial;
  useThresholdPressure := true;
  getNumEquilRegions := ntequl;
  equilRegionData := [1%Z];
  getThresholdPressureConfig := noBarriers false;
  thpresftKeyword := None;
  faults := [];
  cartesianSize := 1
|}.

(** Two cells in two regions, joined by one face, in a restart run. *)
Definition twoCellFace : StencilFace := {|
  interiorElemIdx := 0;
  exteriorElemIdx := 1;
  area := 1%Q;
  transmissibility := (1 # 1000)%Q;
  phases := [ {| mobility := (8 # 10)%Q; pressureDifference := (-250000)%Q |};
              {| mobility := 0%Q; pressureDifference := 900000%Q |} ]
|}.

Definition twoCellElements : list Element :=
  [ {| partitionType := InteriorEntity;
       interiorFaces := [twoCellFace];
       intersections := [ {| boundary := false; insideElemIdx := 0; outsideElemIdx := 1 |} ] |};
    {| partitionType := InteriorEntity;
       interiorFaces := [];
       intersections := [ {| boundary := false; insideElemIdx := 1; outsideElemIdx := 0 |};
                          {| boundary := true; insideElemIdx := 1; outsideElemIdx := 0 |} ] |} ].

Definition twoCells (cfg : ThresholdPressureConfig) : Simulator := {|
  enableExperiments := false;
  numElements := 2;
  numGridDof := 2;
  elements := twoCellElements;
  cartesianIndex := Z.of_nat;
  comm := serial;
  useThresholdPressure := true;
  getNumEquilRegions := 2;
  equilRegionData := [1%Z; 2%Z];
  getThresholdPressureConfig := cfg;
  thpresftKeyword := None;
  faults := [];
  cartesianSize := 2
|}.

(** A barrier between every two regions, and one explicit value for all of
    them. *)
Definition allBarriers (explicit : option Scalar) : ThresholdPressureConfig := {|
  restart := false;
  hasRegionBarrier := fun _ _ => true;
  hasThresholdPressure := fun _ _ => bool_decide (is_Some explicit);
  getThresholdPressure := fun _ _ => default 0%Q explicit
|}.

(** Three cells in three regions; the only face joins the first two. *)
Definition threeCells (cfg : ThresholdPressureConfig) : Simulator := {|
  enableExperiments := false;
  numElements := 3;
  numGridDof := 3;
  elements := twoCellElements
              ++ [ {| partitionType := InteriorEntity;
                      interiorFaces := [];
                      intersections := [ {| boundary := true; insideElemIdx := 2;
                                            outsideElemIdx := 2 |} ] |} ];
  cartesianIndex := Z.of_nat;
  comm := serial;
  useThresholdPressure := true;
  getNumEquilRegions := 3;
  equilRegionData := [1%Z; 2%Z; 3%Z];
  getThresholdPressureConfig := cfg;
  thpresftKeyword := None;
  faults := [];
  cartesianSize := 3
|}.

(** Two ranks of one run with two regions.  Each has one face between the
    regions; the candidate is 5 on the first rank and 3 on the second. *)
Definition rankElements (dp : Scalar) : list Element :=
  [ {| partitionType := InteriorEntity;
       interiorFaces := [ {| interiorElemIdx := 0; exteriorElemIdx := 1; area := 1%Q;
                             transmissibility := 1%Q;
                             phases := [ {| mobility := 1%Q; pressureDifference := dp |} ] |} ];
       intersections := [] |} ].

Definition rankX : Simulator :=
  withElements (rankElements 5%Q) (twoCells (allBarriers None)).

Definition rankY : Simulator :=
  withElements (rankElements 3%Q) (twoCells (allBarriers None)).

Definition inRun (locals : list (list Scalar)) (p : nat) (sim : Simulator) : Simulator := {|
  enableExperiments := enableExperiments sim;
  numElements := numElements sim;
  numGridDof := numGridDof sim;
  elements := elements sim;
  cartesianIndex := cartesianIndex sim;
  comm := commOfRank locals p;
  useThresholdPressure := useThresholdPressure sim;
  getNumEquilRegions := getNumEquilRegions sim;
  equilRegionData := equilRegionData sim;
  getThresholdPressureConfig := getThresholdPressureConfig sim;
  thpresftKeyword := thpresftKeyword sim;
  faults := faults sim;
  cartesianSize := cartesianSize sim
|}.

Definition twoRankLocals : list (list Scalar) := [ [0; 5; 5; 0]%Q; [0; 3; 3; 0]%Q ].

Definition twoRanks : list (Simulator * EclThresholdPressure) :=
  [ (inRun twoRankLocals 0 rankX, allocated rankX [0; 1]);
    (inRun twoRankLocals 1 rankY, allocated rankY [0; 1]) ].

(** Five cells with the experimental fault thresholds.  The cells 0 and 1
    form the fault F1 (value 3), the cell 2 the fault F2 (value 7); the
    fault F3 of the cell 4 has no THPRESFT record, the cell 3 is in no
    fault.  The regions alternate, and a barrier with the explicit value 5
    lies between them. *)
Definition faultedRun (value1 value2 : Scalar) : Simulator := {|
  enableExperiments := true;
  numElements := 5;
  numGridDof := 5;
  elements := [ {| partitionType := InteriorEntity;
                   interiorFaces := [];
                   intersections := [ {| boundary := false; insideElemIdx := 3;
                                         outsideElemIdx := 4 |} ] |} ];
  cartesianIndex := Z.of_nat;
  comm := serial;
  useThresholdPressure := true;
  getNumEquilRegions := 2;
  equilRegionData := [1; 2; 1; 2; 1]%Z;
  getThresholdPressureConfig := allBarriers (Some 5%Q);
  thpresftKeyword := Some [ {| faultName := "F1"; thpresValue := value1 |};
                            {| faultName := "F2"; thpresValue := value2 |} ];
  faults := [ {| getName := "F1"; faultFaces := [[0; 1]] |};
              {| getName := "F2"; faultFaces := [[2]] |};
              {| getName := "F3"; faultFaces := [[4]] |} ];
  cartesianSize := 5
|}.

Definition faultedCells : Simulator := faultedRun 3%Q 7%Q.

Definition faultedState : EclThresholdPressure := {|
  thpresDefault_ := [0; 0; 0; 0]%Q;
  thpres_ := [0; 5; 5; 0]%Q;
  numEquilRegions_ := 2;
  elemEquilRegion_ := [0; 1; 0; 1; 0];
  thpresftValues_ := [3; 7; -1]%Q;
  cartElemFaultIdx_ := [0; 0; 1; -1; -1]%Z;
  enableThresholdPressure_ := true
|}.

(** Two cells without a face between them, in a deck that declares two
    regions but numbers the second cell 3 in EQLNUM. *)
Definition strayRegion : Simulator := {|
  enableExperiments := false;
  numElements := 2;
  numGridDof := 2;
  elements := [];
  cartesianIndex := Z.of_nat;
  comm := serial;
  useThresholdPressure := true;
  getNumEquilRegions := 2;
  equilRegionData := [1%Z; 3%Z];
  getThresholdPressureConfig := noBarriers false;
  thpresftKeyword := None;
  faults := [];
  cartesianSize := 2
|}.

(** A configuration whose explicit value depends on the order of the two
    regions. *)
Definition orderedValues : ThresholdPressureConfig := {|
  restart := false;
  hasRegionBarrier := fun _ _ => true;
  hasThresholdPressure := fun _ _ => true;
  getThresholdPressure := fun r1 r2 => if decide (r1 < r2) then 5%Q else 7%Q
|}.

(** ** Further notions and runs *)

(** The same run started from its restart file: only the restart flag of
    the threshold pressure configuration differs. *)
Definition asRestartRun (sim : Simulator) : Simulator := {|
  enableExperiments := enableExperiments sim;
  numElements := numElements sim;
  numGridDof := numGridDof sim;
  elements := elements sim;
  cartesianIndex := cartesianIndex sim;
  comm := comm sim;
  useThresholdPressure := useThresholdPressure sim;
  getNumEquilRegions := getNumEquilRegions sim;
  equilRegionData := equilRegionData sim;
  getThresholdPressureConfig := {|
    restart := true;
    hasRegionBarrier := hasRegionBarrier (getThresholdPressureConfig sim);
    hasThresholdPressure := hasThresholdPressure (getThresholdPressureConfig sim);
    getThresholdPressure := getThresholdPressure (getThresholdPressureConfig sim)
  |};
  thpresftKeyword := thpresftKeyword sim;
  faults := faults sim;
  cartesianSize := cartesianSize sim
|}.

(** A deck without threshold pressures: 1000 regions declared, no EQLNUM
    data for the three cells. *)
Definition withoutThresholdPressure : Simulator := {|
  enableExperiments := true;
  numElements := 3;
  numGridDof := 3;
  elements := twoCellElements;
  cartesianIndex := Z.of_nat;
  comm := serial;
  useThresholdPressure := false;
  getNumEquilRegions := 1000;
  equilRegionData := [];
  getThresholdPressureConfig := allBarriers (Some 5%Q);
  thpresftKeyword := None;
  faults := [];
  cartesianSize := 3
|}.

(** The same run over other EQLNUM data. *)
Definition withEqlnum (eqlnum : list Z) (sim : Simulator) : Simulator := {|
  enableExperiments := enableExperiments sim;
  numElements := numElements sim;
  numGridDof := numGridDof sim;
  elements := elements sim;
  cartesianIndex := cartesianIndex sim;
  comm := comm sim;
  useThresholdPressure := useThresholdPressure sim;
  getNumEquilRegions := getNumEquilRegions sim;
  equilRegionData := eqlnum;
  getThresholdPressureConfig := getThresholdPressureConfig sim;
  thpresftKeyword := thpresftKeyword sim;
  faults := faults sim;
  cartesianSize := cartesianSize sim
|}.

(** The two cells of [twoCells], both in the second region, with a
    barrier declared between every two regions. *)
Definition oneRegionPair : Simulator :=
  withEqlnum [2; 2]%Z (twoCells (allBarriers (Some 5%Q))).

(** No explicitly configured threshold pressure is negative. *)
Definition explicitNonnegative (cfg : ThresholdPressureConfig) : Prop :=
  forall r1 r2, hasThresholdPressure cfg r1 r2 = true ->
                (0 <= getThresholdPressure cfg r1 r2)%Q.

(** No entry of a matrix is negative. *)
Definition nonnegativeMatrix (m : list Scalar) : Prop :=
  Forall (fun v => (0 <= v)%Q) m.

(** A second face between the two cells of [twoCells], seen from the other
    side, with a larger pressure difference. *)
Definition twoCellFaceBack : StencilFace := {|
  interiorElemIdx := 1;
  exteriorElemIdx := 0;
  area := 2%Q;
  transmissibility := 1%Q;
  phases := [ {| mobility := 1%Q; pressureDifference := 300000%Q |} ]
|}.

Definition facesOnly (faces : list StencilFace) : Element :=
  {| partitionType := InteriorEntity; interiorFaces := faces; intersections := [] |}.

(** Two grids over the two cells that present the same two faces, in
    different orders and not equally often. *)
Definition gridForth : Simulator :=
  withElements [facesOnly [twoCellFace]; facesOnly [twoCellFaceBack]]
               (twoCells (noBarriers false)).

Definition gridBack : Simulator :=
  withElements [facesOnly [twoCellFaceBack; twoCellFace; twoCellFaceBack]]
               (twoCells (noBarriers false)).

(** The cells of a fault: those of all its "faces". *)
Definition faultCells (f : FaultRecord) : list nat := concat (faultFaces f).

(** The pairs of a THPRESFT record and a fault (with its index), in the
    order in which the two loops of [extractThpresft_] go through them. *)
Definition thpresftPairs (sim : Simulator) (kw : list ThpresftRecord)
  : list (ThpresftRecord * (nat * FaultRecord)) :=
  concat (map (fun r => map (pair r) (zip (seq 0 (length (faults sim))) (faults sim))) kw).

(** The body of the inner loop of [extractThpresft_], on such a pair. *)
Definition thpresftPairStep (acc : list Scalar * list Z)
    (p : ThpresftRecord * (nat * FaultRecord)) : Res (list Scalar * list Z) :=
  thpresftFaultStep p.1 acc p.2.

(** Four cells in one region with three faults: A holds the cells 0 and 1,
    B the cells 1 and 2, C the cell 3.  The keyword names A, then B, then A
    again; no record names C. *)
Definition overlappingFaults : Simulator := {|
  enableExperiments := true;
  numElements := 4;
  numGridDof := 4;
  elements := [];
  cartesianIndex := Z.of_nat;
  comm := serial;
  useThresholdPressure := true;
  getNumEquilRegions := 1;
  equilRegionData := [1; 1; 1; 1]%Z;
  getThresholdPressureConfig := noBarriers false;
  thpresftKeyword := Some [ {| faultName := "A"; thpresValue := 3%Q |};
                            {| faultName := "B"; thpresValue := 7%Q |};
                            {| faultName := "A"; thpresValue := 4%Q |} ];
  faults := [ {| getName := "A"; faultFaces := [[0]; [1]] |};
              {| getName := "B"; faultFaces := [[1; 2]] |};
              {| getName := "C"; faultFaces := [[3]] |} ];
  cartesianSize := 4
|}.


(** * The driver [Opm::FlowMainEbos] (opm/autodiff/FlowMainEbos.hpp)

    The functions of the driver that compute on its own data members are
    embedded: the set-up of the parallel run, the start-up banner, the
    choice of the output level, the names of the log files, the decision
    to merge the log files, and the search for the input case.

    Conventions of the embedding.
    - A [std::string] is a [string]; text written to [std::cout] or
      [std::cerr] is the list of the lines written, each without the
      newline that ends it.
    - [std::size_t] has 64 bits and [int] 32 bits; a conversion to either
      keeps the value modulo the width.
    - An exception is a value of [Exception]; a function that may throw
      returns an [Outcome].
    - [ParameterGroup] is the partial map from parameter names to their
      values; the file system and [boost::filesystem::path] enter through
      the answers they give. *)
Module FlowMainEbos.

Inductive Exception : Type :=
| length_error
| invalid_argument (what : string).

Inductive Outcome (A : Type) : Type :=
| Returns (a : A)
| Throws (e : Exception).
Arguments Returns {A} a.
Arguments Throws {A} e.

Definition outcome_bind {A B : Type} (r : Outcome A) (k : A -> Outcome B) : Outcome B :=
  match r with
  | Returns a => k a
  | Throws e => Throws e
  end.

(** [enum FileOutputValue] and the numbers of its enumerators. *)
Inductive FileOutputValue : Type := OUTPUT_NONE | OUTPUT_LOG_ONLY | OUTPUT_ALL.

Definition enumValue (v : FileOutputValue) : Z :=
  match v with
  | OUTPUT_NONE => 0%Z
  | OUTPUT_LOG_ONLY => 1%Z
  | OUTPUT_ALL => 3%Z
  end.

(** The data members that the embedded functions read or write. *)
Record Members : Type := {
  mpi_rank_ : Z;
  output_cout_ : bool;
  output_ : FileOutputValue;
  must_distribute_ : bool;
  output_to_files_ : bool;
  logFile_ : string
}.

(** The members as their declarations initialise them. *)
Definition declared : Members := {|
  mpi_rank_ := 0%Z;
  output_cout_ := false;
  output_ := OUTPUT_ALL;
  must_distribute_ := false;
  output_to_files_ := false;
  logFile_ := ""
|}.

Definition set_output (v : FileOutputValue) (m : Members) : Members :=
  {| mpi_rank_ := mpi_rank_ m; output_cout_ := output_cout_ m; output_ := v;
     must_distribute_ := must_distribute_ m; output_to_files_ := output_to_files_ m;
     logFile_ := logFile_ m |}.

Definition set_output_to_files (b : bool) (m : Members) : Members :=
  {| mpi_rank_ := mpi_rank_ m; output_cout_ := output_cout_ m; output_ := output_ m;
     must_distribute_ := must_distribute_ m; output_to_files_ := b;
     logFile_ := logFile_ m |}.

Definition set_logFile (s : string) (m : Members) : Members :=
  {| mpi_rank_ := mpi_rank_ m; output_cout_ := output_cout_ m; output_ := output_ m;
     must_distribute_ := must_distribute_ m; output_to_files_ := output_to_files_ m;
     logFile_ := s |}.

(** [setupParallelism]: [rank] and [size] are what [MPI_Comm_rank] and
    [MPI_Comm_size] answer; a build without MPI has rank 0 and size 1.
    The lines of the OpenMP build on [std::cout] are left out. *)
Definition setupParallelism (rank size : Z) (m : Members) : Members :=
  {| mpi_rank_ := rank;
     output_cout_ := (rank =? 0)%Z;
     output_ := output_ m;
     must_distribute_ := (1 <? size)%Z;
     output_to_files_ := output_to_files_ m;
     logFile_ := logFile_ m |}.

(** Conversions to [std::size_t] and to [int]. *)
Definition to_size_t (z : Z) : Z := (z mod 2 ^ 64)%Z.

Definition to_int (z : Z) : Z :=
  let r := (z mod 2 ^ 32)%Z in
  if (r <? 2 ^ 31)%Z then r else (r - 2 ^ 32)%Z.

Fixpoint fill (n : nat) (c : ascii) : string :=
  match n with
  | O => ""
  | S n' => String c (fill n' c)
  end.

(** [std::string(count, ch)] with an [int] for [count]: the count is
    converted to [std::size_t], and a count beyond [max_size()], as every
    negative [int] becomes, throws [std::length_error]. *)
Definition string_fill (count : Z) (ch : ascii) : Outcome string :=
  if (0 <=? count)%Z then Returns (fill (Z.to_nat count) ch) else Throws length_error.

Definition lineLen : Z := 70%Z.

Definition banner (version : string) : string := "This is flow " +:+ version.

(** [(lineLen - 2 - banner.size())] is computed in [std::size_t]. *)
Definition bannerRoom (version : string) : Z :=
  to_size_t (lineLen - 2 - Z.of_nat (String.length (banner version)))%Z.

Definition bannerPreLen (version : string) : Z :=
  to_int (bannerRoom version / 2)%Z.

Definition bannerPostLen (version : string) : Z :=
  to_int (to_size_t (to_size_t (bannerPreLen version) + bannerRoom version mod 2)%Z).

(** [printStartupMessage]: the lines written to [std::cout], where
    [version] is what [moduleVersionName()] answers. *)
Definition printStartupMessage (version : string) (m : Members) : Outcome (list string) :=
  if output_cout_ m then
    outcome_bind (string_fill (bannerPreLen version) " ") (fun pre =>
    outcome_bind (string_fill (bannerPostLen version) " ") (fun post =>
    Returns
      [ "**********************************************************************";
        "*                                                                    *";
        "*" +:+ pre +:+ banner version +:+ post +:+ "*";
        "*                                                                    *";
        "* Flow is a simulator for fully implicit three-phase black-oil flow, *";
        "*             including solvent and polymer capabilities.            *";
        "*          For more information, see http://opm-project.org          *";
        "*                                                                    *";
        "**********************************************************************";
        "" ]))
  else Returns [].

(** [ParameterGroup], and its [getDefault] and [has]. *)
Definition ParameterGroup : Type := string -> option string.

Definition getDefault (param : ParameterGroup) (name : string) (dflt : string) : string :=
  default dflt (param name).

Definition has (param : ParameterGroup) (name : string) : bool :=
  bool_decide (is_Some (param name)).

(** The static map [string2OutputEnum] and its [find]. *)
Definition string2OutputEnum : list (string * FileOutputValue) :=
  [ ("none", OUTPUT_NONE);
    ("false", OUTPUT_LOG_ONLY);
    ("log", OUTPUT_LOG_ONLY);
    ("all", OUTPUT_ALL);
    ("true", OUTPUT_ALL) ].

Fixpoint find (key : string) (entries : list (string * FileOutputValue))
  : option FileOutputValue :=
  match entries with
  | [] => None
  | (k, v) :: rest => if bool_decide (k = key) then Some v else find key rest
  end.

Definition dquote : string := String "034"%char "".

(** [setupOutput]: the members after the call and the lines written to
    [std::cerr]. *)
Definition setupOutput (param : ParameterGroup) (m : Members) : Members * list string :=
  let output := getDefault param "output" "all" in
  let '(m1, cerr) :=
    match find output string2OutputEnum with
    | Some v => (set_output v m, [])
    | None =>
        (m, [ "Value " +:+ output +:+ " passed to option output was invalid. Using "
              +:+ dquote +:+ "all" +:+ dquote +:+ " instead." ])
    end in
  (set_output_to_files
     (output_cout_ m1 && negb (enumValue (output_ m1) =? enumValue OUTPUT_NONE)%Z) m1, cerr).

(** What [boost::filesystem::path] answers for the deck file name. *)
Record Path : Type := {
  extension : string;
  stem : string;
  filename : string
}.

(** [boost::to_upper_copy] in the classic locale. *)
Definition to_upper (c : ascii) : ascii :=
  let n := nat_of_ascii c in
  if (97 <=? n) && (n <=? 122) then ascii_of_nat (n - 32) else c.

Fixpoint to_upper_copy (s : string) : string :=
  match s with
  | EmptyString => EmptyString
  | String c s' => String (to_upper c) (to_upper_copy s')
  end.

(** The back ends added to [OpmLog]: a log that writes to a file, or the
    log on [std::cout]. *)
Inductive Backend : Type :=
| FileLog (name : string) (file : string)
| StreamLog (name : string).

Definition baseName (fpath : Path) : string :=
  if bool_decide (to_upper_copy (extension fpath) = ".DATA") then stem fpath
  else filename fpath.

Definition rankSuffix (m : Members) : string :=
  if must_distribute_ m && negb (mpi_rank_ m =? 0)%Z
  then "." +:+ pretty (mpi_rank_ m)
  else "".

Definition logFileName (fpath : Path) (output_dir : string) (m : Members) : string :=
  output_dir +:+ "/" +:+ baseName fpath +:+ rankSuffix m +:+ ".PRT".

Definition debugFileName (fpath : Path) (output_dir : string) (m : Members) : string :=
  output_dir +:+ "/" +:+ "." +:+ baseName fpath +:+ rankSuffix m +:+ ".DEBUG".

(** [setupLogging]: the members after the call and the back ends added to
    [OpmLog], in the order of the calls of [addBackend].  [fpath] is the
    path of the parameter [deck_filename], [output_dir] the output
    directory of the IO configuration, [no_debug_log] the value of the
    parameter of that name.  The message limits and the formatters of the
    back ends are left out. *)
Definition setupLogging (fpath : Path) (output_dir : string) (no_debug_log : bool)
    (m : Members) : Members * list Backend :=
  let m' := set_logFile (logFileName fpath output_dir m) m in
  (m',
   (if (enumValue OUTPUT_NONE <? enumValue (output_ m'))%Z
    then [FileLog "ECLIPSEPRTLOG" (logFile_ m')] else [])
   ++ (if (enumValue OUTPUT_LOG_ONLY <=? enumValue (output_ m'))%Z && negb no_debug_log
       then [FileLog "DEBUGLOG" (debugFileName fpath output_dir m)] else [])
   ++ [StreamLog "STREAMLOG"]).

(** [mergeParallelLogFiles]: the directory whose files are handed to the
    merger, or [None] when the function returns before the merge. *)
Definition mergeParallelLogFiles (param : ParameterGroup) (output_dir : string)
    (m : Members) : option string :=
  if negb (mpi_rank_ m =? 0)%Z || negb (must_distribute_ m) || negb (output_to_files_ m)
  then None
  else Some (if has param "output_dir" then output_dir else ".").

(** What the file system answers about a path. *)
Record FileSystem : Type := {
  fs_exists : string -> bool;
  is_regular_file : string -> bool;
  is_symlink : string -> bool;
  read_symlink : string -> string
}.

(** The local function [exists] of [simulationCaseName]. *)
Definition caseExists (fs : FileSystem) (f : string) : bool :=
  if negb (fs_exists fs f) then false
  else if is_regular_file fs f then true
  else is_symlink fs f && is_regular_file fs (read_symlink fs f).

(** The loop over the extensions: [replace_extension] changes [simcase]
    in place, so each round starts from the path of the round before. *)
Fixpoint tryExtensions (fs : FileSystem) (replace_extension : string -> string -> string)
    (exts : list string) (simcase : string) : option string :=
  match exts with
  | [] => None
  | ext :: rest =>
      let simcase' := replace_extension simcase ext in
      if caseExists fs simcase' then Some simcase'
      else tryExtensions fs replace_extension rest simcase'
  end.

Definition simulationCaseName (fs : FileSystem)
    (replace_extension : string -> string -> string) (casename : string)
  : Outcome string :=
  if caseExists fs casename then Returns casename
  else match tryExtensions fs replace_extension ["data"; "DATA"] casename with
       | Some simcase => Returns simcase
       | None => Throws (invalid_argument ("Cannot find input case " +:+ casename))
       end.

(** The three members after the set-up of a run of [size] processes on
    the process [rank] with the parameters [param]. *)
Definition afterSetup (rank size : Z) (param : ParameterGroup) : Members :=
  (setupOutput param (setupParallelism rank size declared)).1.

End FlowMainEbos.

(** A parameter group with the one parameter [output]. *)
Definition outputParam (value : string) : FlowMainEbos.ParameterGroup :=
  fun name => if bool_decide (name = "output") then Some value else None.

Definition caseNorne : FlowMainEbos.Path :=
  {| FlowMainEbos.extension := ".data"; FlowMainEbos.stem := "NORNE";
     FlowMainEbos.filename := "NORNE.data" |}.

(** A file system whose only file is [CASE.DATA], and a
    [replace_extension] for names without a directory and with at most
    one dot. *)
Definition onlyUpperCase : FlowMainEbos.FileSystem :=
  {| FlowMainEbos.fs_exists := fun f => bool_decide (f = "CASE.DATA");
     FlowMainEbos.is_regular_file := fun f => bool_decide (f = "CASE.DATA");
     FlowMainEbos.is_symlink := fun _ => false;
     FlowMainEbos.read_symlink := fun f => f |}.

Fixpoint dropExtension (s : string) : string :=
  match s with
  | EmptyString => EmptyString
  | String c s' => if bool_decide (c = "."%char) then EmptyString else String c (dropExtension s')
  end.

Definition replaceExtension (p ext : string) : string :=
  dropExtension p +:+ "." +:+ ext.

(** A face between the two cells of [twoCells] whose area is the double
    [0x1.c1bfcad712a2ap-65] and whose transmissibility is 21. *)
Definition boundaryFace : StencilFace := {|
  interiorElemIdx := 0;
  exteriorElemIdx := 1;
  area := (3956035701740821 # 83076749736557242056487941267521536)%Q;
  transmissibility := 21%Q;
  phases := [ {| mobility := 1%Q; pressureDifference := 7%Q |} ]
|}.

(** A file system in which [sub/CASE] is a symbolic link that does not
    lead to a regular file, while its stored target [d], read from the
    working directory, names one. *)
Definition linkBesideFile : FlowMainEbos.FileSystem :=
  {| FlowMainEbos.fs_exists := fun f => bool_decide (f = "sub/CASE") || bool_decide (f = "d");
     FlowMainEbos.is_regular_file := fun f => bool_decide (f = "d");
     FlowMainEbos.is_symlink := fun f => bool_decide (f = "sub/CASE");
     FlowMainEbos.read_symlink := fun f => if bool_decide (f = "sub/CASE") then "d" else f |}.
(** * Properties *)

(** ** Scalars *)

Lemma scalar_lt_spec (a b : Scalar) : scalar_lt a b = true <-> (a < b)%Q.
Proof.
  unfold scalar_lt. rewrite negb_true_iff. split.
  - intros H. apply Qnot_le_lt. intros Hle.
    apply Qle_bool_iff in Hle. congruence.
  - intros H. destruct (Qle_bool b a) eqn:E; [|reflexivity].
    apply Qle_bool_iff in E. exfalso. apply (Qlt_not_le _ _ H E).
Qed.

Lemma scalar_lt_false (a b : Scalar) : scalar_lt a b = false <-> (b <= a)%Q.
Proof.
  unfold scalar_lt. rewrite negb_false_iff. apply Qle_bool_iff.
Qed.

Lemma std_max_cases (a b : Scalar) :
  (std_max a b = b /\ (a < b)%Q) \/ (std_max a b = a /\ (b <= a)%Q).
Proof.
  unfold std_max. destruct (scalar_lt a b) eqn:E.
  - left. split; [reflexivity|]. by apply scalar_lt_spec.
  - right. split; [reflexivity|]. by apply scalar_lt_false.
Qed.

Lemma std_max_ge_l (a b : Scalar) : (a <= std_max a b)%Q.
Proof. destruct (std_max_cases a b) as [[-> H]|[-> H]]; lra. Qed.

Lemma std_max_ge_r (a b : Scalar) : (b <= std_max a b)%Q.
Proof. destruct (std_max_cases a b) as [[-> H]|[-> H]]; lra. Qed.


Lemma std_abs_nonneg (a : Scalar) : (0 <= std_abs a)%Q.
Proof. apply Qabs_nonneg. Qed.

(** ** Loops and vectors *)

Lemma bind_Ok {A B : Type} (r : Res A) (f : A -> Res B) (b : B) :
  r ≫= f = Ok b -> exists a, r = Ok a /\ f a = Ok b.
Proof. destruct r as [a|k]; simpl; [eauto | discriminate]. Qed.

Lemma forEach_app {A S : Type} (body : S -> A -> Res S) (l1 l2 : list A) (s : S) :
  forEach body (l1 ++ l2) s = forEach body l1 s ≫= forEach body l2.
Proof.
  revert s. induction l1 as [|x l1 IH]; intros s; simpl; [reflexivity|].
  destruct (body s x) as [s'|k]; simpl; [apply IH | reflexivity].
Qed.

(** A property kept by every iteration holds when the loop is left. *)
Lemma forEach_invariant {A S : Type} (P : S -> Prop) (body : S -> A -> Res S)
    (l : list A) (s s' : S) :
  (forall x t t', x ∈ l -> P t -> body t x = Ok t' -> P t') ->
  P s -> forEach body l s = Ok s' -> P s'.
Proof.
  revert s. induction l as [|x l IH]; intros s Hstep Hs Hrun; simpl in Hrun.
  - by inversion Hrun; subst.
  - apply bind_Ok in Hrun as (t & Hx & Hrest).
    apply (IH t); [| |done].
    + intros y u u' Hy. apply Hstep. by right.
    + eapply Hstep; [|done..]. by left.
Qed.

(** If every iteration succeeds on states satisfying an invariant it keeps,
    the loop succeeds. *)
Lemma forEach_succeeds {A S : Type} (P : S -> Prop) (body : S -> A -> Res S)
    (l : list A) (s : S) :
  (forall x t, x ∈ l -> P t -> exists t', body t x = Ok t' /\ P t') ->
  P s -> exists s', forEach body l s = Ok s' /\ P s'.
Proof.
  revert s. induction l as [|x l IH]; intros s Hstep Hs; simpl.
  - eauto.
  - destruct (Hstep x s) as (t & Hx & Ht); [by left|done|].
    rewrite Hx. simpl. apply IH; [|done].
    intros y u Hy. apply Hstep. by right.
Qed.

(** Two nested loops are one loop over the concatenation. *)
Lemma forEach_nested {A B S : Type} (inner : S -> B -> Res S) (sel : A -> list B)
    (l : list A) (s : S) :
  forEach (fun t x => forEach inner (sel x) t) l s = forEach inner (concat (map sel l)) s.
Proof.
  revert s. induction l as [|x l IH]; intros s; simpl; [reflexivity|].
  rewrite forEach_app.
  destruct (forEach inner (sel x) s) as [t|k]; simpl; [apply IH | reflexivity].
Qed.

Lemma forEach_ext {A S : Type} (f g : S -> A -> Res S) (l : list A) (s : S) :
  (forall t x, x ∈ l -> f t x = g t x) -> forEach f l s = forEach g l s.
Proof.
  revert s. induction l as [|x l IH]; intros s H; simpl; [reflexivity|].
  rewrite H by (by left). destruct (g s x); simpl; [|reflexivity].
  apply IH. intros t y Hy. apply H. by right.
Qed.

Lemma vec_at_Ok {A : Type} (v : list A) (i : nat) (x : A) :
  vec_at v i = Ok x <-> v !! i = Some x.
Proof. unfold vec_at. destruct (v !! i); split; congruence. Qed.

Lemma vec_at_lt {A : Type} (v : list A) (i : nat) :
  i < length v -> exists x, vec_at v i = Ok x /\ v !! i = Some x.
Proof.
  intros H. destruct (lookup_lt_is_Some_2 v i H) as [x Hx].
  exists x. split; [by apply vec_at_Ok | done].
Qed.

Lemma vec_set_Ok {A : Type} (v v' : list A) (i : nat) (x : A) :
  vec_set v i x = Ok v' <-> i < length v /\ v' = <[i:=x]> v.
Proof.
  unfold vec_set. destruct (decide (i < length v)); split.
  - intros [= <-]. done.
  - intros [_ ->]. done.
  - discriminate.
  - intros [? _]. lia.
Qed.

Lemma vec_set_lt {A : Type} (v : list A) (i : nat) (x : A) :
  i < length v -> vec_set v i x = Ok (<[i:=x]> v).
Proof. intros H. by apply vec_set_Ok. Qed.

(** ** Offsets into the region-by-region matrix *)

Lemma offset_lt (R r1 r2 : nat) : r1 < R -> r2 < R -> r1 * R + r2 < R * R.
Proof. nia. Qed.

Lemma offset_inj (R r1 r2 a b : nat) :
  r2 < R -> b < R -> r1 * R + r2 = a * R + b -> r1 = a /\ r2 = b.
Proof.
  intros H2 Hb Heq.
  assert (r1 = a) by nia. subst. lia.
Qed.

Lemma symmetricMatrix_replicate (R n : nat) (x : Scalar) :
  n = R * R -> symmetricMatrix R (replicate n x).
Proof.
  intros -> r1 r2 H1 H2.
  rewrite !lookup_replicate_2; [done | by apply offset_lt..].
Qed.

(** Writing one value to both entries of a pair keeps the matrix symmetric. *)
Lemma symmetricMatrix_write_pair (R a b : nat) (v : Scalar) (m : list Scalar) :
  a < R -> b < R -> length m = R * R -> symmetricMatrix R m ->
  symmetricMatrix R (<[b * R + a := v]> (<[a * R + b := v]> m)).
Proof.
  intros Ha Hb Hlen Hsym r1 r2 H1 H2.
  assert (Hin : forall x y, x < R -> y < R -> x * R + y < length m).
  { intros x y Hx Hy. rewrite Hlen. by apply offset_lt. }
  assert (Hlk : forall x y, x < R -> y < R ->
            <[b * R + a := v]> (<[a * R + b := v]> m) !! (x * R + y)
            = if decide ((x = a /\ y = b) \/ (x = b /\ y = a)) then Some v
              else m !! (x * R + y)).
  { intros x y Hx Hy.
    destruct (decide (b * R + a = x * R + y)) as [E|E].
    - apply offset_inj in E as [-> ->]; [|done..].
      rewrite list_lookup_insert_eq by (rewrite length_insert; by apply Hin).
      by rewrite decide_True by tauto.
    - rewrite list_lookup_insert_ne by done.
      destruct (decide (a * R + b = x * R + y)) as [E'|E'].
      + apply offset_inj in E' as [-> ->]; [|done..].
        rewrite list_lookup_insert_eq by (by apply Hin).
        by rewrite decide_True by tauto.
      + rewrite list_lookup_insert_ne by done.
        rewrite decide_False; [done|].
        intros [[-> ->]|[-> ->]]; congruence. }
  rewrite !Hlk by done.
  destruct (decide ((r1 = a /\ r2 = b) \/ (r1 = b /\ r2 = a))) as [D|D].
  - by rewrite decide_True by tauto.
  - rewrite decide_False by tauto. by apply Hsym.
Qed.

(** An entry that some iteration of a loop sets to [v], and that every
    other iteration either sets to [v] or leaves alone, holds [v] when the
    loop is left. *)
Lemma forEach_last_write {A B : Type} (body : list B -> A -> Res (list B))
    (l : list A) (o : nat) (v : B) (t t' : list B) (x : A) :
  x ∈ l ->
  (forall u u', body u x = Ok u' -> u' !! o = Some v) ->
  (forall y u u', y ∈ l -> body u y = Ok u' -> u' !! o = Some v \/ u' !! o = u !! o) ->
  forEach body l t = Ok t' -> t' !! o = Some v.
Proof.
  intros Hx Hset Hother Hrun.
  apply list_elem_of_split in Hx as (l1 & l2 & ->).
  rewrite forEach_app in Hrun.
  apply bind_Ok in Hrun as (t1 & _ & Hrun). simpl in Hrun.
  apply bind_Ok in Hrun as (t2 & Hstep & Hrun).
  apply Hset in Hstep.
  revert Hrun. apply (forEach_invariant (fun u => u !! o = Some v)); [|done].
  intros y u u' Hy Hu Hbody.
  destruct (Hother y u u') as [H|H]; [|done|done|congruence].
  apply elem_of_app. right. by right.
Qed.

(** An entry that no iteration changes is as it was before the loop. *)
Lemma forEach_untouched {A B : Type} (body : list B -> A -> Res (list B))
    (l : list A) (o : nat) (t t' : list B) :
  (forall y u u', y ∈ l -> body u y = Ok u' -> u' !! o = u !! o) ->
  forEach body l t = Ok t' -> t' !! o = t !! o.
Proof.
  intros Hkeep.
  apply (forEach_invariant (fun u => u !! o = t !! o)); [|done].
  intros y u u' Hy Hu Hbody. rewrite <- Hu. by eapply Hkeep.
Qed.

(** ** The regions of the cells *)

Lemma internalizeEqlnum_length (sim : Simulator) (regs0 regs : list nat) :
  internalizeEqlnum sim regs0 = Ok regs -> length regs = length regs0.
Proof.
  unfold internalizeEqlnum.
  apply (forEach_invariant (fun r => length r = length regs0)); [|done].
  intros i t t' _ Ht Hbody.
  apply bind_Ok in Hbody as (d & _ & Hset).
  apply vec_set_Ok in Hset as [_ ->]. by rewrite length_insert.
Qed.

Lemma internalizeEqlnum_lookup (sim : Simulator) (regs0 regs : list nat) (i : nat) :
  internalizeEqlnum sim regs0 = Ok regs -> i < numElements sim ->
  exists d, (0 <= cartesianIndex sim i)%Z
    /\ equilRegionData sim !! Z.to_nat (cartesianIndex sim i) = Some d
    /\ regs !! i = Some (toUnsignedChar (d - 1)).
Proof.
  intros Hrun Hi.
  assert (Hin : i ∈ seq 0 (numElements sim)) by (apply elem_of_seq; lia).
  pose proof Hin as Hsplit.
  apply list_elem_of_split in Hsplit as (l1 & l2 & Hl).
  pose proof Hrun as Hrun'. unfold internalizeEqlnum in Hrun'.
  rewrite Hl, forEach_app in Hrun'.
  apply bind_Ok in Hrun' as (t1 & _ & Hrun'). simpl in Hrun'.
  apply bind_Ok in Hrun' as (t2 & Hstep & _).
  apply bind_Ok in Hstep as (d & Hd & Hset).
  unfold vec_at_int in Hd. destruct (decide (0 <= cartesianIndex sim i)%Z); [|done].
  apply vec_at_Ok in Hd.
  exists d. split; [done|]. split; [done|].
  revert Hrun. unfold internalizeEqlnum.
  apply (forEach_last_write _ _ _ _ _ _ i); [done| |].
  - intros u u' Hbody. apply bind_Ok in Hbody as (d' & Hd' & Hset').
    unfold vec_at_int in Hd'. rewrite decide_True in Hd' by done.
    apply vec_at_Ok in Hd'. assert (d' = d) as -> by congruence.
    apply vec_set_Ok in Hset' as [? ->]. by apply list_lookup_insert_eq.
  - intros y u u' _ Hbody. apply bind_Ok in Hbody as (d' & Hd' & Hset').
    apply vec_set_Ok in Hset' as [? ->].
    destruct (decide (y = i)) as [->|Hne].
    + left. unfold vec_at_int in Hd'. rewrite decide_True in Hd' by done.
      apply vec_at_Ok in Hd'. assert (d' = d) as -> by congruence.
      by apply list_lookup_insert_eq.
    + right. by apply list_lookup_insert_ne.
Qed.

Lemma eqlnumInRange_elem (sim : Simulator) (i : nat) :
  eqlnumInRange sim = true -> i < numElements sim ->
  exists d, (0 <= cartesianIndex sim i)%Z
    /\ equilRegionData sim !! Z.to_nat (cartesianIndex sim i) = Some d
    /\ (1 <= d <= Z.of_nat (getNumEquilRegions sim))%Z.
Proof.
  intros Hwf Hi. unfold eqlnumInRange in Hwf.
  rewrite forallb_forall in Hwf.
  specialize (Hwf i). simpl in Hwf.
  assert (In i (seq 0 (numElements sim))) as Hin by (apply in_seq; lia).
  apply Hwf in Hin. apply andb_true_iff in Hin as [Hc Hd].
  apply bool_decide_eq_true in Hc.
  destruct (equilRegionData sim !! Z.to_nat (cartesianIndex sim i)) as [d|]; [|done].
  apply bool_decide_eq_true in Hd. eauto.
Qed.

Lemma internalizeEqlnum_succeeds (sim : Simulator) (regs0 : list nat) :
  eqlnumInRange sim = true -> length regs0 = numElements sim ->
  exists regs, internalizeEqlnum sim regs0 = Ok regs.
Proof.
  intros Hwf Hlen.
  destruct (forEach_succeeds (fun r : list nat => length r = numElements sim)
              (fun regs elemIdx =>
                 d ← vec_at_int (equilRegionData sim) (cartesianIndex sim elemIdx);
                 vec_set regs elemIdx (toUnsignedChar (d - 1)))
              (seq 0 (numElements sim)) regs0) as (regs & Hrun & _); [|done|by exists regs].
  intros i t Hi Ht. apply elem_of_seq in Hi.
  destruct (eqlnumInRange_elem sim i) as (d & Hc & Hd & _); [done|lia|].
  exists (<[i:=toUnsignedChar (d - 1)]> t). split; [|by rewrite length_insert].
  unfold vec_at_int. rewrite decide_True by done.
  apply vec_at_Ok in Hd. rewrite Hd. simpl. apply vec_set_lt. lia.
Qed.

Lemma toUnsignedChar_region (d : Z) (R : nat) :
  (1 <= d <= Z.of_nat R)%Z -> R <= 255 -> toUnsignedChar (d - 1) < R.
Proof.
  intros Hd HR. unfold toUnsignedChar.
  rewrite Z.mod_small by lia. lia.
Qed.

(** With EQLNUM in range, every cell gets a region below the number of
    regions. *)
Lemma internalizeEqlnum_regions (sim : Simulator) (regs0 regs : list nat) (i r : nat) :
  eqlnumInRange sim = true -> getNumEquilRegions sim <= 255 ->
  internalizeEqlnum sim regs0 = Ok regs -> i < numElements sim ->
  regs !! i = Some r -> r < getNumEquilRegions sim.
Proof.
  intros Hwf HR Hrun Hi Hr.
  destruct (internalizeEqlnum_lookup sim regs0 regs i Hrun Hi) as (d & Hc & Hd & Hreg).
  destruct (eqlnumInRange_elem sim i Hwf Hi) as (d' & _ & Hd' & Hrange).
  assert (d' = d) as -> by congruence.
  assert (r = toUnsignedChar (d - 1)) as -> by congruence.
  by apply toUnsignedChar_region.
Qed.

(** ** The default threshold pressures *)

Lemma scanFaces_flat (sim : Simulator) (st : EclThresholdPressure) :
  scanFaces sim st = forEach (defaultFaceStep st) (visitedFaces sim) (thpresDefault_ st).
Proof.
  unfold scanFaces, visitedFaces. rewrite <- forEach_nested.
  apply forEach_ext. intros t e _. unfold defaultElementStep.
  by destruct (isInterior (partitionType e)).
Qed.

(** What a successful iteration over a face has done. *)
Lemma defaultFaceStep_Ok (st : EclThresholdPressure) (d d' : list Scalar) (f : StencilFace) :
  defaultFaceStep st d f = Ok d' ->
  exists rI rO,
    elemEquilRegion_ st !! interiorElemIdx f = Some rI
    /\ elemEquilRegion_ st !! exteriorElemIdx f = Some rO
    /\ (d' = d
        \/ (rI <> rO
            /\ scalar_lt (std_abs (double_mul (area f) (transmissibility f))) negligibleFlow = false
            /\ exists old1 old2,
                 d !! (rI * numEquilRegions_ st + rO) = Some old1
                 /\ <[rI * numEquilRegions_ st + rO := std_max old1 (faceThreshold (phases f))]> d
                      !! (rO * numEquilRegions_ st + rI) = Some old2
                 /\ d' = <[rO * numEquilRegions_ st + rI := std_max old2 (faceThreshold (phases f))]>
                           (<[rI * numEquilRegions_ st + rO := std_max old1 (faceThreshold (phases f))]> d))).
Proof.
  unfold defaultFaceStep. intros H.
  apply bind_Ok in H as (rI & HrI & H). apply bind_Ok in H as (rO & HrO & H).
  apply vec_at_Ok in HrI, HrO. exists rI, rO. split; [done|]. split; [done|].
  destruct (decide (rI = rO)) as [E|E]; [left; congruence|].
  destruct (scalar_lt _ negligibleFlow) eqn:Hneg; [left; congruence|].
  right. split; [done|]. split; [done|].
  apply bind_Ok in H as (old1 & Hold1 & H). apply bind_Ok in H as (d1 & Hd1 & H).
  apply bind_Ok in H as (old2 & Hold2 & H).
  apply vec_at_Ok in Hold1, Hold2.
  apply vec_set_Ok in Hd1 as [Hlt1 ->]. apply vec_set_Ok in H as [Hlt2 ->].
  by exists old1, old2.
Qed.

(** The two offsets of a pair of distinct regions of the run differ. *)
Lemma offset_swap_ne (R rI rO : nat) :
  rI < R -> rO < R -> rI <> rO -> rI * R + rO <> rO * R + rI.
Proof. intros HI HO Hne Heq. apply offset_inj in Heq as [? _]; done. Qed.

Lemma defaultFaceStep_length (st : EclThresholdPressure) (d d' : list Scalar) (f : StencilFace) :
  defaultFaceStep st d f = Ok d' -> length d' = length d.
Proof.
  intros H. apply defaultFaceStep_Ok in H as (rI & rO & _ & _ & [->|(_ & _ & o1 & o2 & _ & _ & ->)]).
  - done.
  - by rewrite !length_insert.
Qed.

Lemma defaultFaceStep_symmetric (st : EclThresholdPressure) (d d' : list Scalar) (f : StencilFace) :
  regionsBelow (numEquilRegions_ st) (elemEquilRegion_ st) ->
  length d = numEquilRegions_ st * numEquilRegions_ st ->
  symmetricMatrix (numEquilRegions_ st) d ->
  defaultFaceStep st d f = Ok d' -> symmetricMatrix (numEquilRegions_ st) d'.
Proof.
  intros Hregs Hlen Hsym H.
  apply defaultFaceStep_Ok in H
    as (rI & rO & HrI & HrO & [->|(Hne & _ & old1 & old2 & H1 & H2 & ->)]); [done|].
  apply Hregs in HrI, HrO.
  rewrite list_lookup_insert_ne in H2 by (by apply offset_swap_ne).
  assert (old2 = old1) as ->.
  { rewrite Hsym in H1 by done. congruence. }
  by apply symmetricMatrix_write_pair.
Qed.

(** A face leaves alone every entry but the two of its region pair. *)
Lemma defaultFaceStep_other (st : EclThresholdPressure) (d d' : list Scalar) (f : StencilFace)
    (o : nat) :
  defaultFaceStep st d f = Ok d' ->
  (forall rI rO,
      elemEquilRegion_ st !! interiorElemIdx f = Some rI ->
      elemEquilRegion_ st !! exteriorElemIdx f = Some rO ->
      rI <> rO ->
      o <> rI * numEquilRegions_ st + rO /\ o <> rO * numEquilRegions_ st + rI) ->
  d' !! o = d !! o.
Proof.
  intros H Ho.
  apply defaultFaceStep_Ok in H
    as (rI & rO & HrI & HrO & [->|(Hne & _ & old1 & old2 & H1 & H2 & ->)]); [done|].
  destruct (Ho rI rO HrI HrO Hne) as [Ho1 Ho2].
  by rewrite !list_lookup_insert_ne.
Qed.

Lemma defaultFaceStep_succeeds (st : EclThresholdPressure) (d : list Scalar) (f : StencilFace) :
  regionsBelow (numEquilRegions_ st) (elemEquilRegion_ st) ->
  length d = numEquilRegions_ st * numEquilRegions_ st ->
  interiorElemIdx f < length (elemEquilRegion_ st) ->
  exteriorElemIdx f < length (elemEquilRegion_ st) ->
  exists d', defaultFaceStep st d f = Ok d'.
Proof.
  intros Hregs Hlen Hi He. unfold defaultFaceStep.
  destruct (vec_at_lt _ _ Hi) as (rI & -> & HrI).
  destruct (vec_at_lt _ _ He) as (rO & -> & HrO). simpl.
  apply Hregs in HrI, HrO.
  destruct (decide (rI = rO)); [eauto|].
  destruct (scalar_lt _ negligibleFlow); [eauto|].
  assert (H1 : rI * numEquilRegions_ st + rO < length d)
    by (rewrite Hlen; by apply offset_lt).
  assert (H2 : rO * numEquilRegions_ st + rI < length d)
    by (rewrite Hlen; by apply offset_lt).
  destruct (vec_at_lt _ _ H1) as (old1 & -> & _). simpl.
  rewrite vec_set_lt by done. simpl.
  set (d1 := <[_ := _]> d).
  assert (H2' : rO * numEquilRegions_ st + rI < length d1)
    by (unfold d1; by rewrite length_insert).
  destruct (vec_at_lt _ _ H2') as (old2 & -> & _). simpl.
  rewrite vec_set_lt by done. eauto.
Qed.

(** The reduction loop over the entries [s .. s+k-1]. *)
Lemma reduce_range (c : Communication) (k s : nat) (d : list Scalar) :
  s + k = length d ->
  exists d',
    forEach (fun (t : list Scalar) i => x ← vec_at t i; vec_set t i (comm_max c i x))
            (seq s k) d = Ok d'
    /\ length d' = length d
    /\ forall i, d' !! i = if decide (s <= i) then comm_max c i <$> d !! i else d !! i.
Proof.
  revert s d. induction k as [|k IH]; intros s d Hlen; simpl.
  - exists d. split; [done|]. split; [done|].
    intros i. destruct (decide (s <= i)); [|done].
    by rewrite (lookup_ge_None_2 d i) by lia.
  - assert (Hs : s < length d) by lia.
    destruct (vec_at_lt _ _ Hs) as (x & -> & Hx). simpl.
    rewrite vec_set_lt by done. simpl.
    destruct (IH (S s) (<[s:=comm_max c s x]> d)) as (d' & Hrun & Hlen' & Hlk).
    { rewrite length_insert. lia. }
    exists d'. split; [done|]. split; [by rewrite Hlen', length_insert|].
    intros i. rewrite Hlk.
    destruct (decide (i = s)) as [->|Hne].
    + rewrite decide_False by lia. rewrite decide_True by lia.
      rewrite list_lookup_insert_eq by done. by rewrite Hx.
    + rewrite list_lookup_insert_ne by done.
      destruct (decide (S s <= i)); destruct (decide (s <= i)); try done; lia.
Qed.

Lemma reduceDefaults_spec (c : Communication) (d : list Scalar) :
  exists d',
    reduceDefaults c d = Ok d'
    /\ length d' = length d
    /\ forall i, d' !! i = comm_max c i <$> d !! i.
Proof.
  destruct (reduce_range c (length d) 0 d) as (d' & Hrun & Hlen & Hlk); [done|].
  exists d'. split; [done|]. split; [done|].
  intros i. rewrite Hlk. by rewrite decide_True by lia.
Qed.

Lemma scanFaces_invariant (sim : Simulator) (st : EclThresholdPressure) (scanned : list Scalar) :
  regionsBelow (numEquilRegions_ st) (elemEquilRegion_ st) ->
  length (thpresDefault_ st) = numEquilRegions_ st * numEquilRegions_ st ->
  symmetricMatrix (numEquilRegions_ st) (thpresDefault_ st) ->
  scanFaces sim st = Ok scanned ->
  length scanned = numEquilRegions_ st * numEquilRegions_ st
  /\ symmetricMatrix (numEquilRegions_ st) scanned.
Proof.
  intros Hregs Hlen Hsym. rewrite scanFaces_flat.
  apply (forEach_invariant
           (fun d => length d = numEquilRegions_ st * numEquilRegions_ st
                     /\ symmetricMatrix (numEquilRegions_ st) d)); [|done].
  intros f t t' _ [Ht Hs] Hstep. split.
  - apply defaultFaceStep_length in Hstep. congruence.
  - by eapply defaultFaceStep_symmetric.
Qed.

Lemma scanFaces_succeeds (sim : Simulator) (st : EclThresholdPressure) :
  regionsBelow (numEquilRegions_ st) (elemEquilRegion_ st) ->
  length (thpresDefault_ st) = numEquilRegions_ st * numEquilRegions_ st ->
  length (elemEquilRegion_ st) = numElements sim ->
  gridInRange sim = true ->
  exists scanned, scanFaces sim st = Ok scanned.
Proof.
  intros Hregs Hlen Hn Hgrid. rewrite scanFaces_flat.
  destruct (forEach_succeeds
              (fun d : list Scalar => length d = numEquilRegions_ st * numEquilRegions_ st)
              (defaultFaceStep st) (visitedFaces sim) (thpresDefault_ st))
    as (d & Hrun & _); [|done|by exists d].
  intros f t Hf Ht.
  unfold gridInRange in Hgrid. apply andb_true_iff in Hgrid as [Hfaces _].
  rewrite forallb_forall in Hfaces.
  apply list_elem_of_In, Hfaces, andb_true_iff in Hf as [Hi He].
  apply bool_decide_eq_true in Hi, He.
  destruct (defaultFaceStep_succeeds st t f) as (t' & Hstep); [done|done|lia|lia|].
  exists t'. split; [done|].
  apply defaultFaceStep_length in Hstep. congruence.
Qed.

(** An entry whose region pair no visited face joins is not changed by the
    scan. *)
Lemma scanFaces_untouched (sim : Simulator) (st : EclThresholdPressure)
    (scanned : list Scalar) (o : nat) :
  (forall f rI rO,
      f ∈ visitedFaces sim ->
      elemEquilRegion_ st !! interiorElemIdx f = Some rI ->
      elemEquilRegion_ st !! exteriorElemIdx f = Some rO ->
      rI <> rO ->
      o <> rI * numEquilRegions_ st + rO /\ o <> rO * numEquilRegions_ st + rI) ->
  scanFaces sim st = Ok scanned ->
  scanned !! o = thpresDefault_ st !! o.
Proof.
  intros Hfaces. rewrite scanFaces_flat.
  apply forEach_untouched.
  intros f u u' Hf Hstep.
  apply (defaultFaceStep_other st u u' f o Hstep).
  intros rI rO. by apply Hfaces.
Qed.

Lemma computeDefault_Ok (sim : Simulator) (st st' : EclThresholdPressure) :
  computeDefaultThresholdPressures_ sim st = Ok st' ->
  exists scanned reduced,
    scanFaces sim st = Ok scanned
    /\ reduceDefaults (comm sim) scanned = Ok reduced
    /\ length reduced = length scanned
    /\ (forall i, reduced !! i = comm_max (comm sim) i <$> scanned !! i)
    /\ st' = set_thpresDefault reduced st.
Proof.
  unfold computeDefaultThresholdPressures_. intros H.
  apply bind_Ok in H as (scanned & Hscan & H).
  apply bind_Ok in H as (reduced & Hred & H).
  exists scanned, reduced. split; [done|]. split; [done|].
  destruct (reduceDefaults_spec (comm sim) scanned) as (d' & Hrun & Hlen & Hlk).
  assert (d' = reduced) as -> by congruence.
  repeat split; [done|done|congruence].
Qed.

(** ** The collective maximum *)

Lemma fold_std_max_ge_init (l : list Scalar) (x : Scalar) : (x <= fold_left std_max l x)%Q.
Proof.
  revert x. induction l as [|y l IH]; intros x; simpl; [lra|].
  pose proof (IH (std_max x y)). pose proof (std_max_ge_l x y). lra.
Qed.

Lemma fold_std_max_ge_elem (l : list Scalar) (x y : Scalar) :
  y ∈ l -> (y <= fold_left std_max l x)%Q.
Proof.
  revert x. induction l as [|z l IH]; intros x Hy; [by apply elem_of_nil in Hy|].
  apply elem_of_cons in Hy as [->|Hy]; simpl.
  - pose proof (fold_std_max_ge_init l (std_max x z)).
    pose proof (std_max_ge_r x z). lra.
  - by apply IH.
Qed.

Lemma fold_std_max_elem (l : list Scalar) (x : Scalar) :
  fold_left std_max l x = x \/ fold_left std_max l x ∈ l.
Proof.
  revert x. induction l as [|z l IH]; intros x; simpl; [by left|].
  destruct (IH (std_max x z)) as [H|H].
  - rewrite H. destruct (std_max_cases x z) as [[-> _]|[-> _]].
    + right. by left.
    + by left.
  - right. by right.
Qed.

(** The collective maximum is a maximum: it is one of the contributions and
    no contribution exceeds it. *)
Lemma allreduce_max_is_max (l : list Scalar) :
  l <> [] ->
  allreduce_max l ∈ l /\ forall y, y ∈ l -> (y <= allreduce_max l)%Q.
Proof.
  destruct l as [|x l]; [done|]. intros _. simpl. split.
  - destruct (fold_std_max_elem l x) as [->|H]; [by left | by right].
  - intros y Hy. apply elem_of_cons in Hy as [->|Hy].
    + apply fold_std_max_ge_init.
    + by apply fold_std_max_ge_elem.
Qed.

Lemma allreduce_max_all_equal (l : list Scalar) (x : Scalar) :
  l <> [] -> Forall (fun y => y = x) l -> allreduce_max l = x.
Proof.
  intros Hne Hall. destruct (allreduce_max_is_max l Hne) as [Hin _].
  rewrite Forall_forall in Hall. by apply Hall.
Qed.

(** ** The explicit threshold pressures *)

Lemma applyBarriers_flat (sim : Simulator) (st : EclThresholdPressure) :
  applyBarriers sim st
  = forEach (explicitIntersectionStep sim st) (visitedIntersections sim) (thpres_ st).
Proof.
  unfold applyBarriers, visitedIntersections. rewrite <- forEach_nested.
  apply forEach_ext. intros t e _. unfold explicitElementStep.
  by destruct (isInterior (partitionType e)).
Qed.

(** What a successful iteration over an intersection has done. *)
Lemma explicitIntersectionStep_Ok (sim : Simulator) (st : EclThresholdPressure)
    (t t' : list Scalar) (i : Intersection) :
  explicitIntersectionStep sim st t i = Ok t' ->
  t' = t
  \/ (boundary i = false
      /\ exists rI rO pth,
           elemEquilRegion_ st !! insideElemIdx i = Some rI
           /\ elemEquilRegion_ st !! outsideElemIdx i = Some rO
           /\ hasRegionBarrier (getThresholdPressureConfig sim) (rI + 1) (rO + 1) = true
           /\ overrideValue sim st rI rO = Some pth
           /\ rI * numEquilRegions_ st + rO < length t
           /\ rO * numEquilRegions_ st + rI < length t
           /\ t' = <[rO * numEquilRegions_ st + rI := pth]>
                     (<[rI * numEquilRegions_ st + rO := pth]> t)).
Proof.
  unfold explicitIntersectionStep. intros H.
  destruct (boundary i) eqn:Hb; [left; congruence|].
  apply bind_Ok in H as (rI & HrI & H). apply bind_Ok in H as (rO & HrO & H).
  apply vec_at_Ok in HrI, HrO.
  destruct (hasRegionBarrier _ (rI + 1) (rO + 1)) eqn:Hbar; [|left; congruence].
  right. split; [done|].
  apply bind_Ok in H as (pth & Hpth & H). apply bind_Ok in H as (t1 & Ht1 & H).
  apply vec_set_Ok in Ht1 as [Hlt1 ->]. apply vec_set_Ok in H as [Hlt2 ->].
  rewrite length_insert in Hlt2.
  exists rI, rO, pth. repeat split; try done.
  unfold overrideValue.
  destruct (hasThresholdPressure _ (rI + 1) (rO + 1)); [congruence|].
  by apply vec_at_Ok in Hpth.
Qed.

(** An intersection that is not skipped writes the override value to both
    entries of its region pair. *)
Lemma explicitIntersectionStep_barrier (sim : Simulator) (st : EclThresholdPressure)
    (t t' : list Scalar) (i : Intersection) (rI rO : nat) :
  boundary i = false ->
  elemEquilRegion_ st !! insideElemIdx i = Some rI ->
  elemEquilRegion_ st !! outsideElemIdx i = Some rO ->
  hasRegionBarrier (getThresholdPressureConfig sim) (rI + 1) (rO + 1) = true ->
  explicitIntersectionStep sim st t i = Ok t' ->
  exists pth,
    overrideValue sim st rI rO = Some pth
    /\ rI * numEquilRegions_ st + rO < length t
    /\ rO * numEquilRegions_ st + rI < length t
    /\ t' = <[rO * numEquilRegions_ st + rI := pth]>
              (<[rI * numEquilRegions_ st + rO := pth]> t).
Proof.
  intros Hb HrI HrO Hbar H. unfold explicitIntersectionStep in H.
  rewrite Hb in H.
  apply vec_at_Ok in HrI, HrO. rewrite HrI, HrO in H. simpl in H.
  rewrite Hbar in H.
  apply bind_Ok in H as (pth & Hpth & H). apply bind_Ok in H as (t1 & Ht1 & H).
  apply vec_set_Ok in Ht1 as [Hlt1 ->]. apply vec_set_Ok in H as [Hlt2 ->].
  rewrite length_insert in Hlt2.
  exists pth. repeat split; try done.
  unfold overrideValue.
  destruct (hasThresholdPressure _ (rI + 1) (rO + 1)); [congruence|].
  by apply vec_at_Ok in Hpth.
Qed.

Lemma explicitIntersectionStep_length (sim : Simulator) (st : EclThresholdPressure)
    (t t' : list Scalar) (i : Intersection) :
  explicitIntersectionStep sim st t i = Ok t' -> length t' = length t.
Proof.
  intros H. apply explicitIntersectionStep_Ok in H
    as [->|(_ & rI & rO & pth & _ & _ & _ & _ & _ & _ & ->)]; [done|].
  by rewrite !length_insert.
Qed.

Lemma explicitIntersectionStep_symmetric (sim : Simulator) (st : EclThresholdPressure)
    (t t' : list Scalar) (i : Intersection) :
  regionsBelow (numEquilRegions_ st) (elemEquilRegion_ st) ->
  length t = numEquilRegions_ st * numEquilRegions_ st ->
  symmetricMatrix (numEquilRegions_ st) t ->
  explicitIntersectionStep sim st t i = Ok t' ->
  symmetricMatrix (numEquilRegions_ st) t'.
Proof.
  intros Hregs Hlen Hsym H.
  apply explicitIntersectionStep_Ok in H
    as [->|(_ & rI & rO & pth & HrI & HrO & _ & _ & _ & _ & ->)]; [done|].
  apply Hregs in HrI, HrO. by apply symmetricMatrix_write_pair.
Qed.

Lemma applyBarriers_invariant (sim : Simulator) (st : EclThresholdPressure) (final : list Scalar) :
  regionsBelow (numEquilRegions_ st) (elemEquilRegion_ st) ->
  length (thpres_ st) = numEquilRegions_ st * numEquilRegions_ st ->
  symmetricMatrix (numEquilRegions_ st) (thpres_ st) ->
  applyBarriers sim st = Ok final ->
  length final = numEquilRegions_ st * numEquilRegions_ st
  /\ symmetricMatrix (numEquilRegions_ st) final.
Proof.
  intros Hregs Hlen Hsym. rewrite applyBarriers_flat.
  apply (forEach_invariant
           (fun d => length d = numEquilRegions_ st * numEquilRegions_ st
                     /\ symmetricMatrix (numEquilRegions_ st) d)); [|done].
  intros f t t' _ [Ht Hs] Hstep. split.
  - apply explicitIntersectionStep_length in Hstep. congruence.
  - by eapply explicitIntersectionStep_symmetric.
Qed.

Lemma explicitIntersectionStep_succeeds (sim : Simulator) (st : EclThresholdPressure)
    (t : list Scalar) (i : Intersection) :
  regionsBelow (numEquilRegions_ st) (elemEquilRegion_ st) ->
  length t = numEquilRegions_ st * numEquilRegions_ st ->
  length (thpresDefault_ st) = numEquilRegions_ st * numEquilRegions_ st ->
  (boundary i = false -> insideElemIdx i < length (elemEquilRegion_ st)
                         /\ outsideElemIdx i < length (elemEquilRegion_ st)) ->
  exists t', explicitIntersectionStep sim st t i = Ok t'.
Proof.
  intros Hregs Hlen Hdef Hidx. unfold explicitIntersectionStep.
  destruct (boundary i); [eauto|].
  destruct Hidx as [Hi Ho]; [done|].
  destruct (vec_at_lt _ _ Hi) as (rI & -> & HrI).
  destruct (vec_at_lt _ _ Ho) as (rO & -> & HrO). simpl.
  apply Hregs in HrI, HrO.
  destruct (hasRegionBarrier _ _ _); [|eauto].
  assert (H1 : rI * numEquilRegions_ st + rO < numEquilRegions_ st * numEquilRegions_ st)
    by (by apply offset_lt).
  assert (H2 : rO * numEquilRegions_ st + rI < numEquilRegions_ st * numEquilRegions_ st)
    by (by apply offset_lt).
  assert (exists pth,
            (if hasThresholdPressure (getThresholdPressureConfig sim) (rI + 1) (rO + 1)
             then Ok (getThresholdPressure (getThresholdPressureConfig sim) (rI + 1) (rO + 1))
             else vec_at (thpresDefault_ st) (rI * numEquilRegions_ st + rO)) = Ok pth)
    as (pth & ->).
  { destruct (hasThresholdPressure _ _ _); [eauto|].
    destruct (vec_at_lt (thpresDefault_ st) (rI * numEquilRegions_ st + rO)) as (x & -> & _);
      [lia | eauto]. }
  simpl. rewrite vec_set_lt by lia. simpl.
  rewrite vec_set_lt by (rewrite length_insert; lia). eauto.
Qed.

Lemma applyBarriers_succeeds (sim : Simulator) (st : EclThresholdPressure) :
  regionsBelow (numEquilRegions_ st) (elemEquilRegion_ st) ->
  length (thpres_ st) = numEquilRegions_ st * numEquilRegions_ st ->
  length (thpresDefault_ st) = numEquilRegions_ st * numEquilRegions_ st ->
  length (elemEquilRegion_ st) = numElements sim ->
  gridInRange sim = true ->
  exists final, applyBarriers sim st = Ok final.
Proof.
  intros Hregs Hlen Hdef Hn Hgrid. rewrite applyBarriers_flat.
  destruct (forEach_succeeds
              (fun d : list Scalar => length d = numEquilRegions_ st * numEquilRegions_ st)
              (explicitIntersectionStep sim st) (visitedIntersections sim) (thpres_ st))
    as (d & Hrun & _); [|done|by exists d].
  intros i t Hi Ht.
  unfold gridInRange in Hgrid. apply andb_true_iff in Hgrid as [_ Hints].
  rewrite forallb_forall in Hints.
  apply list_elem_of_In, Hints in Hi.
  destruct (explicitIntersectionStep_succeeds sim st t i) as (t' & Hstep); [done..| |].
  { intros Hb. rewrite Hb in Hi. simpl in Hi.
    apply andb_true_iff in Hi as [H1 H2]. apply bool_decide_eq_true in H1, H2. lia. }
  exists t'. split; [done|].
  apply explicitIntersectionStep_length in Hstep. congruence.
Qed.

(** An entry whose region pair no visited intersection with a barrier joins
    is not changed. *)
Lemma applyBarriers_untouched (sim : Simulator) (st : EclThresholdPressure)
    (final : list Scalar) (o : nat) :
  (forall i rI rO,
      i ∈ visitedIntersections sim -> boundary i = false ->
      elemEquilRegion_ st !! insideElemIdx i = Some rI ->
      elemEquilRegion_ st !! outsideElemIdx i = Some rO ->
      hasRegionBarrier (getThresholdPressureConfig sim) (rI + 1) (rO + 1) = true ->
      o <> rI * numEquilRegions_ st + rO /\ o <> rO * numEquilRegions_ st + rI) ->
  applyBarriers sim st = Ok final ->
  final !! o = thpres_ st !! o.
Proof.
  intros Hints. rewrite applyBarriers_flat.
  apply forEach_untouched.
  intros i u u' Hi Hstep.
  apply explicitIntersectionStep_Ok in Hstep
    as [->|(Hb & rI & rO & pth & HrI & HrO & Hbar & _ & _ & _ & ->)]; [done|].
  destruct (Hints i rI rO) as [H1 H2]; [done..|].
  by rewrite !list_lookup_insert_ne.
Qed.

Lemma lookup_write_pair {A : Type} (t : list A) (o1 o2 o : nat) (v : A) :
  o1 < length t -> o2 < length t ->
  <[o2:=v]> (<[o1:=v]> t) !! o = if decide (o = o1 \/ o = o2) then Some v else t !! o.
Proof.
  intros H1 H2.
  destruct (decide (o = o2)) as [->|Hne2].
  - rewrite list_lookup_insert_eq by (by rewrite length_insert).
    by rewrite decide_True by tauto.
  - rewrite list_lookup_insert_ne by done.
    destruct (decide (o = o1)) as [->|Hne1].
    + rewrite list_lookup_insert_eq by done. by rewrite decide_True by tauto.
    + rewrite list_lookup_insert_ne by done. by rewrite decide_False by tauto.
Qed.

Lemma overrideValue_sym (sim : Simulator) (st : EclThresholdPressure) (rI rO : nat) :
  symmetricConfig (getThresholdPressureConfig sim) ->
  symmetricMatrix (numEquilRegions_ st) (thpresDefault_ st) ->
  rI < numEquilRegions_ st -> rO < numEquilRegions_ st ->
  overrideValue sim st rI rO = overrideValue sim st rO rI.
Proof.
  intros Hcfg Hsym HI HO. unfold overrideValue.
  destruct (Hcfg (rI + 1) (rO + 1)) as (_ & -> & ->).
  by rewrite (Hsym rI rO).
Qed.

(** When neither the configuration nor the default matrix depends on the
    order of a region pair, every visited intersection with a barrier finds
    its override value in both entries of its pair once the loop is left. *)
Lemma applyBarriers_value (sim : Simulator) (st : EclThresholdPressure)
    (final : list Scalar) (i : Intersection) (rI rO : nat) :
  regionsBelow (numEquilRegions_ st) (elemEquilRegion_ st) ->
  symmetricConfig (getThresholdPressureConfig sim) ->
  symmetricMatrix (numEquilRegions_ st) (thpresDefault_ st) ->
  i ∈ visitedIntersections sim -> boundary i = false ->
  elemEquilRegion_ st !! insideElemIdx i = Some rI ->
  elemEquilRegion_ st !! outsideElemIdx i = Some rO ->
  hasRegionBarrier (getThresholdPressureConfig sim) (rI + 1) (rO + 1) = true ->
  applyBarriers sim st = Ok final ->
  exists v,
    overrideValue sim st rI rO = Some v
    /\ final !! (rI * numEquilRegions_ st + rO) = Some v
    /\ final !! (rO * numEquilRegions_ st + rI) = Some v.
Proof.
  intros Hregs Hcfg Hsym Hi Hb HrI HrO Hbar Hrun.
  rewrite applyBarriers_flat in Hrun.
  assert (exists pth, overrideValue sim st rI rO = Some pth) as (pth & Hpth).
  { pose proof Hi as Hsplit.
    apply list_elem_of_split in Hsplit as (l1 & l2 & Hl).
    pose proof Hrun as Hrun'. rewrite Hl, forEach_app in Hrun'.
    apply bind_Ok in Hrun' as (t1 & _ & Hrun'). simpl in Hrun'.
    apply bind_Ok in Hrun' as (t2 & Hstep & _).
    destruct (explicitIntersectionStep_barrier sim st t1 t2 i rI rO) as (pth & ? & _); eauto. }
  pose proof (Hregs _ _ HrI) as HI. pose proof (Hregs _ _ HrO) as HO.
  assert (Hboth : forall o,
             o = rI * numEquilRegions_ st + rO \/ o = rO * numEquilRegions_ st + rI ->
             final !! o = Some pth).
  { intros o Ho. revert Hrun.
    apply (forEach_last_write _ _ _ _ _ _ i); [done| |].
    - intros u u' Hstep.
      destruct (explicitIntersectionStep_barrier sim st u u' i rI rO)
        as (pth' & Hpth' & H1 & H2 & ->); [done..|].
      assert (pth' = pth) as -> by congruence.
      rewrite lookup_write_pair by done. by rewrite decide_True.
    - intros y u u' Hy Hstep.
      apply explicitIntersectionStep_Ok in Hstep
        as [->|(Hyb & rI' & rO' & pth' & HrI' & HrO' & Hbar' & Hpth' & H1 & H2 & ->)];
        [by right|].
      pose proof (Hregs _ _ HrI') as HI'. pose proof (Hregs _ _ HrO') as HO'.
      rewrite lookup_write_pair by done.
      destruct (decide (o = rI' * numEquilRegions_ st + rO'
                        \/ o = rO' * numEquilRegions_ st + rI')) as [D|D]; [|by right].
      left. f_equal.
      assert ((rI' = rI /\ rO' = rO) \/ (rI' = rO /\ rO' = rI)) as [[-> ->]|[-> ->]].
      { destruct Ho as [-> | ->]; destruct D as [E|E];
          apply offset_inj in E as [? ?]; subst; tauto || done. }
      + congruence.
      + rewrite overrideValue_sym in Hpth' by done. congruence. }
  exists pth. split; [done|]. split; apply Hboth; tauto.
Qed.

(** ** The threshold pressures of the faults *)

Lemma assignFaultCells_length (faultIdx : nat) (fault : FaultRecord) (idx idx' : list Z) :
  assignFaultCells faultIdx fault idx = Ok idx' -> length idx' = length idx.
Proof.
  unfold assignFaultCells.
  apply (forEach_invariant (fun t => length t = length idx)); [|done].
  intros face t t' _ Ht.
  apply (forEach_invariant (fun u => length u = length idx)); [|done].
  intros c u u' _ Hu Hset. apply vec_set_Ok in Hset as [_ ->].
  by rewrite length_insert.
Qed.

Lemma assignFaultCells_index (P : Scalar -> Prop) (vals : list Scalar)
    (faultIdx : nat) (fault : FaultRecord) (idx idx' : list Z) (v : Scalar) :
  vals !! faultIdx = Some v -> P v ->
  faultIndexOk P vals idx ->
  assignFaultCells faultIdx fault idx = Ok idx' ->
  faultIndexOk P vals idx'.
Proof.
  intros Hv HP. unfold assignFaultCells.
  apply (forEach_invariant (faultIndexOk P vals)).
  intros face t t' _.
  apply (forEach_invariant (faultIndexOk P vals)).
  intros c u u' _ Hu Hset. apply vec_set_Ok in Hset as [Hlt ->].
  intros c' f Hf.
  destruct (decide (c = c')) as [->|Hne].
  - rewrite list_lookup_insert_eq in Hf by done. injection Hf as <-.
    right. split; [lia|]. exists v. by rewrite Nat2Z.id.
  - rewrite list_lookup_insert_ne in Hf by done. by apply (Hu c').
Qed.

Lemma assignFaultCells_succeeds (faultIdx : nat) (fault : FaultRecord) (idx : list Z) (n : nat) :
  forallb (forallb (fun c => bool_decide (c < n))) (faultFaces fault) = true ->
  length idx = n ->
  exists idx', assignFaultCells faultIdx fault idx = Ok idx'.
Proof.
  intros Hcells Hlen. unfold assignFaultCells.
  destruct (forEach_succeeds (fun t : list Z => length t = n)
              (fun t face => forEach (fun u c => vec_set u c (Z.of_nat faultIdx)) face t)
              (faultFaces fault) idx) as (t & Hrun & _); [|done|by exists t].
  intros face t Hface Ht.
  rewrite forallb_forall in Hcells.
  apply list_elem_of_In, Hcells in Hface. rewrite forallb_forall in Hface.
  apply (forEach_succeeds (fun u : list Z => length u = n)); [|done].
  intros c u Hc Hu. apply list_elem_of_In, Hface, bool_decide_eq_true in Hc.
  exists (<[c:=Z.of_nat faultIdx]> u). split; [apply vec_set_lt; lia|].
  by rewrite length_insert.
Qed.

Lemma thpresftFaultStep_invariant (P : Scalar -> Prop) (numFaults numCells : nat)
    (record : ThpresftRecord) (acc acc' : list Scalar * list Z) (f : nat * FaultRecord) :
  P (thpresValue record) ->
  thpresftInvariant P numFaults numCells acc ->
  thpresftFaultStep record acc f = Ok acc' ->
  thpresftInvariant P numFaults numCells acc'.
Proof.
  intros HP (Hvals & Hidx & Hok). unfold thpresftFaultStep.
  destruct (bool_decide _); [by intros [= <-]|].
  intros H. apply bind_Ok in H as (vals & Hset & H).
  apply bind_Ok in H as (idx & Hassign & H). injection H as <-.
  apply vec_set_Ok in Hset as [Hlt ->]. unfold thpresftInvariant. simpl.
  split; [by rewrite length_insert|].
  split; [apply assignFaultCells_length in Hassign; congruence|].
  apply (assignFaultCells_index P _ f.1 f.2 acc.2 idx (thpresValue record));
    [by apply list_lookup_insert_eq | done | | done].
  intros c g Hg. destruct (Hok c g Hg) as [->|(Hge & v & Hv & HPv)]; [by left|].
  right. split; [done|].
  destruct (decide (f.1 = Z.to_nat g)) as [E|E].
  - exists (thpresValue record). rewrite <- E.
    by rewrite list_lookup_insert_eq.
  - exists v. by rewrite list_lookup_insert_ne.
Qed.

Lemma extractThpresft_Ok (P : Scalar -> Prop) (sim : Simulator) (kw : list ThpresftRecord)
    (st st' : EclThresholdPressure) :
  Forall (fun r => P (thpresValue r)) kw ->
  thpresftValues_ st = [] -> cartElemFaultIdx_ st = [] ->
  extractThpresft_ sim kw st = Ok st' ->
  exists vals idx,
    st' = set_faults vals idx st
    /\ length vals = length (faults sim)
    /\ length idx = cartesianSize sim
    /\ faultIndexOk P vals idx.
Proof.
  intros HP Hv0 Hi0 H. unfold extractThpresft_ in H.
  apply bind_Ok in H as (acc & Hrun & H). injection H as <-.
  exists acc.1, acc.2. split; [done|].
  assert (thpresftInvariant P (length (faults sim)) (cartesianSize sim) acc) as (? & ? & ?);
    [|done].
  revert Hrun.
  apply (forEach_invariant (thpresftInvariant P (length (faults sim)) (cartesianSize sim))).
  - intros record t t' Hrec Ht. unfold thpresftRecordStep.
    apply (forEach_invariant (thpresftInvariant P (length (faults sim)) (cartesianSize sim)));
      [|done].
    intros f u u' _ Hu. apply thpresftFaultStep_invariant; [|done].
    rewrite Forall_forall in HP. by apply HP.
  - rewrite Hv0, Hi0. unfold thpresftInvariant. simpl.
    split; [by rewrite length_resize|].
    split; [by rewrite length_resize|].
    intros c f Hf. left. rewrite resize_nil in Hf.
    by apply lookup_replicate_1 in Hf as [-> _].
Qed.

Lemma extractThpresft_succeeds (sim : Simulator) (kw : list ThpresftRecord)
    (st : EclThresholdPressure) :
  faultsInRange sim = true ->
  exists st', extractThpresft_ sim kw st = Ok st'.
Proof.
  intros Hwf. unfold extractThpresft_.
  destruct (forEach_succeeds
              (fun acc : list Scalar * list Z =>
                 length acc.1 = length (faults sim) /\ length acc.2 = cartesianSize sim)
              (thpresftRecordStep sim) kw
              (resize (length (faults sim)) (-1)%Q (thpresftValues_ st),
               resize (cartesianSize sim) (-1)%Z (cartElemFaultIdx_ st)))
    as (acc & -> & _); [| |simpl; eauto].
  - intros record t _ Ht. unfold thpresftRecordStep.
    apply (forEach_succeeds
             (fun acc : list Scalar * list Z =>
                length acc.1 = length (faults sim) /\ length acc.2 = cartesianSize sim));
      [|done].
    intros f u Hf [Hu1 Hu2]. unfold thpresftFaultStep.
    destruct (bool_decide _); [eauto|].
    destruct f as [i fault].
    apply elem_of_zip_with in Hf as (i' & fault' & [= <- <-] & Hi & Hfault).
    apply elem_of_seq in Hi. simpl.
    rewrite vec_set_lt by lia. simpl.
    unfold faultsInRange in Hwf. rewrite forallb_forall in Hwf.
    apply list_elem_of_In, Hwf in Hfault.
    destruct (assignFaultCells_succeeds i fault u.2 (cartesianSize sim)) as (idx' & Hrun);
      [done..|].
    rewrite Hrun. simpl. eexists. split; [done|]. simpl.
    split; [by rewrite length_insert|].
    apply assignFaultCells_length in Hrun. congruence.
  - simpl. by rewrite !length_resize.
Qed.

(** ** [finishInit] on a freshly constructed object *)

(** The common part of every enabled initialisation that returns. *)
Lemma finishInit_enabled (sim : Simulator) (st : EclThresholdPressure) :
  useThresholdPressure sim = true ->
  finishInit sim constructed = Initialized st ->
  numGridDof sim = numElements sim
  /\ getNumEquilRegions sim <= 255
  /\ exists regs,
       internalizeEqlnum sim (replicate (numElements sim) 0) = Ok regs
       /\ length regs = numElements sim
       /\ if restart (getThresholdPressureConfig sim)
          then st = awaitingRestart sim regs
          else exists st6,
                 computeDefaultThresholdPressures_ sim (allocated sim regs) = Ok st6
                 /\ applyExplicitThresholdPressures_ sim st6 = Ok st.
Proof.
  intros Huse H. unfold finishInit in H.
  destruct (bool_decide (numGridDof sim = numElements sim)) eqn:Hdof; [|done].
  apply bool_decide_eq_true in Hdof. simpl in H. rewrite Huse in H. simpl in H.
  destruct (decide (255 < getNumEquilRegions sim)); [done|].
  rewrite resize_nil in H.
  destruct (internalizeEqlnum sim (replicate (numElements sim) 0)) as [regs|k] eqn:Hregs;
    [|done].
  split; [done|]. split; [lia|]. exists regs. split; [done|].
  split. { apply internalizeEqlnum_length in Hregs. by rewrite length_replicate in Hregs. }
  destruct (restart (getThresholdPressureConfig sim)).
  - by injection H as <-.
  - rewrite !resize_nil in H.
    change (set_thpresDefault _ _) with (allocated sim regs) in H.
    destruct (computeDefaultThresholdPressures_ sim (allocated sim regs)) as [st6|k] eqn:H6;
      [|done].
    simpl in H. exists st6. split; [done|].
    destruct (applyExplicitThresholdPressures_ sim st6); [by injection H as -> | done].
Qed.

Lemma regionsBelow_internalized (sim : Simulator) (regs0 regs : list nat) :
  eqlnumInRange sim = true -> getNumEquilRegions sim <= 255 ->
  length regs0 = numElements sim ->
  internalizeEqlnum sim regs0 = Ok regs ->
  regionsBelow (getNumEquilRegions sim) regs.
Proof.
  intros Hwf HR Hlen Hrun i r Hr.
  apply (internalizeEqlnum_regions sim regs0 regs i r); try done.
  apply lookup_lt_Some in Hr.
  apply internalizeEqlnum_length in Hrun. lia.
Qed.

(** What [applyExplicitThresholdPressures_] does to the state. *)
Lemma applyExplicit_Ok (sim : Simulator) (st6 st : EclThresholdPressure) :
  thpresftValues_ st6 = [] -> cartElemFaultIdx_ st6 = [] ->
  applyExplicitThresholdPressures_ sim st6 = Ok st ->
  exists final,
    applyBarriers sim st6 = Ok final
    /\ thpres_ st = final
    /\ thpresDefault_ st = thpresDefault_ st6
    /\ numEquilRegions_ st = numEquilRegions_ st6
    /\ elemEquilRegion_ st = elemEquilRegion_ st6
    /\ enableThresholdPressure_ st = enableThresholdPressure_ st6
    /\ ((thpresftValues_ st = [] /\ cartElemFaultIdx_ st = [])
        \/ (enableExperiments sim = true
            /\ exists kw,
                 thpresftKeyword sim = Some kw
                 /\ length (thpresftValues_ st) = length (faults sim)
                 /\ length (cartElemFaultIdx_ st) = cartesianSize sim
                 /\ forall P : Scalar -> Prop,
                      Forall (fun r => P (thpresValue r)) kw ->
                      faultIndexOk P (thpresftValues_ st) (cartElemFaultIdx_ st))).
Proof.
  intros Hv0 Hi0 H. unfold applyExplicitThresholdPressures_ in H.
  apply bind_Ok in H as (final & Hfinal & H). exists final. split; [done|].
  destruct (enableExperiments sim) eqn:Hexp;
    [destruct (thpresftKeyword sim) as [kw|] eqn:Hkw|].
  - assert (Hv1 : thpresftValues_ (set_thpres final st6) = []) by done.
    assert (Hi1 : cartElemFaultIdx_ (set_thpres final st6) = []) by done.
    destruct (extractThpresft_Ok (fun _ => True) sim kw _ _
                ltac:(by apply Forall_true) Hv1 Hi1 H) as (vals & idx & Heq & Hlv & Hli & _).
    subst st. simpl. repeat split; try done.
    right. split; [done|]. exists kw. repeat split; try done.
    intros P HP.
    destruct (extractThpresft_Ok P sim kw _ _ HP Hv1 Hi1 H) as (vals' & idx' & Heq & _ & _ & Hok).
    injection Heq as -> ->. done.
  - injection H as <-. simpl. repeat split; try done. by left.
  - injection H as <-. simpl. repeat split; try done. by left.
Qed.

(** The whole of an enabled, non-restart initialisation that returns. *)
Lemma finishInit_construction (sim : Simulator) (st : EclThresholdPressure) :
  useThresholdPressure sim = true ->
  restart (getThresholdPressureConfig sim) = false ->
  finishInit sim constructed = Initialized st ->
  getNumEquilRegions sim <= 255
  /\ exists regs scanned,
       internalizeEqlnum sim (replicate (numElements sim) 0) = Ok regs
       /\ length regs = numElements sim
       /\ scanFaces sim (allocated sim regs) = Ok scanned
       /\ length (thpresDefault_ st) = length scanned
       /\ (forall i, thpresDefault_ st !! i = comm_max (comm sim) i <$> scanned !! i)
       /\ applyBarriers sim (set_thpresDefault (thpresDefault_ st) (allocated sim regs))
          = Ok (thpres_ st)
       /\ numEquilRegions_ st = getNumEquilRegions sim
       /\ elemEquilRegion_ st = regs
       /\ enableThresholdPressure_ st = true
       /\ ((thpresftValues_ st = [] /\ cartElemFaultIdx_ st = [])
           \/ (enableExperiments sim = true
               /\ exists kw,
                    thpresftKeyword sim = Some kw
                    /\ length (thpresftValues_ st) = length (faults sim)
                    /\ length (cartElemFaultIdx_ st) = cartesianSize sim
                    /\ forall P : Scalar -> Prop,
                         Forall (fun r => P (thpresValue r)) kw ->
                         faultIndexOk P (thpresftValues_ st) (cartElemFaultIdx_ st))).
Proof.
  intros Huse Hrestart H.
  apply finishInit_enabled in H as (_ & HR & regs & Hregs & Hlen & H); [|done].
  rewrite Hrestart in H. destruct H as (st6 & H6 & H).
  split; [done|]. exists regs.
  apply computeDefault_Ok in H6 as (scanned & reduced & Hscan & _ & Hlr & Hlk & ->).
  apply applyExplicit_Ok in H as (final & Hfinal & Ht & Hd & Hn & He & Hen & Hfault);
    [|done..].
  simpl in Hd, Hn, He, Hen. exists scanned.
  rewrite Hd, Ht. repeat split; try done.
Qed.

Lemma wellFormed_parts (sim : Simulator) :
  wellFormed sim = true ->
  numGridDof sim = numElements sim /\ eqlnumInRange sim = true
  /\ gridInRange sim = true /\ faultsInRange sim = true.
Proof.
  unfold wellFormed. rewrite !andb_true_iff, bool_decide_eq_true. tauto.
Qed.

(** In a well-formed environment with at most 255 regions, initialisation
    returns. *)
Lemma finishInit_succeeds (sim : Simulator) :
  wellFormed sim = true -> getNumEquilRegions sim <= 255 ->
  exists st, finishInit sim constructed = Initialized st.
Proof.
  intros Hwf HR. apply wellFormed_parts in Hwf as (Hdof & Heql & Hgrid & Hfaults).
  unfold finishInit. rewrite bool_decide_eq_true_2 by done. simpl.
  destruct (useThresholdPressure sim); simpl; [|eauto].
  rewrite decide_False by lia. rewrite resize_nil.
  destruct (internalizeEqlnum_succeeds sim (replicate (numElements sim) 0))
    as (regs & Hregs); [done|by rewrite length_replicate|].
  rewrite Hregs.
  destruct (restart (getThresholdPressureConfig sim)); [eauto|].
  rewrite !resize_nil.
  change (set_thpresDefault _ _) with (allocated sim regs).
  assert (Hbelow : regionsBelow (getNumEquilRegions sim) regs).
  { eapply regionsBelow_internalized; [done..| |done]. by rewrite length_replicate. }
  assert (Hlen : length regs = numElements sim).
  { apply internalizeEqlnum_length in Hregs. by rewrite length_replicate in Hregs. }
  destruct (scanFaces_succeeds sim (allocated sim regs)) as (scanned & Hscan);
    [done|by simpl; rewrite length_replicate|done|done|].
  assert (Hls : length scanned = getNumEquilRegions sim * getNumEquilRegions sim).
  { apply (scanFaces_invariant sim (allocated sim regs)); try done.
    - by simpl; rewrite length_replicate.
    - by apply symmetricMatrix_replicate. }
  destruct (reduceDefaults_spec (comm sim) scanned) as (reduced & Hred & Hlr & _).
  unfold computeDefaultThresholdPressures_. rewrite Hscan. simpl. rewrite Hred. simpl.
  destruct (applyBarriers_succeeds sim (set_thpresDefault reduced (allocated sim regs)))
    as (final & Hfinal); [done| |simpl; congruence|done|done|].
  { by simpl; rewrite length_replicate. }
  unfold applyExplicitThresholdPressures_. rewrite Hfinal. simpl.
  destruct (enableExperiments sim); [|eauto].
  destruct (thpresftKeyword sim) as [kw|]; [|eauto].
  destruct (extractThpresft_succeeds sim kw
              (set_thpres final (set_thpresDefault reduced (allocated sim regs))))
    as (st & ->); [done|eauto].
Qed.

(** ** Regions of the cells and the faces that join them *)

Lemma internalized_equilRegionOf (sim : Simulator) (regs0 regs : list nat) (i r : nat) :
  length regs0 = numElements sim ->
  internalizeEqlnum sim regs0 = Ok regs ->
  regs !! i = Some r -> equilRegionOf sim i = Some r.
Proof.
  intros Hlen Hrun Hr.
  assert (Hi : i < numElements sim).
  { apply lookup_lt_Some in Hr. apply internalizeEqlnum_length in Hrun. lia. }
  destruct (internalizeEqlnum_lookup sim regs0 regs i Hrun Hi) as (d & Hc & Hd & Hreg).
  unfold equilRegionOf. rewrite decide_True by done. rewrite Hd. simpl. congruence.
Qed.

Lemma joinsRegions_false (sim : Simulator) (a b r1 r2 rA rB : nat) :
  joinsRegions sim a b r1 r2 = false ->
  equilRegionOf sim a = Some rA -> equilRegionOf sim b = Some rB ->
  ~ ((rA = r1 /\ rB = r2) \/ (rA = r2 /\ rB = r1)).
Proof.
  unfold joinsRegions. intros H HA HB Hj.
  apply bool_decide_eq_false in H. apply H.
  rewrite HA, HB. destruct Hj as [[-> ->]|[-> ->]]; tauto.
Qed.

(** The offsets of a pair of regions that a face does not join are not the
    offsets the face writes to. *)
Lemma offsets_of_other_pair (R r1 r2 rI rO o : nat) :
  r1 < R -> r2 < R -> rI < R -> rO < R ->
  ~ ((rI = r1 /\ rO = r2) \/ (rI = r2 /\ rO = r1)) ->
  o = r1 * R + r2 \/ o = r2 * R + r1 ->
  o <> rI * R + rO /\ o <> rO * R + rI.
Proof.
  intros H1 H2 HI HO Hj Ho.
  split; intros E; apply Hj; destruct Ho as [-> | ->];
    apply offset_inj in E as [? ?]; subst; tauto || done.
Qed.

(** ** The default matrix after the scan *)

(** A property of the list of the elements gone through and of the state,
    kept by every iteration, holds of the whole list when the loop is
    left. *)
Lemma forEach_prefix_invariant {A S : Type} (P : list A -> S -> Prop)
    (body : S -> A -> Res S) (l : list A) (s s' : S) :
  P [] s ->
  (forall pre x t t', P pre t -> body t x = Ok t' -> P (pre ++ [x]) t') ->
  forEach body l s = Ok s' -> P l s'.
Proof.
  intros H0 Hstep.
  assert (Hgen : forall pre t, P pre t -> forEach body l t = Ok s' -> P (pre ++ l) s').
  { induction l as [|x l IH]; intros pre t Hpre Hrun; simpl in Hrun.
    - injection Hrun as <-. by rewrite app_nil_r.
    - apply bind_Ok in Hrun as (t1 & Hx & Hrun).
      rewrite cons_middle, app_assoc. apply (IH _ t1); [|done].
      by eapply Hstep. }
  apply (Hgen [] s H0).
Qed.

(** What an iteration over a face does to the entry of a pair of distinct
    regions. *)
Lemma defaultFaceStep_entry (st : EclThresholdPressure) (d d' : list Scalar)
    (f : StencilFace) (r1 r2 : nat) (g : Scalar) :
  regionsBelow (numEquilRegions_ st) (elemEquilRegion_ st) ->
  r1 < numEquilRegions_ st -> r2 < numEquilRegions_ st -> r1 <> r2 ->
  d !! (r1 * numEquilRegions_ st + r2) = Some g ->
  symmetricMatrix (numEquilRegions_ st) d ->
  defaultFaceStep st d f = Ok d' ->
  (contributes st f r1 r2
   /\ d' !! (r1 * numEquilRegions_ st + r2) = Some (std_max g (faceThreshold (phases f))))
  \/ (~ contributes st f r1 r2 /\ d' !! (r1 * numEquilRegions_ st + r2) = Some g).
Proof.
  intros Hregs H1 H2 Hne Hg Hsym H. unfold defaultFaceStep in H.
  apply bind_Ok in H as (rI & HrI & H). apply bind_Ok in H as (rO & HrO & H).
  apply vec_at_Ok in HrI, HrO.
  pose proof (Hregs _ _ HrI) as HI. pose proof (Hregs _ _ HrO) as HO.
  destruct (decide (rI = rO)) as [->|Hd].
  { right. injection H as <-. split; [|done].
    intros [[[? ?]|[? ?]] _]; congruence. }
  destruct (scalar_lt _ negligibleFlow) eqn:Hneg.
  { right. injection H as <-. split; [|done]. intros [_ ?]. congruence. }
  apply bind_Ok in H as (old1 & Hold1 & H). apply bind_Ok in H as (d1 & Hd1 & H).
  apply bind_Ok in H as (old2 & Hold2 & H).
  apply vec_at_Ok in Hold1, Hold2.
  apply vec_set_Ok in Hd1 as [Hlt1 ->]. apply vec_set_Ok in H as [Hlt2 ->].
  rewrite length_insert in Hlt2.
  rewrite list_lookup_insert_ne in Hold2 by (by apply offset_swap_ne).
  assert (old2 = old1) as -> by (rewrite Hsym in Hold1 by done; congruence).
  rewrite lookup_write_pair by done.
  destruct (decide ((rI = r1 /\ rO = r2) \/ (rI = r2 /\ rO = r1))) as [Hj|Hj].
  - left. split.
    + split; [|done]. destruct Hj as [[-> ->]|[-> ->]]; tauto.
    + rewrite decide_True.
      * destruct Hj as [[-> ->]|[-> ->]]; [congruence|].
        rewrite Hsym in Hg by done. congruence.
      * destruct Hj as [[-> ->]|[-> ->]]; tauto.
  - right. split.
    + intros [[[? ?]|[? ?]] _]; apply Hj; [left|right]; split; congruence.
    + rewrite decide_False; [done|].
      intros Ho.
      destruct (offsets_of_other_pair (numEquilRegions_ st) r1 r2 rI rO
                  (r1 * numEquilRegions_ st + r2)) as [? ?]; try done; [by left|].
      tauto.
Qed.

(** After the scan of a freshly allocated matrix, the entry of a pair of
    distinct regions is the maximum of the candidates of the visited faces
    that join the two regions with a flow that is not negligible, and zero
    when there is no such face. *)
Lemma scanFaces_entry_is_maximum (sim : Simulator) (st : EclThresholdPressure)
    (scanned : list Scalar) (r1 r2 : nat) :
  regionsBelow (numEquilRegions_ st) (elemEquilRegion_ st) ->
  thpresDefault_ st = replicate (numEquilRegions_ st * numEquilRegions_ st) 0%Q ->
  r1 < numEquilRegions_ st -> r2 < numEquilRegions_ st -> r1 <> r2 ->
  scanFaces sim st = Ok scanned ->
  exists g,
    scanned !! (r1 * numEquilRegions_ st + r2) = Some g
    /\ (forall f, f ∈ visitedFaces sim -> contributes st f r1 r2 ->
          (faceThreshold (phases f) <= g)%Q)
    /\ (g = 0%Q
        \/ exists f, f ∈ visitedFaces sim /\ contributes st f r1 r2
                      /\ g = faceThreshold (phases f)).
Proof.
  intros Hregs Hd0 H1 H2 Hne. rewrite scanFaces_flat.
  apply (forEach_prefix_invariant
           (fun pre d =>
              length d = numEquilRegions_ st * numEquilRegions_ st
              /\ symmetricMatrix (numEquilRegions_ st) d
              /\ exists g,
                   d !! (r1 * numEquilRegions_ st + r2) = Some g
                   /\ (forall f, f ∈ pre -> contributes st f r1 r2 ->
                         (faceThreshold (phases f) <= g)%Q)
                   /\ (g = 0%Q
                       \/ exists f, f ∈ pre /\ contributes st f r1 r2
                                     /\ g = faceThreshold (phases f)))).
  - rewrite Hd0. split; [by rewrite length_replicate|].
    split; [by apply symmetricMatrix_replicate|].
    exists 0%Q. split; [apply lookup_replicate_2; by apply offset_lt|].
    split; [|by left]. intros f Hf. by apply elem_of_nil in Hf.
  - intros pre x t t' (Hlen & Hsym & g & Hg & Hub & Hatt) Hstep.
    split; [apply defaultFaceStep_length in Hstep; congruence|].
    split; [by eapply defaultFaceStep_symmetric|].
    destruct (defaultFaceStep_entry st t t' x r1 r2 g) as [[Hc Hg']|[Hc Hg']]; try done.
    + exists (std_max g (faceThreshold (phases x))). split; [done|]. split.
      * intros f Hf Hcf. apply elem_of_app in Hf as [Hf|Hf].
        -- pose proof (Hub f Hf Hcf). pose proof (std_max_ge_l g (faceThreshold (phases x))).
           lra.
        -- apply list_elem_of_singleton in Hf as ->. apply std_max_ge_r.
      * destruct (std_max_cases g (faceThreshold (phases x))) as [[-> _]|[-> _]].
        -- right. exists x. split; [|done]. apply elem_of_app. right. by left.
        -- destruct Hatt as [->|(f & Hf & Hcf & ->)]; [by left|].
           right. exists f. split; [|done]. apply elem_of_app. by left.
    + exists g. split; [done|]. split.
      * intros f Hf Hcf. apply elem_of_app in Hf as [Hf|Hf]; [by apply Hub|].
        apply list_elem_of_singleton in Hf as ->. done.
      * destruct Hatt as [->|(f & Hf & Hcf & ->)]; [by left|].
        right. exists f. split; [|done]. apply elem_of_app. by left.
Qed.

(** ** Symmetry of the reduced default matrix *)

Lemma column_symmetric (R r1 r2 : nat) (arrays : list (list Scalar)) :
  Forall (fun m => length m = R * R /\ symmetricMatrix R m) arrays ->
  r1 < R -> r2 < R ->
  column (r1 * R + r2) arrays = column (r2 * R + r1) arrays.
Proof.
  intros Hall H1 H2. unfold column. apply map_ext_in.
  intros m Hm. rewrite Forall_forall in Hall.
  apply list_elem_of_In, Hall in Hm as [_ Hsym]. by rewrite Hsym.
Qed.

Lemma reduced_symmetric (sim : Simulator) (R : nat) (scanned reduced : list Scalar) :
  R = getNumEquilRegions sim ->
  peersSymmetric sim -> symmetricMatrix R scanned ->
  (forall i, reduced !! i = comm_max (comm sim) i <$> scanned !! i) ->
  symmetricMatrix R reduced.
Proof.
  intros -> Hpeers Hsym Hlk r1 r2 H1 H2. rewrite !Hlk, Hsym by done.
  unfold peersSymmetric in Hpeers. apply Forall_app in Hpeers as [Hlo Hup].
  unfold comm_max.
  by rewrite (column_symmetric _ r1 r2 (lowerRanks (comm sim))),
             (column_symmetric _ r1 r2 (upperRanks (comm sim))).
Qed.

(** The state after a construction, with EQLNUM in range: what the two
    algorithms were run on and what they returned. *)
Lemma construction_trace (sim : Simulator) (st : EclThresholdPressure) :
  useThresholdPressure sim = true ->
  restart (getThresholdPressureConfig sim) = false ->
  eqlnumInRange sim = true ->
  finishInit sim constructed = Initialized st ->
  exists scanned,
    regionsBelow (getNumEquilRegions sim) (elemEquilRegion_ st)
    /\ (forall i r, elemEquilRegion_ st !! i = Some r -> equilRegionOf sim i = Some r)
    /\ length (elemEquilRegion_ st) = numElements sim
    /\ scanFaces sim (allocated sim (elemEquilRegion_ st)) = Ok scanned
    /\ length scanned = getNumEquilRegions sim * getNumEquilRegions sim
    /\ symmetricMatrix (getNumEquilRegions sim) scanned
    /\ length (thpresDefault_ st) = getNumEquilRegions sim * getNumEquilRegions sim
    /\ (forall i, thpresDefault_ st !! i = comm_max (comm sim) i <$> scanned !! i)
    /\ applyBarriers sim (set_thpresDefault (thpresDefault_ st)
                            (allocated sim (elemEquilRegion_ st)))
       = Ok (thpres_ st)
    /\ length (thpres_ st) = getNumEquilRegions sim * getNumEquilRegions sim
    /\ symmetricMatrix (getNumEquilRegions sim) (thpres_ st)
    /\ numEquilRegions_ st = getNumEquilRegions sim.
Proof.
  intros Huse Hrestart Heql Hinit.
  destruct (finishInit_construction sim st Huse Hrestart Hinit)
    as (HR & regs & scanned & Hregs & Hlen & Hscan & Hls & Hlk & Hfinal & Hn & He & _).
  subst regs. exists scanned.
  assert (Hbelow : regionsBelow (getNumEquilRegions sim) (elemEquilRegion_ st)).
  { eapply regionsBelow_internalized; [done..| |done]. by rewrite length_replicate. }
  destruct (scanFaces_invariant sim (allocated sim (elemEquilRegion_ st)) scanned)
    as [Hlsc Hsym];
    [done|by simpl; rewrite length_replicate|by apply symmetricMatrix_replicate|done|].
  destruct (applyBarriers_invariant sim
              (set_thpresDefault (thpresDefault_ st) (allocated sim (elemEquilRegion_ st)))
              (thpres_ st)) as [Hlt Htsym];
    [done|by simpl; rewrite length_replicate|by apply symmetricMatrix_replicate|done|].
  repeat split; try done.
  - intros i r.
    apply (internalized_equilRegionOf sim (replicate (numElements sim) 0)
             (elemEquilRegion_ st) i r); [|done].
    by rewrite length_replicate.
  - simpl in Hlsc. congruence.
Qed.

(** ** The candidate threshold of a face *)

Lemma faceThreshold_fold (phs : list PhaseQuantities) (acc : Scalar) :
  let step := fun (pth : Scalar) ph =>
                if scalar_lt 0%Q (mobility ph)
                then std_max pth (std_abs (pressureDifference ph)) else pth in
  (acc <= fold_left step phs acc)%Q
  /\ (forall ph, ph ∈ phs -> (0 < mobility ph)%Q ->
        (std_abs (pressureDifference ph) <= fold_left step phs acc)%Q)
  /\ (fold_left step phs acc = acc
      \/ exists ph, ph ∈ phs /\ (0 < mobility ph)%Q
                    /\ fold_left step phs acc = std_abs (pressureDifference ph)).
Proof.
  intros step. revert acc. induction phs as [|p phs IH]; intros acc; simpl.
  - split; [lra|]. split; [|by left]. intros ph Hph. by apply elem_of_nil in Hph.
  - destruct (IH (step acc p)) as (Hge & Hall & Hcase).
    assert (Hacc : (acc <= step acc p)%Q).
    { unfold step. destruct (scalar_lt 0%Q (mobility p)); [apply std_max_ge_l | lra]. }
    split; [lra|]. split.
    + intros ph Hph Hpos. apply elem_of_cons in Hph as [->|Hph]; [|by apply Hall].
      assert (std_abs (pressureDifference p) <= step acc p)%Q; [|lra].
      unfold step. apply scalar_lt_spec in Hpos. rewrite Hpos. apply std_max_ge_r.
    + destruct Hcase as [Heq|(ph & Hph & Hpos & Heq)].
      * rewrite Heq. unfold step.
        destruct (scalar_lt 0%Q (mobility p)) eqn:Hp; [|by left].
        destruct (std_max_cases acc (std_abs (pressureDifference p))) as [[-> _]|[-> _]];
          [|by left].
        right. exists p. split; [by left|]. split; [by apply scalar_lt_spec|done].
      * right. exists ph. split; [by right|done].
Qed.

(** Phases without positive mobility contribute nothing. *)
Lemma faceThreshold_filter (phs : list PhaseQuantities) :
  faceThreshold phs
  = faceThreshold (List.filter (fun ph => scalar_lt 0%Q (mobility ph)) phs).
Proof.
  unfold faceThreshold. generalize 0%Q at 2 5 as acc.
  induction phs as [|p phs IH]; intros acc; simpl; [done|].
  destruct (scalar_lt 0%Q (mobility p)) eqn:Hp; simpl; [rewrite Hp|]; apply IH.
Qed.

(** The candidate is the maximum of the absolute pressure differences of
    the phases with positive mobility, and zero when there is none. *)
Lemma faceThreshold_is_max (phs : list PhaseQuantities) :
  (forall ph, ph ∈ phs -> (0 < mobility ph)%Q ->
     (std_abs (pressureDifference ph) <= faceThreshold phs)%Q)
  /\ ((faceThreshold phs = 0%Q /\ forall ph, ph ∈ phs -> ~ (0 < mobility ph)%Q)
      \/ exists ph, ph ∈ phs /\ (0 < mobility ph)%Q
                    /\ (faceThreshold phs == std_abs (pressureDifference ph))%Q).
Proof.
  destruct (faceThreshold_fold phs 0%Q) as (_ & Hall & Hcase).
  fold (faceThreshold phs) in Hall, Hcase. split; [done|].
  destruct Hcase as [Hzero|(ph & Hph & Hpos & Heq)].
  - destruct (existsb (fun ph => scalar_lt 0%Q (mobility ph)) phs) eqn:Hex.
    + right. apply existsb_exists in Hex as (ph & Hph & Hpos).
      apply list_elem_of_In in Hph. apply scalar_lt_spec in Hpos.
      exists ph. split; [done|]. split; [done|].
      pose proof (Hall ph Hph Hpos) as Hle. rewrite Hzero in Hle |- *.
      pose proof (std_abs_nonneg (pressureDifference ph)). lra.
    + left. split; [done|]. intros ph Hph Hpos.
      assert (existsb (fun ph => scalar_lt 0%Q (mobility ph)) phs = true); [|congruence].
      apply existsb_exists. exists ph. split; [by apply list_elem_of_In|].
      by apply scalar_lt_spec.
  - right. exists ph. split; [done|]. split; [done|]. by rewrite Heq.
Qed.

(** ** The reduction over the ranks *)

Lemma column_of_run (locals : list (list Scalar)) (p i : nat) (l : list Scalar) (x : Scalar) :
  locals !! p = Some l -> l !! i = Some x ->
  column i (take p locals) ++ x :: column i (drop (S p) locals) = column i locals.
Proof.
  intros Hl Hx. rewrite <- (take_drop_middle locals p l Hl) at 3.
  unfold column. rewrite map_app. simpl. by rewrite Hx.
Qed.

Lemma collectiveMatrix_lookup (n : nat) (locals : list (list Scalar)) (i : nat) :
  collectiveMatrix n locals !! i
  = if decide (i < n) then Some (allreduce_max (column i locals)) else None.
Proof.
  unfold collectiveMatrix. rewrite list_lookup_fmap.
  destruct (decide (i < n)).
  - by rewrite lookup_seq_lt.
  - by rewrite lookup_seq_ge by lia.
Qed.

(** ** The query *)



Lemma regionThresholdPressure_succeeds (sim : Simulator) (st : EclThresholdPressure)
    (a b : nat) :
  length (elemEquilRegion_ st) = numElements sim ->
  regionsBelow (numEquilRegions_ st) (elemEquilRegion_ st) ->
  length (thpres_ st) = numEquilRegions_ st * numEquilRegions_ st ->
  a < numElements sim -> b < numElements sim ->
  exists v, regionThresholdPressure st a b = Ok v.
Proof.
  intros Hlen Hregs Hm Ha Hb. unfold regionThresholdPressure.
  destruct (vec_at_lt (elemEquilRegion_ st) a) as (rA & -> & HrA); [lia|].
  destruct (vec_at_lt (elemEquilRegion_ st) b) as (rB & -> & HrB); [lia|].
  simpl. destruct (decide (rA = rB)); [eauto|].
  destruct (vec_at_lt (thpres_ st) (rA * numEquilRegions_ st + rB)) as (v & -> & _);
    [|eauto].
  rewrite Hm. apply offset_lt; by eapply Hregs.
Qed.

Lemma faultValue_succeeds (P : Scalar -> Prop) (st : EclThresholdPressure) (c : nat) (f : Z) :
  faultIndexOk P (thpresftValues_ st) (cartElemFaultIdx_ st) ->
  cartElemFaultIdx_ st !! c = Some f ->
  exists v, faultValue st f = Ok v
            /\ (f = (-1)%Z /\ v = 0%Q
                \/ (0 <= f)%Z /\ thpresftValues_ st !! Z.to_nat f = Some v /\ P v).
Proof.
  intros Hok Hf. unfold faultValue.
  destruct (Hok c f Hf) as [->|(Hge & v & Hv & HP)].
  - exists 0%Q. rewrite decide_False by lia. split; [done|]. by left.
  - exists v. rewrite decide_True by done.
    split; [by apply vec_at_Ok|]. right. done.
Qed.

(** The query returns on every state that is ready for it. *)
Lemma query_succeeds (sim : Simulator) (st : EclThresholdPressure) (a b : nat) :
  queryReady sim st ->
  a < numElements sim -> b < numElements sim ->
  (0 <= cartesianIndex sim a < Z.of_nat (cartesianSize sim))%Z ->
  (0 <= cartesianIndex sim b < Z.of_nat (cartesianSize sim))%Z ->
  exists v, thresholdPressure sim st a b = Ok v.
Proof.
  intros Hready Ha Hb Hca Hcb. unfold thresholdPressure.
  destruct (enableThresholdPressure_ st) eqn:Hen; simpl; [|eauto].
  destruct (Hready Hen) as (Hlen & Hregs & Hm & Hfault).
  pose proof (regionThresholdPressure_succeeds sim st a b Hlen Hregs Hm Ha Hb) as Hregion.
  destruct (enableExperiments sim); simpl; [|done].
  destruct (bool_decide (thpresftValues_ st = [])) eqn:Hempty; simpl; [done|].
  apply bool_decide_eq_false in Hempty.
  destruct Hfault as [?|[Hli Hok]]; [done|].
  unfold assertCartIdx. rewrite Hli, !decide_True by lia. simpl.
  unfold vec_at_int. rewrite !decide_True by lia.
  destruct (vec_at_lt (cartElemFaultIdx_ st) (Z.to_nat (cartesianIndex sim a)))
    as (f1 & -> & Hf1); [lia|].
  destruct (vec_at_lt (cartElemFaultIdx_ st) (Z.to_nat (cartesianIndex sim b)))
    as (f2 & -> & Hf2); [lia|].
  simpl.
  destruct (bool_decide (f1 <> (-1)%Z) && bool_decide (f1 = f2)); [eauto|].
  destruct (bool_decide (f1 <> f2)); [|done].
  destruct (faultValue_succeeds _ st _ f1 Hok Hf1) as (v1 & -> & _).
  destruct (faultValue_succeeds _ st _ f2 Hok Hf2) as (v2 & -> & _).
  simpl. eauto.
Qed.

(** The three ways in which [finishInit] returns on a fresh object. *)
Lemma finishInit_cases (sim : Simulator) (st : EclThresholdPressure) :
  finishInit sim constructed = Initialized st ->
  (useThresholdPressure sim = false /\ enableThresholdPressure_ st = false)
  \/ (useThresholdPressure sim = true
      /\ restart (getThresholdPressureConfig sim) = true
      /\ exists regs,
           internalizeEqlnum sim (replicate (numElements sim) 0) = Ok regs
           /\ length regs = numElements sim
           /\ st = awaitingRestart sim regs)
  \/ (useThresholdPressure sim = true
      /\ restart (getThresholdPressureConfig sim) = false).
Proof.
  intros H. destruct (useThresholdPressure sim) eqn:Huse.
  - destruct (restart (getThresholdPressureConfig sim)) eqn:Hrestart; [|tauto].
    right. left. split; [done|]. split; [done|].
    apply finishInit_enabled in H as (_ & _ & regs & Hregs & Hlen & H); [|done].
    rewrite Hrestart in H. eauto.
  - left. split; [done|]. unfold finishInit in H.
    destruct (bool_decide (numGridDof sim = numElements sim)); [|done].
    simpl in H. rewrite Huse in H. simpl in H. by injection H as <-.
Qed.

(** The fault part of the state after a construction. *)
Lemma construction_faults (sim : Simulator) (st : EclThresholdPressure) :
  useThresholdPressure sim = true ->
  restart (getThresholdPressureConfig sim) = false ->
  finishInit sim constructed = Initialized st ->
  enableThresholdPressure_ st = true
  /\ ((thpresftValues_ st = [] /\ cartElemFaultIdx_ st = [])
      \/ (enableExperiments sim = true
          /\ exists kw,
               thpresftKeyword sim = Some kw
               /\ length (thpresftValues_ st) = length (faults sim)
               /\ length (cartElemFaultIdx_ st) = cartesianSize sim
               /\ forall P : Scalar -> Prop,
                    Forall (fun r => P (thpresValue r)) kw ->
                    faultIndexOk P (thpresftValues_ st) (cartElemFaultIdx_ st))).
Proof.
  intros Huse Hrestart Hinit.
  destruct (finishInit_construction sim st Huse Hrestart Hinit)
    as (_ & regs & scanned & _ & _ & _ & _ & _ & _ & _ & _ & Hen & Hfault).
  done.
Qed.

(** After [finishInit], the regions of the cells are regions of the run and
    the matrix is symmetric. *)
Lemma finishInit_symmetric (sim : Simulator) (st : EclThresholdPressure) :
  eqlnumInRange sim = true ->
  finishInit sim constructed = Initialized st ->
  enableThresholdPressure_ st = true ->
  numEquilRegions_ st = getNumEquilRegions sim
  /\ length (elemEquilRegion_ st) = numElements sim
  /\ regionsBelow (getNumEquilRegions sim) (elemEquilRegion_ st)
  /\ symmetricMatrix (getNumEquilRegions sim) (thpres_ st)
  /\ (restart (getThresholdPressureConfig sim) = false ->
      length (thpres_ st) = getNumEquilRegions sim * getNumEquilRegions sim).
Proof.
  intros Heql Hinit Hen.
  destruct (finishInit_cases sim st Hinit)
    as [[_ Hoff]|[(Huse & Hrestart & regs & Hregs & Hlen & ->)|[Huse Hrestart]]].
  - congruence.
  - simpl. split; [done|]. split; [done|]. split; [|split; [|congruence]].
    + apply finishInit_enabled in Hinit as (_ & HR & _); [|done].
      eapply regionsBelow_internalized; [done..| |done]. by rewrite length_replicate.
    + intros r1 r2 _ _. by rewrite !lookup_nil.
  - destruct (construction_trace sim st Huse Hrestart Heql Hinit)
      as (scanned & Hbelow & _ & Hlen & _ & _ & _ & _ & _ & _ & Hlt & Hsym & Hn).
    done.
Qed.

(** * The claims *)

(** ** The limit on the number of regions *)

(** C9: with the threshold pressures enabled, a deck with more than 255
    equilibration regions makes [finishInit] throw the runtime error at
    once, before any of the vectors of the object is filled; with at most
    255 regions that error is never thrown, and with exactly 255 regions
    in a well-formed environment initialisation returns. *)
Theorem finishInit_region_limit (sim : Simulator) :
  useThresholdPressure sim = true ->
  numGridDof sim = numElements sim ->
  (255 < getNumEquilRegions sim ->
     exists st,
       finishInit sim constructed = Thrown tooManyRegions st
       /\ thpres_ st = [] /\ thpresDefault_ st = [] /\ elemEquilRegion_ st = []
       /\ thpresftValues_ st = [] /\ cartElemFaultIdx_ st = [])
  /\ (getNumEquilRegions sim <= 255 ->
        forall what st, finishInit sim constructed <> Thrown what st)
  /\ (getNumEquilRegions sim = 255 -> wellFormed sim = true ->
        exists st, finishInit sim constructed = Initialized st).
Proof.
  intros Huse Hdof. split; [|split].
  - intros HR. unfold finishInit.
    rewrite bool_decide_eq_true_2 by done. simpl. rewrite Huse. simpl.
    rewrite decide_True by done. eexists. split; [reflexivity|]. by simpl.
  - intros HR what st. unfold finishInit.
    rewrite bool_decide_eq_true_2 by done. simpl. rewrite Huse. simpl.
    rewrite decide_False by lia.
    destruct (internalizeEqlnum _ _); [|done].
    destruct (restart _); [done|].
    by destruct (_ ≫= _).
  - intros HR Hwf. apply finishInit_succeeds; [done|lia].
Qed.

Lemma finishInit_region_limit_witness :
  (exists st,
     finishInit (oneCell 256) constructed = Thrown tooManyRegions st
     /\ thpres_ st = [] /\ thpresDefault_ st = [] /\ elemEquilRegion_ st = []
     /\ thpresftValues_ st = [] /\ cartElemFaultIdx_ st = [])
  /\ exists st, finishInit (oneCell 255) constructed = Initialized st.
Proof.
  split.
  - apply (finishInit_region_limit (oneCell 256)); [reflexivity|reflexivity|simpl; lia].
  - apply (finishInit_region_limit (oneCell 255)); reflexivity.
Defined.

(** ** Restart *)

(** C5: on a restart run [finishInit] only internalizes the regions of the
    cells: it allocates no matrix and runs neither of the two algorithms.
    After [setFromRestart M] the matrix of the object is [M], the query
    reads [M] and nothing else, and neither the state nor any answer of the
    query depends on the elements and faces of the grid.  The two calls can
    come in either order. *)
Theorem restart_bypass (sim : Simulator) (M : list Scalar) :
  useThresholdPressure sim = true ->
  restart (getThresholdPressureConfig sim) = true ->
  numGridDof sim = numElements sim ->
  getNumEquilRegions sim <= 255 ->
  eqlnumInRange sim = true ->
  exists regs,
    finishInit sim constructed = Initialized (awaitingRestart sim regs)
    /\ data (setFromRestart M (awaitingRestart sim regs)) = M
    /\ thpresDefault_ (setFromRestart M (awaitingRestart sim regs)) = []
    /\ thpresftValues_ (setFromRestart M (awaitingRestart sim regs)) = []
    /\ (forall a b,
          thresholdPressure sim (setFromRestart M (awaitingRestart sim regs)) a b
          = lookupInMatrix M (getNumEquilRegions sim) regs a b)
    /\ (forall elems,
          finishInit (withElements elems sim) constructed
          = Initialized (awaitingRestart sim regs)
          /\ forall a b,
               thresholdPressure (withElements elems sim)
                 (setFromRestart M (awaitingRestart sim regs)) a b
               = thresholdPressure sim (setFromRestart M (awaitingRestart sim regs)) a b)
    /\ finishInit sim (setFromRestart M constructed)
       = Initialized (setFromRestart M (awaitingRestart sim regs)).
Proof.
  intros Huse Hrestart Hdof HR Heql.
  destruct (internalizeEqlnum_succeeds sim (replicate (numElements sim) 0))
    as (regs & Hregs); [done|by rewrite length_replicate|].
  exists regs.
  assert (Hinit : forall elems,
             finishInit (withElements elems sim) constructed
             = Initialized (awaitingRestart sim regs)).
  { intros elems. unfold finishInit. simpl.
    rewrite bool_decide_eq_true_2 by done. simpl. rewrite Huse. simpl.
    rewrite decide_False by lia. rewrite resize_nil.
    change (internalizeEqlnum (withElements elems sim)) with (internalizeEqlnum sim).
    rewrite Hregs. by rewrite Hrestart. }
  assert (Hquery : forall s a b,
             enableExperiments s = enableExperiments sim ->
             thresholdPressure s (setFromRestart M (awaitingRestart sim regs)) a b
             = lookupInMatrix M (getNumEquilRegions sim) regs a b).
  { intros s a b Hs. unfold thresholdPressure. simpl.
    by rewrite andb_false_r. }
  split; [|split; [done|split; [done|split; [done|split; [|split]]]]].
  - unfold finishInit.
    rewrite bool_decide_eq_true_2 by done. simpl. rewrite Huse. simpl.
    rewrite decide_False by lia. rewrite resize_nil.
    rewrite Hregs. by rewrite Hrestart.
  - intros a b. by apply Hquery.
  - intros elems. split; [apply Hinit|].
    intros a b. by rewrite !Hquery.
  - unfold finishInit.
    rewrite bool_decide_eq_true_2 by done. simpl. rewrite Huse. simpl.
    rewrite decide_False by lia. rewrite resize_nil.
    rewrite Hregs. by rewrite Hrestart.
Qed.

Lemma restart_bypass_witness :
  exists regs,
    finishInit (twoCells (noBarriers true)) constructed
    = Initialized (awaitingRestart (twoCells (noBarriers true)) regs)
    /\ forall a b,
         thresholdPressure (twoCells (noBarriers true))
           (setFromRestart [0; 7; 7; 0]%Q (awaitingRestart (twoCells (noBarriers true)) regs)) a b
         = lookupInMatrix [0; 7; 7; 0]%Q 2 regs a b.
Proof.
  destruct (restart_bypass (twoCells (noBarriers true)) [0; 7; 7; 0]%Q)
    as (regs & Hinit & _ & _ & _ & Hq & _);
    [reflexivity | reflexivity | reflexivity | simpl; lia | reflexivity |].
  exists regs. split; [exact Hinit | exact Hq].
Defined.

(** ** The explicit overrides *)

(** C1: in an initialisation that is not a restart, let the configuration
    and the matrices contributed by the other ranks not depend on the order
    of a region pair.  Then initialisation returns, and for every
    intersection the applier visits that is not on the boundary and whose
    two cells lie in regions with a declared barrier, both entries of
    [thpres_] for that pair hold the explicitly configured value if there
    is one, and otherwise the entry of [thpresDefault_] for the pair.  In
    particular an explicit value wins over whatever default was computed. *)
Theorem explicit_override_on_barrier_faces (sim : Simulator) :
  useThresholdPressure sim = true ->
  restart (getThresholdPressureConfig sim) = false ->
  wellFormed sim = true ->
  getNumEquilRegions sim <= 255 ->
  symmetricConfig (getThresholdPressureConfig sim) ->
  peersSymmetric sim ->
  exists st,
    finishInit sim constructed = Initialized st
    /\ forall i rI rO,
         i ∈ visitedIntersections sim -> boundary i = false ->
         elemEquilRegion_ st !! insideElemIdx i = Some rI ->
         elemEquilRegion_ st !! outsideElemIdx i = Some rO ->
         hasRegionBarrier (getThresholdPressureConfig sim) (rI + 1) (rO + 1) = true ->
         exists v,
           thpres_ st !! (rI * getNumEquilRegions sim + rO) = Some v
           /\ thpres_ st !! (rO * getNumEquilRegions sim + rI) = Some v
           /\ if hasThresholdPressure (getThresholdPressureConfig sim) (rI + 1) (rO + 1)
              then v = getThresholdPressure (getThresholdPressureConfig sim) (rI + 1) (rO + 1)
              else thpresDefault_ st !! (rI * getNumEquilRegions sim + rO) = Some v.
Proof.
  intros Huse Hrestart Hwf HR Hcfg Hpeers.
  destruct (finishInit_succeeds sim Hwf HR) as (st & Hinit). exists st. split; [done|].
  apply wellFormed_parts in Hwf as (_ & Heql & _ & _).
  destruct (finishInit_construction sim st Huse Hrestart Hinit)
    as (_ & regs & scanned & Hregs & Hlen & Hscan & Hls & Hlk & Hfinal & Hn & He & _).
  assert (Hbelow : regionsBelow (getNumEquilRegions sim) regs).
  { eapply regionsBelow_internalized; [done..| |done]. by rewrite length_replicate. }
  destruct (scanFaces_invariant sim (allocated sim regs) scanned) as [_ Hsym];
    [done|by simpl; rewrite length_replicate|by apply symmetricMatrix_replicate|done|].
  assert (Hdsym : symmetricMatrix (getNumEquilRegions sim) (thpresDefault_ st))
    by (by eapply reduced_symmetric).
  intros i rI rO Hi Hb HrI HrO Hbar. rewrite He in HrI, HrO.
  destruct (applyBarriers_value sim (set_thpresDefault (thpresDefault_ st) (allocated sim regs))
              (thpres_ st) i rI rO) as (v & Hv & H1 & H2); try done.
  exists v. split; [done|]. split; [done|].
  unfold overrideValue in Hv. simpl in Hv.
  destruct (hasThresholdPressure _ _ _); [congruence|done].
Qed.

Lemma explicit_override_on_barrier_faces_witness :
  exists st,
    finishInit (twoCells (allBarriers (Some 5%Q))) constructed = Initialized st
    /\ forall i rI rO,
         i ∈ visitedIntersections (twoCells (allBarriers (Some 5%Q))) -> boundary i = false ->
         elemEquilRegion_ st !! insideElemIdx i = Some rI ->
         elemEquilRegion_ st !! outsideElemIdx i = Some rO ->
         hasRegionBarrier (allBarriers (Some 5%Q)) (rI + 1) (rO + 1) = true ->
         exists v,
           thpres_ st !! (rI * 2 + rO) = Some v
           /\ thpres_ st !! (rO * 2 + rI) = Some v
           /\ v = 5%Q.
Proof.
  apply (explicit_override_on_barrier_faces (twoCells (allBarriers (Some 5%Q))));
    [reflexivity | reflexivity | reflexivity | simpl; lia | | ].
  - intros r1 r2. repeat split.
  - apply Forall_nil_2.
Defined.

(** The run of the witness: the default of the pair is 250000, the explicit
    value 5 is what both entries hold. *)
Example explicit_value_wins :
  finishInit (twoCells (allBarriers (Some 5%Q))) constructed
  = Initialized {|
      thpresDefault_ := [0; 250000; 250000; 0]%Q;
      thpres_ := [0; 5; 5; 0]%Q;
      numEquilRegions_ := 2;
      elemEquilRegion_ := [0; 1];
      thpresftValues_ := [];
      cartElemFaultIdx_ := [];
      enableThresholdPressure_ := true
    |}.
Proof. reflexivity. Qed.

(** Without an explicit value the entries fall back to the default. *)
Example default_value_fallback :
  finishInit (twoCells (allBarriers None)) constructed
  = Initialized {|
      thpresDefault_ := [0; 250000; 250000; 0]%Q;
      thpres_ := [0; 250000; 250000; 0]%Q;
      numEquilRegions_ := 2;
      elemEquilRegion_ := [0; 1];
      thpresftValues_ := [];
      cartElemFaultIdx_ := [];
      enableThresholdPressure_ := true
    |}.
Proof. reflexivity. Qed.

(** C10: a barrier declared between two regions that no visited
    intersection joins has no effect: both entries of [thpres_] for the
    pair are still the zero they were allocated with, whether or not an
    explicit value is configured for the pair. *)
Theorem barrier_without_face_has_no_effect (sim : Simulator) (r1 r2 : nat) :
  useThresholdPressure sim = true ->
  restart (getThresholdPressureConfig sim) = false ->
  wellFormed sim = true ->
  getNumEquilRegions sim <= 255 ->
  r1 < getNumEquilRegions sim -> r2 < getNumEquilRegions sim ->
  hasRegionBarrier (getThresholdPressureConfig sim) (r1 + 1) (r2 + 1) = true ->
  noIntersectionJoins sim r1 r2 = true ->
  exists st,
    finishInit sim constructed = Initialized st
    /\ thpres_ st !! (r1 * getNumEquilRegions sim + r2) = Some 0%Q
    /\ thpres_ st !! (r2 * getNumEquilRegions sim + r1) = Some 0%Q.
Proof.
  intros Huse Hrestart Hwf HR H1 H2 _ Hnone.
  destruct (finishInit_succeeds sim Hwf HR) as (st & Hinit). exists st. split; [done|].
  apply wellFormed_parts in Hwf as (_ & Heql & _ & _).
  destruct (construction_trace sim st Huse Hrestart Heql Hinit)
    as (scanned & Hbelow & Hreg & _ & _ & _ & _ & _ & _ & Hfinal & _ & _ & _).
  assert (Hzero : forall o,
             o = r1 * getNumEquilRegions sim + r2 \/ o = r2 * getNumEquilRegions sim + r1 ->
             thpres_ st !! o = Some 0%Q).
  { intros o Ho.
    etrans; [eapply applyBarriers_untouched; [|exact Hfinal]|].
    2:{ simpl. apply lookup_replicate_2.
        destruct Ho as [-> | ->]; by apply offset_lt. }
    - simpl. intros i rI rO Hi Hb HrI HrO _.
      unfold noIntersectionJoins in Hnone. rewrite forallb_forall in Hnone.
      apply list_elem_of_In, Hnone in Hi. rewrite Hb in Hi. simpl in Hi.
      apply negb_true_iff in Hi.
      apply (offsets_of_other_pair _ r1 r2); try done; [by eapply Hbelow..|].
      eapply joinsRegions_false; [done|by apply Hreg..]. }
  split; apply Hzero; tauto.
Qed.

Lemma barrier_without_face_has_no_effect_witness :
  exists st,
    finishInit (threeCells (allBarriers (Some 5%Q))) constructed = Initialized st
    /\ thpres_ st !! 2 = Some 0%Q
    /\ thpres_ st !! 6 = Some 0%Q.
Proof.
  apply (barrier_without_face_has_no_effect (threeCells (allBarriers (Some 5%Q))) 0 2);
    solve [reflexivity | simpl; lia].
Defined.

(** C7: for a pair of regions with no declared barrier that no visited
    stencil face joins, both entries of [thpres_] are left at zero, which
    is also what the face scan of the estimator leaves for the pair; when
    the other ranks did not touch the pair either, it is the value of
    [thpresDefault_] for the pair. *)
Theorem untouched_pair_left_at_default (sim : Simulator) (r1 r2 : nat) :
  useThresholdPressure sim = true ->
  restart (getThresholdPressureConfig sim) = false ->
  wellFormed sim = true ->
  getNumEquilRegions sim <= 255 ->
  r1 < getNumEquilRegions sim -> r2 < getNumEquilRegions sim ->
  hasRegionBarrier (getThresholdPressureConfig sim) (r1 + 1) (r2 + 1) = false ->
  hasRegionBarrier (getThresholdPressureConfig sim) (r2 + 1) (r1 + 1) = false ->
  noFaceJoins sim r1 r2 = true ->
  exists st scanned,
    finishInit sim constructed = Initialized st
    /\ scanFaces sim (allocated sim (elemEquilRegion_ st)) = Ok scanned
    /\ forall o,
         o = r1 * getNumEquilRegions sim + r2 \/ o = r2 * getNumEquilRegions sim + r1 ->
         thpres_ st !! o = Some 0%Q
         /\ scanned !! o = Some 0%Q
         /\ (peersZeroAt sim o -> thpresDefault_ st !! o = thpres_ st !! o).
Proof.
  intros Huse Hrestart Hwf HR H1 H2 Hb12 Hb21 Hnone.
  destruct (finishInit_succeeds sim Hwf HR) as (st & Hinit). exists st.
  apply wellFormed_parts in Hwf as (_ & Heql & _ & _).
  destruct (construction_trace sim st Huse Hrestart Heql Hinit)
    as (scanned & Hbelow & Hreg & _ & Hscan & _ & _ & _ & Hlk & Hfinal & _ & _ & _).
  exists scanned. split; [done|]. split; [done|].
  intros o Ho.
  assert (Hlt : o < getNumEquilRegions sim * getNumEquilRegions sim)
    by (destruct Ho as [-> | ->]; by apply offset_lt).
  assert (Hfin : thpres_ st !! o = Some 0%Q).
  { etrans; [eapply applyBarriers_untouched; [|exact Hfinal]|].
    2:{ simpl. by apply lookup_replicate_2. }
    - simpl. intros i rI rO Hi Hb HrI HrO Hbar.
      apply (offsets_of_other_pair _ r1 r2); try done; [by eapply Hbelow..|].
      intros [[-> ->]|[-> ->]]; congruence. }
  assert (Hsc : scanned !! o = Some 0%Q).
  { etrans; [eapply scanFaces_untouched; [|exact Hscan]|].
    2:{ simpl. by apply lookup_replicate_2. }
    - simpl. intros f rI rO Hf HrI HrO _.
      unfold noFaceJoins in Hnone. rewrite forallb_forall in Hnone.
      apply list_elem_of_In, Hnone, negb_true_iff in Hf.
      apply (offsets_of_other_pair _ r1 r2); try done; [by eapply Hbelow..|].
      eapply joinsRegions_false; [done|by apply Hreg..]. }
  split; [done|]. split; [done|].
  intros Hpeers. rewrite Hlk, Hsc, Hfin. simpl. f_equal.
  unfold comm_max. apply allreduce_max_all_equal.
  - by destruct (column o (lowerRanks (comm sim))).
  - unfold peersZeroAt in Hpeers. apply Forall_app in Hpeers as [Hlo Hup].
    apply Forall_app. split; [|apply Forall_cons; split; [done|]];
      unfold column; by apply Forall_fmap.
Qed.

Lemma untouched_pair_left_at_default_witness :
  exists st scanned,
    finishInit (threeCells (noBarriers false)) constructed = Initialized st
    /\ scanFaces (threeCells (noBarriers false))
         (allocated (threeCells (noBarriers false)) (elemEquilRegion_ st)) = Ok scanned
    /\ forall o,
         o = 2 \/ o = 6 ->
         thpres_ st !! o = Some 0%Q
         /\ scanned !! o = Some 0%Q
         /\ (peersZeroAt (threeCells (noBarriers false)) o ->
             thpresDefault_ st !! o = thpres_ st !! o).
Proof.
  apply (untouched_pair_left_at_default (threeCells (noBarriers false)) 0 2);
    solve [reflexivity | simpl; lia].
Defined.

(** ** The default estimator *)

(** C2: in an initialisation that is not a restart, let [f] be a face
    that the scan of [computeDefaultThresholdPressures_] visits, between
    two cells of different regions, and [d] the default matrix when the
    scan reaches it.  The scan leaves [d] as it is when
    [|area * transmissibility| < 1e-18], the product and the literal being
    those of the machine; otherwise it replaces each of the two entries of
    the region pair by the maximum of its old value and the candidate of
    the face, and changes no other entry.  The candidate is the maximum,
    over the phases with strictly positive upstream mobility, of the
    absolute pressure difference (zero when no phase has positive
    mobility); the other phases do not enter it.  The scan goes on from
    the matrix so obtained, and the default matrix of the object is the
    maximum over the ranks of what the scan leaves. *)
Theorem default_estimator_at_face (sim : Simulator) (st : EclThresholdPressure)
    (before after : list StencilFace) (f : StencilFace) (rI rO : nat) :
  useThresholdPressure sim = true ->
  restart (getThresholdPressureConfig sim) = false ->
  finishInit sim constructed = Initialized st ->
  visitedFaces sim = before ++ f :: after ->
  elemEquilRegion_ st !! interiorElemIdx f = Some rI ->
  elemEquilRegion_ st !! exteriorElemIdx f = Some rO ->
  rI <> rO ->
  exists d d' scanned,
    forEach (defaultFaceStep (allocated sim (elemEquilRegion_ st))) before
      (replicate (getNumEquilRegions sim * getNumEquilRegions sim) 0%Q) = Ok d
    /\ defaultFaceStep (allocated sim (elemEquilRegion_ st)) d f = Ok d'
    /\ forEach (defaultFaceStep (allocated sim (elemEquilRegion_ st))) after d' = Ok scanned
    /\ scanFaces sim (allocated sim (elemEquilRegion_ st)) = Ok scanned
    /\ computeDefaultThresholdPressures_ sim (allocated sim (elemEquilRegion_ st))
       = Ok (set_thpresDefault (thpresDefault_ st) (allocated sim (elemEquilRegion_ st)))
    /\ (forall i, thpresDefault_ st !! i = comm_max (comm sim) i <$> scanned !! i)
    /\ ((std_abs (double_mul (area f) (transmissibility f)) < negligibleFlow)%Q -> d' = d)
    /\ (~ (std_abs (double_mul (area f) (transmissibility f)) < negligibleFlow)%Q ->
          exists old1 old2,
            d !! (rI * getNumEquilRegions sim + rO) = Some old1
            /\ d !! (rO * getNumEquilRegions sim + rI) = Some old2
            /\ d' !! (rI * getNumEquilRegions sim + rO)
               = Some (std_max old1 (faceThreshold (phases f)))
            /\ d' !! (rO * getNumEquilRegions sim + rI)
               = Some (std_max old2 (faceThreshold (phases f)))
            /\ forall o, o <> rI * getNumEquilRegions sim + rO ->
                         o <> rO * getNumEquilRegions sim + rI -> d' !! o = d !! o)
    /\ (forall ph, ph ∈ phases f -> (0 < mobility ph)%Q ->
          (std_abs (pressureDifference ph) <= faceThreshold (phases f))%Q)
    /\ ((faceThreshold (phases f) = 0%Q
         /\ forall ph, ph ∈ phases f -> ~ (0 < mobility ph)%Q)
        \/ exists ph, ph ∈ phases f /\ (0 < mobility ph)%Q
                      /\ (faceThreshold (phases f) == std_abs (pressureDifference ph))%Q)
    /\ faceThreshold (phases f)
       = faceThreshold (List.filter (fun ph => scalar_lt 0%Q (mobility ph)) (phases f)).
Proof.
  intros Huse Hrestart Hinit Hvisit HrI HrO Hne.
  destruct (finishInit_enabled sim st Huse Hinit) as (_ & _ & regs & _ & _ & Hrun).
  rewrite Hrestart in Hrun. destruct Hrun as (st6 & Hdefault & Hexplicit).
  destruct (computeDefault_Ok _ _ _ Hdefault) as (scanned & reduced & Hscan & _ & _ & Hlk & ->).
  apply applyExplicit_Ok in Hexplicit as (_ & _ & _ & Hd6 & _ & Hregs & _); [|done..].
  simpl in Hd6, Hregs. subst regs reduced.
  pose proof Hscan as Hrun. rewrite scanFaces_flat, Hvisit, forEach_app in Hrun.
  apply bind_Ok in Hrun as (d & Hd & Hrun). simpl in Hd, Hrun.
  apply bind_Ok in Hrun as (d' & Hstep & Hafter).
  exists d, d', scanned.
  split; [exact Hd|]. split; [exact Hstep|]. split; [exact Hafter|].
  split; [exact Hscan|]. split; [exact Hdefault|]. split; [exact Hlk|].
  assert (length d = getNumEquilRegions sim * getNumEquilRegions sim) as Hlen.
  { revert Hd.
    apply (forEach_invariant
             (fun t => length t = getNumEquilRegions sim * getNumEquilRegions sim)).
    - intros x t t' _ Ht Hx. by rewrite (defaultFaceStep_length _ _ _ _ Hx).
    - apply length_replicate. }
  pose proof Hstep as Hbody. unfold defaultFaceStep in Hbody. simpl in Hbody.
  apply vec_at_Ok in HrI, HrO. rewrite HrI, HrO in Hbody. simpl in Hbody.
  rewrite decide_False in Hbody by done.
  split; [|split; [|split; [apply faceThreshold_is_max
                           |split; [apply faceThreshold_is_max|apply faceThreshold_filter]]]].
  - intros Hneg. apply scalar_lt_spec in Hneg. rewrite Hneg in Hbody. congruence.
  - intros Hneg.
    destruct (scalar_lt _ negligibleFlow) eqn:E;
      [apply scalar_lt_spec in E; done|].
    apply bind_Ok in Hbody as (old1 & Hold1 & Hbody).
    apply bind_Ok in Hbody as (d1 & Hd1 & Hbody).
    apply bind_Ok in Hbody as (old2 & Hold2 & Hbody).
    apply vec_at_Ok in Hold1, Hold2.
    apply vec_set_Ok in Hd1 as [Hlt1 ->]. apply vec_set_Ok in Hbody as [Hlt2 ->].
    rewrite length_insert in Hlt2. rewrite Hlen in Hlt1, Hlt2.
    assert (rI * getNumEquilRegions sim + rO <> rO * getNumEquilRegions sim + rI) as Hoff.
    { intros Heq. apply Hne. nia. }
    rewrite list_lookup_insert_ne in Hold2 by done.
    exists old1, old2. split; [done|]. split; [done|]. split; [|split].
    + rewrite list_lookup_insert_ne by done. apply list_lookup_insert_eq. by rewrite Hlen.
    + apply list_lookup_insert_eq. by rewrite length_insert, Hlen.
    + intros o Ho1 Ho2. by rewrite !list_lookup_insert_ne.
Qed.

Lemma default_estimator_at_face_witness :
  exists st d',
    finishInit (twoCells (allBarriers None)) constructed = Initialized st
    /\ defaultFaceStep (allocated (twoCells (allBarriers None)) (elemEquilRegion_ st))
         [0; 0; 0; 0]%Q twoCellFace = Ok d'
    /\ d' !! 1 = Some 250000%Q /\ d' !! 2 = Some 250000%Q
    /\ thpresDefault_ st = [0; 250000; 250000; 0]%Q.
Proof.
  eexists.
  destruct (default_estimator_at_face (twoCells (allBarriers None)) _ [] [] twoCellFace 0 1
              eq_refl eq_refl eq_refl eq_refl eq_refl eq_refl ltac:(lia))
    as (d & d' & scanned & Hd & Hstep & _ & _ & _ & _ & _ & Hupd & _).
  injection Hd as <-.
  destruct Hupd as (old1 & old2 & H1 & H2 & Hd1 & Hd2 & _).
  { intros Hneg. apply scalar_lt_spec in Hneg. discriminate Hneg. }
  injection H1 as <-. injection H2 as <-.
  exists d'. split; [reflexivity|]. split; [exact Hstep|].
  split; [exact Hd1|]. split; [exact Hd2|reflexivity].
Defined.

(** The scenario of one face between region 0 and region 1, with one
    flowing phase of pressure difference 2.5e5 and product 1e-3: both
    entries of the default matrix are 2.5e5. *)
Example default_estimator_scenario :
  scanFaces (twoCells (allBarriers None)) (allocated (twoCells (allBarriers None)) [0; 1])
  = Ok [0; 250000; 250000; 0]%Q.
Proof. reflexivity. Qed.

(** Rounding to a double: the nearest double of a third; of two doubles
    that are equally near the one with the even last bit, above [2 ^ 53]
    and among the smallest numbers, where the doubles are the multiples of
    [2 ^ -1074]; a double is left as it is, and the sign is kept. *)
Example roundDouble_nearest_even :
  (roundDouble (1 # 3) == 6004799503160661 # 18014398509481984)%Q
  /\ (roundDouble (inject_Z (2 ^ 53 + 1)) == inject_Z (2 ^ 53))%Q
  /\ (roundDouble (inject_Z (2 ^ 53 + 3)) == inject_Z (2 ^ 53 + 4))%Q
  /\ (roundDouble (1 # Z.to_pos (2 ^ 1075)) == 0)%Q
  /\ (roundDouble (3 # Z.to_pos (2 ^ 1075)) == 2 # Z.to_pos (2 ^ 1074))%Q
  /\ (roundDouble (5 # Z.to_pos (2 ^ 1076)) == 1 # Z.to_pos (2 ^ 1074))%Q
  /\ (roundDouble (- (1 # 3)) == - (6004799503160661 # 18014398509481984))%Q
  /\ (roundDouble negligibleFlow == negligibleFlow)%Q
  /\ (negligibleFlow == 1298074214633707 # Z.to_pos (2 ^ 110))%Q
  /\ (double_mul 1 (1 # 1000) == 1152921504606847 # Z.to_pos (2 ^ 60))%Q.
Proof. repeat split; vm_compute; reflexivity. Qed.

(** The product of the two doubles is rounded before it is compared: for
    the area [0x1.c1bfcad712a2ap-65] and the transmissibility 21 the exact
    product lies below [10 ^ -18] and below the double [1e-18], the
    rounded product is the double [1e-18] itself, and the face counts. *)
Example default_estimator_rounds_the_product :
  (area boundaryFace * transmissibility boundaryFace < 1 # 1000000000000000000)%Q
  /\ (area boundaryFace * transmissibility boundaryFace < negligibleFlow)%Q
  /\ (double_mul (area boundaryFace) (transmissibility boundaryFace) == negligibleFlow)%Q
  /\ defaultFaceStep (allocated (twoCells (allBarriers None)) [0; 1]) [0; 0; 0; 0]%Q
       boundaryFace
     = Ok [0; 7; 7; 0]%Q.
Proof. repeat split. Qed.

(** A face whose product of area and transmissibility is below 1e-18 is
    skipped. *)
Example default_estimator_negligible :
  defaultFaceStep (allocated (twoCells (allBarriers None)) [0; 1]) [0; 0; 0; 0]%Q
    {| interiorElemIdx := 0; exteriorElemIdx := 1; area := 1%Q;
       transmissibility := (1 # 10000000000000000000)%Q;
       phases := [ {| mobility := 1%Q; pressureDifference := 7%Q |} ] |}
  = Ok [0; 0; 0; 0]%Q.
Proof. reflexivity. Qed.

(** ** The reduction over the ranks *)

(** C6: let the ranks of a run each have scanned their faces, [locals]
    being the matrices they accumulated.  Then on every rank
    [computeDefaultThresholdPressures_] returns, and its [thpresDefault_]
    is the same matrix on all ranks: every entry is the maximum, over the
    ranks, of the entries they accumulated (it is the entry of some rank
    and no rank has a larger one). *)
Theorem default_matrix_is_collective_maximum
    (world : list (Simulator * EclThresholdPressure)) (locals : list (list Scalar)) (n : nat) :
  Forall2 (fun w l => scanFaces w.1 w.2 = Ok l /\ length l = n) world locals ->
  (forall p w, world !! p = Some w -> comm w.1 = commOfRank locals p) ->
  forall p w, world !! p = Some w ->
    exists st',
      computeDefaultThresholdPressures_ w.1 w.2 = Ok st'
      /\ thpresDefault_ st' = collectiveMatrix n locals
      /\ forall i, i < n ->
           exists g,
             thpresDefault_ st' !! i = Some g
             /\ (exists q l, locals !! q = Some l /\ l !! i = Some g)
             /\ (forall q l x, locals !! q = Some l -> l !! i = Some x -> (x <= g)%Q).
Proof.
  intros Hscan Hcomm p w Hw.
  destruct (Forall2_lookup_l _ _ _ p w Hscan Hw) as (l & Hl & Hscanp & Hlen).
  assert (Hall : forall q l', locals !! q = Some l' -> length l' = n).
  { intros q l' Hq.
    destruct (Forall2_lookup_r _ _ _ q l' Hscan Hq) as (w' & _ & _ & ?). done. }
  destruct (reduceDefaults_spec (comm w.1) l) as (reduced & Hred & Hlr & Hlk).
  exists (set_thpresDefault reduced w.2).
  assert (Heq : reduced = collectiveMatrix n locals).
  { apply list_eq. intros i. rewrite Hlk, collectiveMatrix_lookup.
    destruct (decide (i < n)) as [Hi|Hi].
    - destruct (lookup_lt_is_Some_2 l i) as [x Hx]; [lia|].
      rewrite Hx. simpl. f_equal.
      rewrite (Hcomm p w Hw). unfold comm_max, commOfRank. simpl.
      by rewrite (column_of_run locals p i l x).
    - by rewrite lookup_ge_None_2 by lia. }
  split; [|split].
  - unfold computeDefaultThresholdPressures_. rewrite Hscanp. simpl. by rewrite Hred.
  - done.
  - intros i Hi. simpl. rewrite Heq, collectiveMatrix_lookup, decide_True by done.
    exists (allreduce_max (column i locals)). split; [done|].
    assert (Hne : column i locals <> []).
    { unfold column. destruct locals; [by rewrite lookup_nil in Hl | done]. }
    destruct (allreduce_max_is_max (column i locals) Hne) as [Hin Hmax].
    split.
    + unfold column in Hin. apply list_elem_of_In, in_map_iff in Hin as (l' & Hg & Hl').
      apply list_elem_of_In, list_elem_of_lookup in Hl' as (q & Hq).
      exists q, l'. split; [done|].
      destruct (lookup_lt_is_Some_2 l' i) as [x Hx]; [rewrite (Hall q l' Hq); lia|].
      rewrite Hx in Hg |- *. simpl in Hg. unfold column. by rewrite Hg.
    + intros q l' x Hq Hx. apply Hmax.
      unfold column. apply list_elem_of_In, in_map_iff. exists l'.
      split; [by rewrite Hx|]. apply list_elem_of_In, list_elem_of_lookup. eauto.
Qed.

Lemma default_matrix_is_collective_maximum_witness :
  (exists st',
     computeDefaultThresholdPressures_ (inRun twoRankLocals 0 rankX) (allocated rankX [0; 1])
     = Ok st'
     /\ thpresDefault_ st' = [0; 5; 5; 0]%Q)
  /\ (exists st',
        computeDefaultThresholdPressures_ (inRun twoRankLocals 1 rankY) (allocated rankY [0; 1])
        = Ok st'
        /\ thpresDefault_ st' = [0; 5; 5; 0]%Q).
Proof.
  assert (Hscan : Forall2 (fun w l => scanFaces w.1 w.2 = Ok l /\ length l = 4)
                    twoRanks twoRankLocals) by (repeat constructor).
  assert (Hcomm : forall p w, twoRanks !! p = Some w -> comm w.1 = commOfRank twoRankLocals p).
  { intros [|[|p]] w Hw; [by injection Hw as <-..|discriminate Hw]. }
  split.
  - destruct (default_matrix_is_collective_maximum twoRanks twoRankLocals 4 Hscan Hcomm
                0 (inRun twoRankLocals 0 rankX, allocated rankX [0; 1]) eq_refl)
      as (st' & Hrun & Hd & _).
    exists st'. split; [exact Hrun | exact Hd].
  - destruct (default_matrix_is_collective_maximum twoRanks twoRankLocals 4 Hscan Hcomm
                1 (inRun twoRankLocals 1 rankY, allocated rankY [0; 1]) eq_refl)
      as (st' & Hrun & Hd & _).
    exists st'. split; [exact Hrun | exact Hd].
Defined.

(** The two ranks accumulate 5 and 3 for the pair of regions 0 and 1; after
    the reduction both hold 5. *)
Example two_ranks_agree :
  (computeDefaultThresholdPressures_ (inRun twoRankLocals 0 rankX) (allocated rankX [0; 1])
   ≫= fun st => Ok (thpresDefault_ st)) = Ok [0; 5; 5; 0]%Q
  /\ (computeDefaultThresholdPressures_ (inRun twoRankLocals 1 rankY) (allocated rankY [0; 1])
      ≫= fun st => Ok (thpresDefault_ st)) = Ok [0; 5; 5; 0]%Q
  /\ scanFaces rankX (allocated rankX [0; 1]) = Ok [0; 5; 5; 0]%Q
  /\ scanFaces rankY (allocated rankY [0; 1]) = Ok [0; 3; 3; 0]%Q.
Proof. repeat split. Qed.

(** ** The query *)

(** C3, as the code has it: after an initialisation that filled the fault
    thresholds, the query resolves a pair of cells by their faults first.
    Two cells of one fault give 0, whatever their regions; two cells with
    different fault indices give the maximum of two values, 0 for a cell
    outside all faults (the cells of a fault that no record names are
    among them) and, for a cell of a fault, the value stored for the
    fault, which is the value of a THPRESFT record as the record gives it,
    negative or not; two cells outside all faults are resolved by their
    regions. *)
Theorem fault_first_resolution (sim : Simulator) (st : EclThresholdPressure)
    (a b : nat) (fault1Idx fault2Idx : Z) :
  finishInit sim constructed = Initialized st ->
  enableExperiments sim = true ->
  thpresftValues_ st <> [] ->
  (0 <= cartesianIndex sim a < Z.of_nat (cartesianSize sim))%Z ->
  (0 <= cartesianIndex sim b < Z.of_nat (cartesianSize sim))%Z ->
  cartElemFaultIdx_ st !! Z.to_nat (cartesianIndex sim a) = Some fault1Idx ->
  cartElemFaultIdx_ st !! Z.to_nat (cartesianIndex sim b) = Some fault2Idx ->
  (fault1Idx <> (-1)%Z -> fault1Idx = fault2Idx ->
     thresholdPressure sim st a b = Ok 0%Q)
  /\ (fault1Idx <> fault2Idx ->
        exists kw val1 val2,
          thpresftKeyword sim = Some kw
          /\ ((fault1Idx = (-1)%Z /\ val1 = 0%Q)
              \/ ((0 <= fault1Idx)%Z
                  /\ thpresftValues_ st !! Z.to_nat fault1Idx = Some val1
                  /\ exists r, r ∈ kw /\ thpresValue r = val1))
          /\ ((fault2Idx = (-1)%Z /\ val2 = 0%Q)
              \/ ((0 <= fault2Idx)%Z
                  /\ thpresftValues_ st !! Z.to_nat fault2Idx = Some val2
                  /\ exists r, r ∈ kw /\ thpresValue r = val2))
          /\ thresholdPressure sim st a b = Ok (std_max val1 val2))
  /\ (fault1Idx = (-1)%Z -> fault2Idx = (-1)%Z ->
        thresholdPressure sim st a b = regionThresholdPressure st a b).
Proof.
  intros Hinit Hexp Hpop Hca Hcb Hf1 Hf2.
  assert (enableThresholdPressure_ st = true
          /\ length (cartElemFaultIdx_ st) = cartesianSize sim
          /\ exists kw,
               thpresftKeyword sim = Some kw
               /\ faultIndexOk (fun v => exists r, r ∈ kw /\ thpresValue r = v)
                    (thpresftValues_ st) (cartElemFaultIdx_ st))
    as (Hen & Hli & kw & Hkw & Hok).
  { destruct (finishInit_cases sim st Hinit)
      as [[Huse Hoff]|[(_ & _ & regs & _ & _ & ->)|[Huse Hrestart]]]; [|done|].
    - exfalso. unfold finishInit in Hinit.
      destruct (bool_decide (numGridDof sim = numElements sim)); [|done].
      simpl in Hinit. rewrite Huse in Hinit. simpl in Hinit.
      injection Hinit as <-. done.
    - destruct (construction_faults sim st Huse Hrestart Hinit)
        as (Hen & [[? _]|(_ & kw & Hkw & _ & Hli & Hok)]); [done|].
      split; [done|]. split; [done|]. exists kw. split; [done|].
      apply Hok, Forall_forall. intros r Hr. by exists r. }
  assert (Hhead : forall r,
             (if bool_decide (fault1Idx <> (-1)%Z) && bool_decide (fault1Idx = fault2Idx)
              then Ok 0%Q
              else if bool_decide (fault1Idx <> fault2Idx)
                   then val1 ← faultValue st fault1Idx;
                        val2 ← faultValue st fault2Idx;
                        Ok (std_max val1 val2)
                   else regionThresholdPressure st a b) = r ->
             thresholdPressure sim st a b = r).
  { intros r <-. unfold thresholdPressure. rewrite Hen, Hexp. simpl.
    rewrite bool_decide_eq_false_2 by done. simpl.
    unfold assertCartIdx. rewrite Hli, !decide_True by lia. simpl.
    unfold vec_at_int. rewrite !decide_True by lia.
    apply vec_at_Ok in Hf1, Hf2. by rewrite Hf1, Hf2. }
  split; [|split].
  - intros Hne Heq. apply Hhead.
    rewrite (bool_decide_eq_true_2 (fault1Idx <> (-1)%Z)) by done.
    by rewrite (bool_decide_eq_true_2 (fault1Idx = fault2Idx)).
  - intros Hne.
    destruct (faultValue_succeeds _ st _ fault1Idx Hok Hf1) as (val1 & Hval1 & Hcase1).
    destruct (faultValue_succeeds _ st _ fault2Idx Hok Hf2) as (val2 & Hval2 & Hcase2).
    exists kw, val1, val2. split; [done|]. split; [done|]. split; [done|].
    apply Hhead.
    rewrite (bool_decide_eq_false_2 (fault1Idx = fault2Idx)) by done.
    rewrite andb_false_r, bool_decide_eq_true_2 by done.
    by rewrite Hval1, Hval2.
  - intros -> ->. apply Hhead.
    rewrite (bool_decide_eq_false_2 ((-1)%Z <> (-1)%Z)) by tauto. done.
Qed.

Example faultedCells_initialized :
  finishInit faultedCells constructed = Initialized faultedState.
Proof. reflexivity. Qed.

Lemma fault_first_resolution_witness :
  exists kw val1 val2,
    thpresftKeyword faultedCells = Some kw
    /\ ((0%Z = (-1)%Z /\ val1 = 0%Q)
        \/ ((0 <= 0)%Z
            /\ thpresftValues_ faultedState !! Z.to_nat 0 = Some val1
            /\ exists r, r ∈ kw /\ thpresValue r = val1))
    /\ ((1%Z = (-1)%Z /\ val2 = 0%Q)
        \/ ((0 <= 1)%Z
            /\ thpresftValues_ faultedState !! Z.to_nat 1 = Some val2
            /\ exists r, r ∈ kw /\ thpresValue r = val2))
    /\ thresholdPressure faultedCells faultedState 0 2 = Ok (std_max val1 val2).
Proof.
  apply (fault_first_resolution faultedCells faultedState 0 2 0 1);
    [reflexivity | reflexivity | discriminate | simpl; lia | simpl; lia
     | reflexivity | reflexivity | discriminate].
Defined.

(** The claim reads an unset value as 0, and the data model of the
    specification calls a negative value unset.  The code returns the
    values of the records as they are: across the faults F1 and F2 with
    the values -5 and -3 the query answers -3, where the claim has the
    maximum of 0 and 0. *)
Lemma negative_fault_value_is_returned :
  exists st,
    finishInit (faultedRun (-5)%Q (-3)%Q) constructed = Initialized st
    /\ cartElemFaultIdx_ st !! 0 = Some 0%Z
    /\ cartElemFaultIdx_ st !! 2 = Some 1%Z
    /\ faultValueOrZero st 0 = 0%Q
    /\ faultValueOrZero st 1 = 0%Q
    /\ thresholdPressure (faultedRun (-5)%Q (-3)%Q) st 0 2 = Ok (-3)%Q
    /\ thresholdPressure (faultedRun (-5)%Q (-3)%Q) st 0 2
       <> Ok (std_max (faultValueOrZero st 0) (faultValueOrZero st 1)).
Proof. eexists. repeat split. discriminate. Qed.

(** The answers of the query on the faulted grid: inside the fault F1
    (cells 0 and 1, of different regions); across F1 and F2; from F1 to a
    cell in no fault; from F1 to the cell of the unset fault F3; between
    two cells outside all faults, by their regions. *)
Example fault_first_answers :
  thresholdPressure faultedCells faultedState 0 1 = Ok 0%Q
  /\ thresholdPressure faultedCells faultedState 0 2 = Ok 7%Q
  /\ thresholdPressure faultedCells faultedState 1 3 = Ok 3%Q
  /\ thresholdPressure faultedCells faultedState 0 4 = Ok 3%Q
  /\ thresholdPressure faultedCells faultedState 3 4 = Ok 5%Q.
Proof. repeat split. Qed.



(** C8, as the code has it: after [finishInit] on a fresh object, in an
    environment where every cell has an EQLNUM value in range and a
    cartesian index in the cartesian grid, the query returns a value for
    every pair of cells of the grid: when the run is not a restart, and
    after [setFromRestart] with a matrix of the size of the region
    matrix. *)
Theorem thresholdPressure_cannot_fail (sim : Simulator) (st : EclThresholdPressure) :
  eqlnumInRange sim = true ->
  cartesianInRange sim = true ->
  finishInit sim constructed = Initialized st ->
  (restart (getThresholdPressureConfig sim) = false ->
     forall a b, a < numElements sim -> b < numElements sim ->
       exists v, thresholdPressure sim st a b = Ok v)
  /\ (forall M,
        length M = getNumEquilRegions sim * getNumEquilRegions sim ->
        forall a b, a < numElements sim -> b < numElements sim ->
          exists v, thresholdPressure sim (setFromRestart M st) a b = Ok v).
Proof.
  intros Heql Hcart Hinit.
  assert (Hc : forall a, a < numElements sim ->
                 (0 <= cartesianIndex sim a < Z.of_nat (cartesianSize sim))%Z).
  { intros a Ha. unfold cartesianInRange in Hcart. rewrite forallb_forall in Hcart.
    eapply bool_decide_eq_true_1, Hcart, in_seq. lia. }
  assert (Hfault : enableThresholdPressure_ st = true ->
             thpresftValues_ st = []
             \/ (length (cartElemFaultIdx_ st) = cartesianSize sim
                 /\ faultIndexOk (fun _ => True) (thpresftValues_ st) (cartElemFaultIdx_ st))).
  { intros Hen.
    destruct (finishInit_cases sim st Hinit)
      as [[_ Hoff]|[(_ & _ & regs & _ & _ & ->)|[Huse Hrestart]]];
      [congruence|by left|].
    destruct (construction_faults sim st Huse Hrestart Hinit)
      as (_ & [[? _]|(_ & kw & _ & _ & Hli & Hok)]); [by left|].
    right. split; [done|]. apply Hok. by apply Forall_true. }
  split.
  - intros Hrestart a b Ha Hb.
    apply query_succeeds; [|done|done|by apply Hc..].
    intros Hen.
    destruct (finishInit_symmetric sim st Heql Hinit Hen) as (Hn & Hlen & Hbelow & _ & Hlt).
    rewrite Hn. repeat split; [done|done|by apply Hlt|by apply Hfault].
  - intros M HM a b Ha Hb.
    apply query_succeeds; [|done|done|by apply Hc..].
    intros Hen. simpl in Hen |- *.
    destruct (finishInit_symmetric sim st Heql Hinit Hen) as (Hn & Hlen & Hbelow & _ & _).
    rewrite Hn. repeat split; [done|done|done|by apply Hfault].
Qed.

Lemma thresholdPressure_cannot_fail_witness :
  (forall a b, a < 5 -> b < 5 ->
     exists v, thresholdPressure faultedCells faultedState a b = Ok v)
  /\ (forall a b, a < 2 -> b < 2 ->
        exists v,
          thresholdPressure (twoCells (noBarriers true))
            (setFromRestart [0; 7; 7; 0]%Q
               (awaitingRestart (twoCells (noBarriers true)) [0; 1])) a b = Ok v).
Proof.
  split.
  - apply (thresholdPressure_cannot_fail faultedCells faultedState); reflexivity.
  - apply (proj2 (thresholdPressure_cannot_fail (twoCells (noBarriers true))
                    (awaitingRestart (twoCells (noBarriers true)) [0; 1])
                    eq_refl eq_refl eq_refl)). reflexivity.
Defined.

(** Without these conditions the query fails after a completed
    initialisation.  [finishInit] does not compare the EQLNUM values with
    the number of regions: with a cell numbered 3 among two regions the
    query reads the matrix of four entries at the offset 4.  On a restart
    run [finishInit] allocates no matrix and [setFromRestart] takes the
    vector it is given: before it is called, and after it is called with
    two entries, the query reads outside the vector. *)
Lemma query_fails_after_initialisation :
  (exists st,
     finishInit strayRegion constructed = Initialized st
     /\ 1 < numElements strayRegion /\ 0 < numElements strayRegion
     /\ length (thpres_ st) = 4
     /\ thresholdPressure strayRegion st 1 0 = Fault OutOfBounds)
  /\ (exists st,
        finishInit (twoCells (noBarriers true)) constructed = Initialized st
        /\ 1 < numElements (twoCells (noBarriers true))
        /\ thresholdPressure (twoCells (noBarriers true)) st 0 1 = Fault OutOfBounds
        /\ thresholdPressure (twoCells (noBarriers true))
             (setFromRestart [0; 7]%Q st) 1 0 = Fault OutOfBounds).
Proof. split; eexists; repeat split; simpl; lia. Qed.

(** * Outside the hypotheses

    What the model does on inputs that the hypotheses of the theorems
    above exclude. *)

(** [setFromRestart] takes any vector: with a matrix that is not symmetric
    the two orders of a pair of cells differ, and with a vector that is too
    short the query reads outside it. *)
Example restart_with_any_vector :
  let sim := twoCells (noBarriers true) in
  let st := awaitingRestart sim [0; 1] in
  thresholdPressure sim (setFromRestart [0; 1; 2; 0]%Q st) 0 1 = Ok 1%Q
  /\ thresholdPressure sim (setFromRestart [0; 1; 2; 0]%Q st) 1 0 = Ok 2%Q
  /\ thresholdPressure sim (setFromRestart [] st) 0 1 = Fault OutOfBounds.
Proof. repeat split. Qed.

(** [finishInit] does not compare the EQLNUM values with the number of
    regions: a cell numbered 3 among two regions is stored with region 2,
    and the query reads the matrix at an offset that belongs to no pair,
    or outside the matrix. *)
Example eqlnum_beyond_the_regions :
  exists st,
    finishInit strayRegion constructed = Initialized st
    /\ elemEquilRegion_ st = [0; 2]
    /\ thresholdPressure strayRegion st 0 1 = Ok 0%Q
    /\ thresholdPressure strayRegion st 1 0 = Fault OutOfBounds.
Proof. eexists. repeat split. Qed.

(** With explicit values that depend on the order of the two regions, the
    intersection visited last for a pair decides both entries. *)
Example ordered_values_last_face_wins :
  exists st,
    finishInit (twoCells orderedValues) constructed = Initialized st
    /\ thpres_ st = [0; 7; 7; 0]%Q.
Proof. eexists. repeat split. Qed.

(** * Further properties of the class *)

(** ** The feature switched off *)

(** X1: when the deck does not use threshold pressures, [finishInit]
    returns at once, whatever the number of regions and the EQLNUM data
    are: nothing is allocated, and from then on the query answers 0 for
    every two indices, cells of the grid or not. *)
Theorem disabled_feature_answers_zero (sim : Simulator) :
  useThresholdPressure sim = false ->
  numGridDof sim = numElements sim ->
  exists st,
    finishInit sim constructed = Initialized st
    /\ data st = [] /\ thpresDefault_ st = [] /\ elemEquilRegion_ st = []
    /\ forall a b, thresholdPressure sim st a b = Ok 0%Q.
Proof.
  intros Huse Hdof. exists (set_enableThresholdPressure false constructed).
  split; [|by repeat split].
  unfold finishInit. rewrite bool_decide_eq_true_2 by done. simpl.
  by rewrite Huse.
Qed.

Lemma disabled_feature_answers_zero_witness :
  exists st,
    finishInit withoutThresholdPressure constructed = Initialized st
    /\ data st = [] /\ thpresDefault_ st = [] /\ elemEquilRegion_ st = []
    /\ forall a b, thresholdPressure withoutThresholdPressure st a b = Ok 0%Q.
Proof.
  apply (disabled_feature_answers_zero withoutThresholdPressure); reflexivity.
Defined.

(** ** Cells of one region *)

(** X2: after [finishInit], when no fault thresholds are in use, two cells
    with the same stored region (the same EQLNUM value) get the answer 0,
    and they still do after [setFromRestart] with any vector: the matrix is
    not read for them. *)
Theorem same_region_answers_zero (sim : Simulator) (st : EclThresholdPressure) (a b : nat) :
  finishInit sim constructed = Initialized st ->
  enableExperiments sim = false \/ thpresftKeyword sim = None ->
  a < numElements sim -> b < numElements sim ->
  equilRegionOf sim a = equilRegionOf sim b ->
  thresholdPressure sim st a b = Ok 0%Q
  /\ forall M, thresholdPressure sim (setFromRestart M st) a b = Ok 0%Q.
Proof.
  intros Hinit Hnofault Ha Hb Hsame.
  destruct (finishInit_cases sim st Hinit)
    as [[_ Hoff]|[(Huse & Hrestart & regs & Hregs & Hlen & ->)|[Huse Hrestart]]].
  - split; [|intros M]; unfold thresholdPressure; simpl; by rewrite Hoff.
  - assert (exists r, regs !! a = Some r /\ regs !! b = Some r) as (r & HA & HB).
    { destruct (lookup_lt_is_Some_2 regs a) as [rA HA]; [lia|].
      destruct (lookup_lt_is_Some_2 regs b) as [rB HB]; [lia|].
      pose proof (internalized_equilRegionOf sim (replicate (numElements sim) 0) regs a rA
                    ltac:(by rewrite length_replicate) Hregs HA) as EA.
      pose proof (internalized_equilRegionOf sim (replicate (numElements sim) 0) regs b rB
                    ltac:(by rewrite length_replicate) Hregs HB) as EB.
      exists rA. split; [done|]. congruence. }
    split; [|intros M]; unfold thresholdPressure, regionThresholdPressure; simpl;
      rewrite andb_false_r; apply vec_at_Ok in HA, HB; rewrite HA, HB; simpl;
      by rewrite decide_True.
  - destruct (finishInit_construction sim st Huse Hrestart Hinit)
      as (_ & regs & scanned & Hregs & Hlen & _ & _ & _ & _ & _ & He & Hen & Hfault).
    assert (Hvals : thpresftValues_ st = []).
    { destruct Hfault as [[? _]|(Hexp & kw & Hkw & _)]; [done|].
      destruct Hnofault; congruence. }
    assert (exists r, regs !! a = Some r /\ regs !! b = Some r) as (r & HA & HB).
    { destruct (lookup_lt_is_Some_2 regs a) as [rA HA]; [lia|].
      destruct (lookup_lt_is_Some_2 regs b) as [rB HB]; [lia|].
      pose proof (internalized_equilRegionOf sim (replicate (numElements sim) 0) regs a rA
                    ltac:(by rewrite length_replicate) Hregs HA) as EA.
      pose proof (internalized_equilRegionOf sim (replicate (numElements sim) 0) regs b rB
                    ltac:(by rewrite length_replicate) Hregs HB) as EB.
      exists rA. split; [done|]. congruence. }
    split; [|intros M]; unfold thresholdPressure, regionThresholdPressure; simpl;
      rewrite Hen, Hvals, He; simpl; rewrite andb_false_r;
      apply vec_at_Ok in HA, HB; rewrite HA, HB; simpl; by rewrite decide_True.
Qed.

Lemma same_region_answers_zero_witness :
  exists st,
    finishInit oneRegionPair constructed = Initialized st
    /\ data st = [0; 0; 0; 5]%Q
    /\ thresholdPressure oneRegionPair st 0 1 = Ok 0%Q
    /\ forall M, thresholdPressure oneRegionPair (setFromRestart M st) 0 1 = Ok 0%Q.
Proof.
  eexists. split; [reflexivity|]. split; [reflexivity|].
  apply (same_region_answers_zero oneRegionPair);
    [reflexivity | by left | simpl; lia | simpl; lia | reflexivity].
Defined.

(** ** Pairs of regions without a barrier *)

(** X3: a pair of regions for which no barrier is declared, in either
    order, has the threshold 0 in the final matrix, whatever faces join the
    two regions and whatever default was estimated for them: the default
    matrix is only ever copied for pairs with a barrier. *)
Theorem no_barrier_no_threshold (sim : Simulator) (r1 r2 : nat) :
  useThresholdPressure sim = true ->
  restart (getThresholdPressureConfig sim) = false ->
  wellFormed sim = true ->
  getNumEquilRegions sim <= 255 ->
  r1 < getNumEquilRegions sim -> r2 < getNumEquilRegions sim ->
  hasRegionBarrier (getThresholdPressureConfig sim) (r1 + 1) (r2 + 1) = false ->
  hasRegionBarrier (getThresholdPressureConfig sim) (r2 + 1) (r1 + 1) = false ->
  exists st,
    finishInit sim constructed = Initialized st
    /\ data st !! (r1 * getNumEquilRegions sim + r2) = Some 0%Q
    /\ data st !! (r2 * getNumEquilRegions sim + r1) = Some 0%Q.
Proof.
  intros Huse Hrestart Hwf HR H1 H2 Hb12 Hb21.
  destruct (finishInit_succeeds sim Hwf HR) as (st & Hinit). exists st. split; [done|].
  apply wellFormed_parts in Hwf as (_ & Heql & _ & _).
  destruct (construction_trace sim st Huse Hrestart Heql Hinit)
    as (scanned & Hbelow & _ & _ & _ & _ & _ & _ & _ & Hfinal & _ & _ & _).
  assert (Hzero : forall o,
             o = r1 * getNumEquilRegions sim + r2 \/ o = r2 * getNumEquilRegions sim + r1 ->
             thpres_ st !! o = Some 0%Q).
  { intros o Ho.
    etrans; [eapply applyBarriers_untouched; [|exact Hfinal]|].
    2:{ simpl. apply lookup_replicate_2. destruct Ho as [-> | ->]; by apply offset_lt. }
    simpl. intros i rI rO Hi Hb HrI HrO Hbar.
    apply (offsets_of_other_pair _ r1 r2); try done; [by eapply Hbelow..|].
    intros [[-> ->]|[-> ->]]; congruence. }
  unfold data. split; apply Hzero; tauto.
Qed.

Lemma no_barrier_no_threshold_witness :
  exists st,
    finishInit (twoCells (noBarriers false)) constructed = Initialized st
    /\ thpresDefault_ st = [0; 250000; 250000; 0]%Q
    /\ data st !! 1 = Some 0%Q /\ data st !! 2 = Some 0%Q.
Proof.
  destruct (no_barrier_no_threshold (twoCells (noBarriers false)) 0 1)
    as (st & Hinit & H1 & H2); try reflexivity; try (simpl; lia).
  exists st. split; [exact Hinit|]. split; [|split; [exact H1 | exact H2]].
  vm_compute in Hinit. injection Hinit as <-. reflexivity.
Defined.

(** ** Restart from the persisted matrix *)

(** X4: a run without fault thresholds that is restarted from the matrix
    [data()] of its own construction gives, for every two cells, the answer
    of the constructed object. *)
Theorem restart_round_trip (sim : Simulator) (st : EclThresholdPressure) :
  useThresholdPressure sim = true ->
  restart (getThresholdPressureConfig sim) = false ->
  finishInit sim constructed = Initialized st ->
  thpresftValues_ st = [] ->
  exists st0,
    finishInit (asRestartRun sim) constructed = Initialized st0
    /\ forall a b,
         thresholdPressure (asRestartRun sim) (setFromRestart (data st) st0) a b
         = thresholdPressure sim st a b.
Proof.
  intros Huse Hrestart Hinit Hvals.
  destruct (finishInit_construction sim st Huse Hrestart Hinit)
    as (HR & regs & scanned & Hregs & Hlen & _ & _ & _ & _ & Hn & He & Hen & _).
  exists (awaitingRestart sim regs). split.
  - unfold finishInit. simpl.
    destruct (finishInit_enabled sim st Huse Hinit) as (Hdof & _ & _).
    rewrite bool_decide_eq_true_2 by done. simpl. rewrite Huse. simpl.
    rewrite decide_False by lia. rewrite resize_nil.
    change (internalizeEqlnum (asRestartRun sim)) with (internalizeEqlnum sim).
    by rewrite Hregs.
  - intros a b. unfold thresholdPressure, regionThresholdPressure, data. simpl.
    rewrite Hen, Hvals, He, Hn. simpl. by rewrite !andb_false_r.
Qed.

Lemma restart_round_trip_witness :
  exists st st0,
    finishInit (twoCells (allBarriers (Some 5%Q))) constructed = Initialized st
    /\ finishInit (asRestartRun (twoCells (allBarriers (Some 5%Q)))) constructed
       = Initialized st0
    /\ forall a b,
         thresholdPressure (asRestartRun (twoCells (allBarriers (Some 5%Q))))
           (setFromRestart (data st) st0) a b
         = thresholdPressure (twoCells (allBarriers (Some 5%Q))) st a b.
Proof.
  eexists.
  destruct (restart_round_trip (twoCells (allBarriers (Some 5%Q))) _ eq_refl eq_refl
              eq_refl eq_refl) as (st0 & H0 & Hq).
  exists st0. split; [reflexivity|]. split; [exact H0 | exact Hq].
Defined.

(** With fault thresholds the restarted run answers differently: they are
    not read again, and the cells 0 and 2 of the faulted grid, which lie in
    one region, get 0 instead of 7. *)
Example restart_forgets_fault_thresholds :
  exists st0,
    finishInit (asRestartRun faultedCells) constructed = Initialized st0
    /\ thresholdPressure faultedCells faultedState 0 2 = Ok 7%Q
    /\ thresholdPressure (asRestartRun faultedCells)
         (setFromRestart (data faultedState) st0) 0 2 = Ok 0%Q.
Proof. eexists. repeat split. Qed.

(** ** The matrix handed out by [data] *)

(** X5: after a construction with EQLNUM in range, [data()] and the
    default matrix have one entry for every ordered pair of regions, and
    [data()] is symmetric; so is the default matrix when the matrices of
    the other ranks are. *)
Theorem data_is_symmetric_matrix (sim : Simulator) (st : EclThresholdPressure) :
  useThresholdPressure sim = true ->
  restart (getThresholdPressureConfig sim) = false ->
  eqlnumInRange sim = true ->
  finishInit sim constructed = Initialized st ->
  length (data st) = getNumEquilRegions sim * getNumEquilRegions sim
  /\ symmetricMatrix (getNumEquilRegions sim) (data st)
  /\ length (thpresDefault_ st) = getNumEquilRegions sim * getNumEquilRegions sim
  /\ (peersSymmetric sim -> symmetricMatrix (getNumEquilRegions sim) (thpresDefault_ st)).
Proof.
  intros Huse Hrestart Heql Hinit.
  destruct (construction_trace sim st Huse Hrestart Heql Hinit)
    as (scanned & _ & _ & _ & _ & _ & Hsym & Hld & Hlk & _ & Hlt & Htsym & _).
  unfold data. repeat split; try done.
  intros Hpeers. by apply (reduced_symmetric sim _ scanned).
Qed.

Lemma data_is_symmetric_matrix_witness :
  length (data faultedState) = 4
  /\ symmetricMatrix 2 (data faultedState)
  /\ length (thpresDefault_ faultedState) = 4
  /\ (peersSymmetric faultedCells -> symmetricMatrix 2 (thpresDefault_ faultedState)).
Proof.
  apply (data_is_symmetric_matrix faultedCells faultedState); reflexivity.
Defined.

(** ** The regions of the cells *)

(** X6: after [finishInit] with the feature in use, on a restart run or
    not, there is one stored region per cell: the EQLNUM value at the
    cartesian index of the cell, minus one, as a byte; for the values 1 to
    256 it is the value minus one. *)
Theorem regions_internalized (sim : Simulator) (st : EclThresholdPressure) :
  useThresholdPressure sim = true ->
  finishInit sim constructed = Initialized st ->
  length (elemEquilRegion_ st) = numElements sim
  /\ forall i, i < numElements sim ->
       exists d,
         (0 <= cartesianIndex sim i)%Z
         /\ equilRegionData sim !! Z.to_nat (cartesianIndex sim i) = Some d
         /\ elemEquilRegion_ st !! i = Some (toUnsignedChar (d - 1))
         /\ ((1 <= d <= 256)%Z -> elemEquilRegion_ st !! i = Some (Z.to_nat (d - 1))).
Proof.
  intros Huse Hinit.
  assert (exists regs,
            internalizeEqlnum sim (replicate (numElements sim) 0) = Ok regs
            /\ length regs = numElements sim /\ elemEquilRegion_ st = regs)
    as (regs & Hregs & Hlen & ->).
  { destruct (finishInit_enabled sim st Huse Hinit) as (_ & _ & regs & Hregs & Hlen & H).
    exists regs. split; [done|]. split; [done|].
    destruct (restart (getThresholdPressureConfig sim)) eqn:Hrestart; [by subst|].
    destruct (finishInit_construction sim st Huse Hrestart Hinit)
      as (_ & regs' & _ & Hregs' & _ & _ & _ & _ & _ & _ & He & _).
    congruence. }
  split; [done|]. intros i Hi.
  destruct (internalizeEqlnum_lookup sim _ regs i Hregs Hi) as (d & Hc & Hd & Hr).
  exists d. repeat split; try done.
  intros Hrange. rewrite Hr. f_equal. unfold toUnsignedChar.
  by rewrite Z.mod_small by lia.
Qed.

Lemma regions_internalized_witness :
  length (elemEquilRegion_ faultedState) = 5
  /\ forall i, i < 5 ->
       exists d,
         (0 <= Z.of_nat i)%Z
         /\ [1; 2; 1; 2; 1]%Z !! Z.to_nat (Z.of_nat i) = Some d
         /\ elemEquilRegion_ faultedState !! i = Some (toUnsignedChar (d - 1))
         /\ ((1 <= d <= 256)%Z -> elemEquilRegion_ faultedState !! i = Some (Z.to_nat (d - 1))).
Proof.
  apply (regions_internalized faultedCells faultedState); reflexivity.
Defined.

(** ** Initialisation returns *)

(** X7: in a well-formed environment (every cell has an EQLNUM value in
    range, the cells at the visited faces and intersections are cells of
    the grid, the cells of the faults are cells of the cartesian grid) with
    at most 255 regions, [finishInit] returns: it neither throws nor reads
    or writes outside a vector, on a restart run or not. *)
Theorem finishInit_returns (sim : Simulator) :
  wellFormed sim = true ->
  getNumEquilRegions sim <= 255 ->
  exists st,
    finishInit sim constructed = Initialized st
    /\ enableThresholdPressure_ st = useThresholdPressure sim.
Proof.
  intros Hwf HR. destruct (finishInit_succeeds sim Hwf HR) as (st & Hinit).
  exists st. split; [done|].
  destruct (finishInit_cases sim st Hinit)
    as [[Huse Hoff]|[(Huse & _ & regs & _ & _ & ->)|[Huse Hrestart]]].
  - congruence.
  - by rewrite Huse.
  - destruct (construction_faults sim st Huse Hrestart Hinit) as [Hen _]. congruence.
Qed.

Lemma finishInit_returns_witness :
  exists st,
    finishInit faultedCells constructed = Initialized st
    /\ enableThresholdPressure_ st = true.
Proof.
  apply (finishInit_returns faultedCells); [reflexivity | simpl; lia].
Defined.

(** ** Signs *)

Lemma faceThreshold_nonneg (phs : list PhaseQuantities) : (0 <= faceThreshold phs)%Q.
Proof. by destruct (faceThreshold_fold phs 0%Q) as (H & _). Qed.

Lemma std_max_nonneg_r (a b : Scalar) : (0 <= b)%Q -> (0 <= std_max a b)%Q.
Proof. intros H. pose proof (std_max_ge_r a b). lra. Qed.

Lemma scanFaces_nonnegative (sim : Simulator) (st : EclThresholdPressure)
    (scanned : list Scalar) :
  nonnegativeMatrix (thpresDefault_ st) ->
  scanFaces sim st = Ok scanned -> nonnegativeMatrix scanned.
Proof.
  intros H0. rewrite scanFaces_flat.
  apply (forEach_invariant nonnegativeMatrix); [|done].
  intros f t t' _ Ht Hstep.
  apply defaultFaceStep_Ok in Hstep
    as (rI & rO & _ & _ & [->|(_ & _ & old1 & old2 & _ & _ & ->)]); [done|].
  unfold nonnegativeMatrix.
  apply Forall_insert; [apply Forall_insert; [done|]|];
    apply std_max_nonneg_r, faceThreshold_nonneg.
Qed.

Lemma comm_max_ge (c : Communication) (i : nat) (x : Scalar) : (x <= comm_max c i x)%Q.
Proof.
  unfold comm_max.
  destruct (allreduce_max_is_max (column i (lowerRanks c) ++ x :: column i (upperRanks c)))
    as [_ Hmax].
  - by destruct (column i (lowerRanks c)).
  - apply Hmax. apply elem_of_app. right. by left.
Qed.

Lemma applyBarriers_nonnegative (sim : Simulator) (st : EclThresholdPressure)
    (final : list Scalar) :
  explicitNonnegative (getThresholdPressureConfig sim) ->
  nonnegativeMatrix (thpresDefault_ st) ->
  nonnegativeMatrix (thpres_ st) ->
  applyBarriers sim st = Ok final -> nonnegativeMatrix final.
Proof.
  intros Hexp Hdef H0. rewrite applyBarriers_flat.
  apply (forEach_invariant nonnegativeMatrix); [|done].
  intros i t t' _ Ht Hstep.
  apply explicitIntersectionStep_Ok in Hstep
    as [->|(_ & rI & rO & pth & _ & _ & _ & Hpth & _ & _ & ->)]; [done|].
  assert (0 <= pth)%Q as Hpos.
  { unfold overrideValue in Hpth.
    destruct (hasThresholdPressure _ (rI + 1) (rO + 1)) eqn:Hhas.
    - injection Hpth as <-. by apply Hexp.
    - unfold nonnegativeMatrix in Hdef. rewrite Forall_lookup in Hdef. by eapply Hdef. }
  unfold nonnegativeMatrix. by repeat apply Forall_insert.
Qed.

Lemma construction_default_nonnegative (sim : Simulator) (st : EclThresholdPressure) :
  useThresholdPressure sim = true ->
  restart (getThresholdPressureConfig sim) = false ->
  finishInit sim constructed = Initialized st ->
  nonnegativeMatrix (thpresDefault_ st).
Proof.
  intros Huse Hrestart Hinit.
  destruct (finishInit_construction sim st Huse Hrestart Hinit)
    as (_ & regs & scanned & _ & _ & Hscan & _ & Hlk & _).
  assert (Hsc : nonnegativeMatrix scanned).
  { eapply scanFaces_nonnegative; [|exact Hscan]. apply Forall_replicate. lra. }
  apply Forall_lookup. intros i v Hv. rewrite Hlk in Hv.
  destruct (scanned !! i) as [x|] eqn:Hx; [|done]. injection Hv as <-.
  unfold nonnegativeMatrix in Hsc. rewrite Forall_lookup in Hsc.
  pose proof (Hsc i x Hx). pose proof (comm_max_ge (comm sim) i x). lra.
Qed.

(** X8: after a construction no entry of the default matrix is negative,
    whatever the other ranks contribute; and when no explicitly configured
    value is negative, no entry of [data()] is. *)
Theorem matrices_nonnegative (sim : Simulator) (st : EclThresholdPressure) :
  useThresholdPressure sim = true ->
  restart (getThresholdPressureConfig sim) = false ->
  finishInit sim constructed = Initialized st ->
  nonnegativeMatrix (thpresDefault_ st)
  /\ (explicitNonnegative (getThresholdPressureConfig sim) -> nonnegativeMatrix (data st)).
Proof.
  intros Huse Hrestart Hinit.
  pose proof (construction_default_nonnegative sim st Huse Hrestart Hinit) as Hdef.
  split; [done|]. intros Hexp.
  destruct (finishInit_construction sim st Huse Hrestart Hinit)
    as (_ & regs & scanned & _ & _ & _ & _ & _ & Hfinal & _).
  eapply applyBarriers_nonnegative; [done| | |exact Hfinal]; [done|].
  apply Forall_replicate. lra.
Qed.

Lemma matrices_nonnegative_witness :
  nonnegativeMatrix (thpresDefault_ faultedState)
  /\ (explicitNonnegative (allBarriers (Some 5%Q)) -> nonnegativeMatrix (data faultedState)).
Proof.
  apply (matrices_nonnegative faultedCells faultedState); reflexivity.
Defined.

(** What the query can return: zero, an entry of the matrix, or the larger
    of the values of two faults of the fault index. *)
Lemma thresholdPressure_Ok (sim : Simulator) (st : EclThresholdPressure) (a b : nat)
    (v : Scalar) :
  thresholdPressure sim st a b = Ok v ->
  v = 0%Q
  \/ (exists o, thpres_ st !! o = Some v)
  \/ (exists c1 c2 f1 f2 v1 v2,
        cartElemFaultIdx_ st !! c1 = Some f1 /\ cartElemFaultIdx_ st !! c2 = Some f2
        /\ faultValue st f1 = Ok v1 /\ faultValue st f2 = Ok v2
        /\ v = std_max v1 v2).
Proof.
  assert (Hregion : regionThresholdPressure st a b = Ok v ->
                    v = 0%Q \/ exists o, thpres_ st !! o = Some v).
  { unfold regionThresholdPressure. intros H.
    apply bind_Ok in H as (rA & _ & H). apply bind_Ok in H as (rB & _ & H).
    destruct (decide (rA = rB)); [left; congruence|].
    right. apply vec_at_Ok in H. eauto. }
  unfold thresholdPressure. intros H.
  destruct (negb (enableThresholdPressure_ st)); [left; congruence|].
  destruct (enableExperiments sim && negb (bool_decide (thpresftValues_ st = [])));
    [|destruct (Hregion H); tauto].
  apply bind_Ok in H as (_ & _ & H). apply bind_Ok in H as (_ & _ & H).
  apply bind_Ok in H as (f1 & Hf1 & H). apply bind_Ok in H as (f2 & Hf2 & H).
  unfold vec_at_int in Hf1, Hf2.
  destruct (decide (0 <= cartesianIndex sim a)%Z); [|done].
  destruct (decide (0 <= cartesianIndex sim b)%Z); [|done].
  apply vec_at_Ok in Hf1, Hf2.
  destruct (bool_decide (f1 <> (-1)%Z) && bool_decide (f1 = f2)); [left; congruence|].
  destruct (bool_decide (f1 <> f2)); [|destruct (Hregion H); tauto].
  apply bind_Ok in H as (v1 & Hv1 & H). apply bind_Ok in H as (v2 & Hv2 & H).
  injection H as <-. right. right.
  by exists (Z.to_nat (cartesianIndex sim a)), (Z.to_nat (cartesianIndex sim b)), f1, f2, v1, v2.
Qed.

(** X9: when neither an explicitly configured value nor a value of a
    THPRESFT record is negative, the query never returns a negative
    threshold after [finishInit]. *)
Theorem answers_nonnegative (sim : Simulator) (st : EclThresholdPressure) (a b : nat)
    (v : Scalar) :
  finishInit sim constructed = Initialized st ->
  explicitNonnegative (getThresholdPressureConfig sim) ->
  (forall kw, thpresftKeyword sim = Some kw ->
              Forall (fun r => (0 <= thpresValue r)%Q) kw) ->
  thresholdPressure sim st a b = Ok v ->
  (0 <= v)%Q.
Proof.
  intros Hinit Hexp Hrec Hq.
  destruct (finishInit_cases sim st Hinit)
    as [[_ Hoff]|[(_ & _ & regs & _ & _ & ->)|[Huse Hrestart]]].
  - unfold thresholdPressure in Hq. rewrite Hoff in Hq. injection Hq as <-. lra.
  - destruct (thresholdPressure_Ok _ _ _ _ _ Hq)
      as [->|[(o & Ho)|(c1 & c2 & f1 & f2 & v1 & v2 & Hf1 & _)]]; [lra|done|done].
  - assert (nonnegativeMatrix (data st)) as Hdata.
    { destruct (finishInit_construction sim st Huse Hrestart Hinit)
        as (_ & regs & scanned & _ & _ & _ & _ & _ & Hfinal & _).
      eapply applyBarriers_nonnegative; [done| | |exact Hfinal].
      - exact (construction_default_nonnegative sim st Huse Hrestart Hinit).
      - apply Forall_replicate. lra. }
    unfold nonnegativeMatrix, data in Hdata.
    rewrite Forall_lookup in Hdata.
    destruct (thresholdPressure_Ok _ _ _ _ _ Hq)
      as [->|[(o & Ho)|(c1 & c2 & f1 & f2 & v1 & v2 & Hf1 & Hf2 & Hv1 & Hv2 & ->)]];
      [lra|by eapply Hdata|].
    destruct (construction_faults sim st Huse Hrestart Hinit)
      as (_ & [[_ Hidx]|(_ & kw & Hkw & _ & _ & Hok)]).
    { by rewrite Hidx in Hf1. }
    specialize (Hok (fun x => (0 <= x)%Q) (Hrec kw Hkw)).
    destruct (faultValue_succeeds _ st c2 f2 Hok Hf2) as (v2' & Hv2' & Hcase).
    assert (v2' = v2) as -> by congruence.
    apply std_max_nonneg_r. destruct Hcase as [[_ ->]|(_ & _ & ?)]; [lra|done].
Qed.

Lemma answers_nonnegative_witness :
  thresholdPressure faultedCells faultedState 0 2 = Ok 7%Q /\ (0 <= 7)%Q.
Proof.
  split; [reflexivity|].
  apply (answers_nonnegative faultedCells faultedState 0 2 7%Q); try reflexivity.
  - intros r1 r2 _. simpl. lra.
  - intros kw Hkw. injection Hkw as <-.
    repeat constructor; simpl; by apply Qle_bool_imp_le.
Defined.

(** ** Where the entries of the final matrix come from *)

(** X10: after a construction every entry of [data()] that is not zero was
    written for a visited intersection off the boundary between two
    regions with a declared barrier, at one of the two offsets of that
    pair, and is the explicit value configured for the pair or, without
    one, the entry of the default matrix: nothing else is ever stored. *)
Theorem final_entries_have_a_source (sim : Simulator) (st : EclThresholdPressure)
    (o : nat) (v : Scalar) :
  useThresholdPressure sim = true ->
  restart (getThresholdPressureConfig sim) = false ->
  finishInit sim constructed = Initialized st ->
  data st !! o = Some v ->
  v = 0%Q
  \/ exists i rI rO,
       i ∈ visitedIntersections sim /\ boundary i = false
       /\ elemEquilRegion_ st !! insideElemIdx i = Some rI
       /\ elemEquilRegion_ st !! outsideElemIdx i = Some rO
       /\ hasRegionBarrier (getThresholdPressureConfig sim) (rI + 1) (rO + 1) = true
       /\ (o = rI * getNumEquilRegions sim + rO \/ o = rO * getNumEquilRegions sim + rI)
       /\ if hasThresholdPressure (getThresholdPressureConfig sim) (rI + 1) (rO + 1)
          then v = getThresholdPressure (getThresholdPressureConfig sim) (rI + 1) (rO + 1)
          else thpresDefault_ st !! (rI * getNumEquilRegions sim + rO) = Some v.
Proof.
  intros Huse Hrestart Hinit.
  destruct (finishInit_construction sim st Huse Hrestart Hinit)
    as (_ & regs & scanned & _ & _ & _ & _ & _ & Hfinal & _ & He & _).
  rewrite He. unfold data. revert o v. rewrite applyBarriers_flat in Hfinal. revert Hfinal.
  apply (forEach_invariant
           (fun t : list Scalar =>
              forall o v, t !! o = Some v ->
                v = 0%Q
                \/ exists i rI rO,
                     i ∈ visitedIntersections sim /\ boundary i = false
                     /\ regs !! insideElemIdx i = Some rI
                     /\ regs !! outsideElemIdx i = Some rO
                     /\ hasRegionBarrier (getThresholdPressureConfig sim) (rI + 1) (rO + 1)
                        = true
                     /\ (o = rI * getNumEquilRegions sim + rO
                         \/ o = rO * getNumEquilRegions sim + rI)
                     /\ if hasThresholdPressure (getThresholdPressureConfig sim)
                             (rI + 1) (rO + 1)
                        then v = getThresholdPressure (getThresholdPressureConfig sim)
                                   (rI + 1) (rO + 1)
                        else thpresDefault_ st !! (rI * getNumEquilRegions sim + rO)
                             = Some v)).
  - intros i t t' Hi Ht Hstep o v Hv.
    apply explicitIntersectionStep_Ok in Hstep
      as [->|(Hb & rI & rO & pth & HrI & HrO & Hbar & Hpth & H1 & H2 & ->)];
      [by apply Ht|].
    simpl in *. rewrite lookup_write_pair in Hv by done.
    destruct (decide (o = rI * getNumEquilRegions sim + rO
                      \/ o = rO * getNumEquilRegions sim + rI)) as [Ho|Ho];
      [|by apply Ht].
    injection Hv as <-. right. exists i, rI, rO. repeat split; try done.
    unfold overrideValue in Hpth. simpl in Hpth.
    destruct (hasThresholdPressure _ (rI + 1) (rO + 1)); [congruence|done].
  - simpl. intros o v Hv. left. by apply lookup_replicate_1 in Hv as [-> _].
Qed.

Lemma final_entries_have_a_source_witness :
  5%Q = 0%Q
  \/ exists i rI rO,
       i ∈ visitedIntersections faultedCells /\ boundary i = false
       /\ elemEquilRegion_ faultedState !! insideElemIdx i = Some rI
       /\ elemEquilRegion_ faultedState !! outsideElemIdx i = Some rO
       /\ hasRegionBarrier (allBarriers (Some 5%Q)) (rI + 1) (rO + 1) = true
       /\ (1 = rI * 2 + rO \/ 1 = rO * 2 + rI)
       /\ 5%Q = 5%Q.
Proof.
  apply (final_entries_have_a_source faultedCells faultedState 1 5%Q); reflexivity.
Defined.

(** ** The order of the faces *)

(** X11: the matrix left by the scan of the faces does not depend on the
    order in which the grid presents its faces, nor on how often it
    presents one: two grids that visit the same faces leave numerically
    equal entries for every pair of regions. *)
Theorem scan_independent_of_face_order (sim1 sim2 : Simulator) (st : EclThresholdPressure)
    (scanned1 scanned2 : list Scalar) (r1 r2 : nat) :
  regionsBelow (numEquilRegions_ st) (elemEquilRegion_ st) ->
  thpresDefault_ st = replicate (numEquilRegions_ st * numEquilRegions_ st) 0%Q ->
  (forall f, f ∈ visitedFaces sim1 <-> f ∈ visitedFaces sim2) ->
  scanFaces sim1 st = Ok scanned1 ->
  scanFaces sim2 st = Ok scanned2 ->
  r1 < numEquilRegions_ st -> r2 < numEquilRegions_ st ->
  exists g1 g2,
    scanned1 !! (r1 * numEquilRegions_ st + r2) = Some g1
    /\ scanned2 !! (r1 * numEquilRegions_ st + r2) = Some g2
    /\ (g1 == g2)%Q.
Proof.
  intros Hregs Hd0 Hsame Hs1 Hs2 H1 H2.
  destruct (decide (r1 = r2)) as [->|Hne].
  - exists 0%Q, 0%Q.
    assert (Hdiag : forall sim scanned,
               scanFaces sim st = Ok scanned ->
               scanned !! (r2 * numEquilRegions_ st + r2) = Some 0%Q).
    { intros sim scanned Hs.
      etrans; [eapply scanFaces_untouched; [|exact Hs]|].
      2:{ rewrite Hd0. apply lookup_replicate_2. by apply offset_lt. }
      intros f rI rO _ HrI HrO Hd.
      apply Hregs in HrI, HrO.
      split; intros E; apply offset_inj in E as [? ?]; try done; congruence. }
    split; [by eapply Hdiag|]. split; [by eapply Hdiag|reflexivity].
  - destruct (scanFaces_entry_is_maximum sim1 st scanned1 r1 r2)
      as (g1 & Hg1 & Hub1 & Hatt1); try done.
    destruct (scanFaces_entry_is_maximum sim2 st scanned2 r1 r2)
      as (g2 & Hg2 & Hub2 & Hatt2); try done.
    exists g1, g2. split; [done|]. split; [done|].
    assert (Hpos : forall sim g,
               (g = 0%Q \/ exists f, f ∈ visitedFaces sim /\ contributes st f r1 r2
                                     /\ g = faceThreshold (phases f)) -> (0 <= g)%Q).
    { intros sim g [->|(f & _ & _ & ->)]; [lra|apply faceThreshold_nonneg]. }
    pose proof (Hpos _ _ Hatt1). pose proof (Hpos _ _ Hatt2).
    assert (g1 <= g2)%Q.
    { destruct Hatt1 as [->|(f & Hf & Hc & ->)]; [done|]. apply Hub2; [by apply Hsame|done]. }
    assert (g2 <= g1)%Q.
    { destruct Hatt2 as [->|(f & Hf & Hc & ->)]; [done|]. apply Hub1; [by apply Hsame|done]. }
    lra.
Qed.

Lemma scan_independent_of_face_order_witness :
  exists g1 g2,
    [0; 300000; 300000; 0]%Q !! 1 = Some g1
    /\ [0; 300000; 300000; 0]%Q !! 1 = Some g2
    /\ (g1 == g2)%Q.
Proof.
  apply (scan_independent_of_face_order gridForth gridBack
           (allocated gridForth [0; 1]) [0; 300000; 300000; 0]%Q [0; 300000; 300000; 0]%Q 0 1);
    try reflexivity; try (simpl; lia).
  - intros i r Hr. destruct i as [|[|i]]; simpl in Hr; try discriminate;
      injection Hr as <-; simpl; lia.
  - intros f. unfold visitedFaces. simpl. rewrite !elem_of_cons. tauto.
Defined.

(** ** The fault thresholds *)

Lemma forEach_fmap {A B S : Type} (body : S -> B -> Res S) (g : A -> B) (l : list A) (s : S) :
  forEach (fun t x => body t (g x)) l s = forEach body (map g l) s.
Proof.
  revert s. induction l as [|x l IH]; intros s; simpl; [done|].
  destruct (body s (g x)); simpl; [apply IH | done].
Qed.

(** A property that the last of some iterations establishes and that the
    iterations after it keep holds when the loop is left. *)
Lemma forEach_established_last {A S : Type} (P : S -> Prop) (body : S -> A -> Res S)
    (l1 l2 : list A) (x : A) (s s' : S) :
  (forall u u', body u x = Ok u' -> P u') ->
  (forall y u u', y ∈ l2 -> P u -> body u y = Ok u' -> P u') ->
  forEach body (l1 ++ x :: l2) s = Ok s' -> P s'.
Proof.
  intros Hx Hkeep Hrun. rewrite forEach_app in Hrun.
  apply bind_Ok in Hrun as (t1 & _ & Hrun). simpl in Hrun.
  apply bind_Ok in Hrun as (t2 & Hstep & Hrun).
  revert Hrun. apply (forEach_invariant P); [|by eapply Hx].
  intros y u u' Hy. by apply Hkeep.
Qed.

Lemma extract_flat (sim : Simulator) (kw : list ThpresftRecord) (acc : list Scalar * list Z) :
  forEach (thpresftRecordStep sim) kw acc
  = forEach thpresftPairStep (thpresftPairs sim kw) acc.
Proof.
  unfold thpresftPairs.
  rewrite <- (forEach_nested thpresftPairStep
                (fun r => map (pair r) (zip (seq 0 (length (faults sim))) (faults sim)))).
  apply forEach_ext. intros t r _. unfold thpresftRecordStep.
  by rewrite <- (forEach_fmap thpresftPairStep (pair r)).
Qed.

Lemma zip_seq_lookup {A : Type} (l : list A) (s i : nat) :
  zip (seq s (length l)) l !! i = (fun x => (s + i, x)) <$> l !! i.
Proof.
  rewrite lookup_zip_with.
  destruct (l !! i) as [x|] eqn:Hx.
  - rewrite lookup_seq_lt by (by eapply lookup_lt_Some). by simpl.
  - by destruct (seq s (length l) !! i).
Qed.

Lemma elem_of_zip_seq {A : Type} (l : list A) (j : nat) (x : A) :
  (j, x) ∈ zip (seq 0 (length l)) l <-> l !! j = Some x.
Proof.
  rewrite list_elem_of_lookup. split.
  - intros (i & Hi). rewrite zip_seq_lookup in Hi.
    destruct (l !! i) as [y|] eqn:Hy; [|done]. simpl in Hi. by injection Hi as <- <-.
  - intros Hj. exists j. rewrite zip_seq_lookup, Hj. done.
Qed.

Lemma elem_of_thpresftPairs (sim : Simulator) (kw : list ThpresftRecord)
    (r : ThpresftRecord) (j : nat) (f : FaultRecord) :
  (r, (j, f)) ∈ thpresftPairs sim kw <-> r ∈ kw /\ faults sim !! j = Some f.
Proof.
  unfold thpresftPairs. rewrite list_elem_of_In, in_concat. split.
  - intros (l & Hl & Hin). apply in_map_iff in Hl as (r' & <- & Hr').
    apply in_map_iff in Hin as ([j' f'] & [= <- <- <-] & Hz).
    split; [by apply list_elem_of_In|]. by apply elem_of_zip_seq, list_elem_of_In.
  - intros [Hr Hf]. eexists. split.
    + apply in_map_iff. exists r. split; [done|]. by apply list_elem_of_In.
    + apply in_map_iff. exists (j, f). split; [done|].
      by apply list_elem_of_In, elem_of_zip_seq.
Qed.

(** The pairs after a record and a fault: those of the same record with a
    later fault, and those of the later records. *)
Lemma thpresftPairs_split (sim : Simulator) (k1 k2 : list ThpresftRecord)
    (r : ThpresftRecord) (j : nat) (f : FaultRecord) :
  faults sim !! j = Some f ->
  exists l1 l2,
    thpresftPairs sim (k1 ++ r :: k2) = l1 ++ (r, (j, f)) :: l2
    /\ forall r' j' f', (r', (j', f')) ∈ l2 ->
         faults sim !! j' = Some f' /\ ((r' = r /\ j < j') \/ r' ∈ k2).
Proof.
  intros Hf.
  set (Z := zip (seq 0 (length (faults sim))) (faults sim)).
  assert (HZ : Z !! j = Some (j, f)).
  { unfold Z. by rewrite zip_seq_lookup, Hf. }
  exists (thpresftPairs sim k1 ++ map (pair r) (take j Z)),
         (map (pair r) (drop (S j) Z) ++ thpresftPairs sim k2).
  split.
  - unfold thpresftPairs. rewrite map_app, concat_app. simpl. fold Z.
    rewrite <- (take_drop_middle Z j (j, f) HZ) at 1.
    rewrite map_app. simpl. by rewrite <- !app_assoc.
  - intros r' j' f' Hin. apply elem_of_app in Hin as [Hin|Hin].
    + apply list_elem_of_In, in_map_iff in Hin as ([j'' f''] & [= <- <- <-] & Hz).
      apply list_elem_of_In, list_elem_of_lookup in Hz as (i & Hi).
      rewrite lookup_drop in Hi. unfold Z in Hi. rewrite zip_seq_lookup in Hi.
      destruct (faults sim !! (S j + i)) as [y|] eqn:Hy; [|done].
      simpl in Hi. injection Hi as <- <-. split; [done|]. left. split; [done|lia].
    + apply elem_of_thpresftPairs in Hin as [Hr Hfl]. split; [done|]. by right.
Qed.

Lemma assignFaultCells_lookup (faultIdx : nat) (fault : FaultRecord) (idx idx' : list Z)
    (c : nat) :
  assignFaultCells faultIdx fault idx = Ok idx' ->
  idx' !! c = if decide (c ∈ faultCells fault) then Some (Z.of_nat faultIdx) else idx !! c.
Proof.
  unfold assignFaultCells, faultCells.
  rewrite (forEach_nested (fun (u : list Z) x => vec_set u x (Z.of_nat faultIdx))
             (fun face : list nat => face)).
  rewrite map_id. intros Hrun.
  destruct (decide (c ∈ concat (faultFaces fault))) as [Hc|Hc].
  - revert Hrun. apply (forEach_last_write _ _ _ _ _ _ c); [done| |].
    + intros u u' Hset. apply vec_set_Ok in Hset as [? ->]. by apply list_lookup_insert_eq.
    + intros y u u' _ Hset. apply vec_set_Ok in Hset as [? ->].
      destruct (decide (y = c)) as [->|Hne].
      * left. by apply list_lookup_insert_eq.
      * right. by apply list_lookup_insert_ne.
  - revert Hrun. apply forEach_untouched.
    intros y u u' Hy Hset. apply vec_set_Ok in Hset as [? ->].
    apply list_lookup_insert_ne. congruence.
Qed.

(** What a successful iteration of the inner loop has done. *)
Lemma thpresftPairStep_Ok (acc acc' : list Scalar * list Z)
    (r : ThpresftRecord) (j : nat) (f : FaultRecord) :
  thpresftPairStep acc (r, (j, f)) = Ok acc' ->
  (getName f <> faultName r /\ acc' = acc)
  \/ (getName f = faultName r
      /\ j < length acc.1
      /\ acc'.1 = <[j := thpresValue r]> acc.1
      /\ forall c, acc'.2 !! c
                   = if decide (c ∈ faultCells f) then Some (Z.of_nat j) else acc.2 !! c).
Proof.
  unfold thpresftPairStep, thpresftFaultStep. simpl.
  destruct (bool_decide (getName f <> faultName r)) eqn:Hname.
  - intros [= <-]. left. by apply bool_decide_eq_true in Hname.
  - intros H. right. apply bool_decide_eq_false in Hname.
    apply bind_Ok in H as (vals & Hset & H). apply bind_Ok in H as (idx & Hassign & H).
    injection H as <-. apply vec_set_Ok in Hset as [Hlt ->]. simpl.
    split; [by destruct (decide (getName f = faultName r))|].
    split; [done|]. split; [done|].
    intros c. by apply assignFaultCells_lookup.
Qed.

(** The run of [extractThpresft_] inside a construction. *)
Lemma construction_extract (sim : Simulator) (st : EclThresholdPressure)
    (kw : list ThpresftRecord) :
  useThresholdPressure sim = true ->
  restart (getThresholdPressureConfig sim) = false ->
  enableExperiments sim = true ->
  thpresftKeyword sim = Some kw ->
  finishInit sim constructed = Initialized st ->
  forEach thpresftPairStep (thpresftPairs sim kw)
    (replicate (length (faults sim)) (-1)%Q, replicate (cartesianSize sim) (-1)%Z)
  = Ok (thpresftValues_ st, cartElemFaultIdx_ st).
Proof.
  intros Huse Hrestart Hexp Hkw Hinit.
  apply finishInit_enabled in Hinit as (_ & _ & regs & _ & _ & H); [|done].
  rewrite Hrestart in H. destruct H as (st6 & H6 & H).
  apply computeDefault_Ok in H6 as (scanned & reduced & _ & _ & _ & _ & ->).
  unfold applyExplicitThresholdPressures_ in H.
  apply bind_Ok in H as (final & _ & H). rewrite Hexp, Hkw in H.
  unfold extractThpresft_ in H. simpl in H. rewrite !resize_nil in H.
  apply bind_Ok in H as (acc & Hrun & H). injection H as <-. simpl.
  rewrite <- extract_flat, Hrun. by destruct acc.
Qed.

(** X12: after a construction that read the THPRESFT keyword, the value of
    a fault is the value of the last record of the keyword that bears its
    name, and the unset value -1 when no record does: a record that names
    no fault has no effect. *)
Theorem fault_value_of_last_record (sim : Simulator) (st : EclThresholdPressure)
    (kw : list ThpresftRecord) (j : nat) (f : FaultRecord) :
  useThresholdPressure sim = true ->
  restart (getThresholdPressureConfig sim) = false ->
  enableExperiments sim = true ->
  thpresftKeyword sim = Some kw ->
  finishInit sim constructed = Initialized st ->
  faults sim !! j = Some f ->
  ((forall r, r ∈ kw -> faultName r <> getName f) ->
     thpresftValues_ st !! j = Some (-1)%Q)
  /\ (forall k1 r k2,
        kw = k1 ++ r :: k2 -> faultName r = getName f ->
        (forall r', r' ∈ k2 -> faultName r' <> getName f) ->
        thpresftValues_ st !! j = Some (thpresValue r)).
Proof.
  intros Huse Hrestart Hexp Hkw Hinit Hf.
  pose proof (construction_extract sim st kw Huse Hrestart Hexp Hkw Hinit) as Hrun.
  split.
  - intros Hnone.
    change (thpresftValues_ st) with ((thpresftValues_ st, cartElemFaultIdx_ st).1).
    revert Hrun.
    apply (forEach_invariant (fun acc : list Scalar * list Z => acc.1 !! j = Some (-1)%Q)).
    + intros [r' [j' f']] u u' Hin Hu Hstep.
      apply elem_of_thpresftPairs in Hin as [Hr' Hf'].
      apply thpresftPairStep_Ok in Hstep as [[_ ->]|(Hname & _ & -> & _)]; [done|].
      rewrite list_lookup_insert_ne; [done|]. intros ->.
      apply (Hnone r' Hr'). congruence.
    + simpl. apply lookup_replicate_2. by eapply lookup_lt_Some.
  - intros k1 r k2 -> Hname Hlast.
    destruct (thpresftPairs_split sim k1 k2 r j f Hf) as (l1 & l2 & Hsplit & Hl2).
    rewrite Hsplit in Hrun.
    change (thpresftValues_ st) with ((thpresftValues_ st, cartElemFaultIdx_ st).1).
    revert Hrun.
    apply (forEach_established_last
             (fun acc : list Scalar * list Z => acc.1 !! j = Some (thpresValue r))).
    + intros u u' Hstep.
      apply thpresftPairStep_Ok in Hstep as [[Hne _]|(_ & Hlt & -> & _)]; [congruence|].
      by apply list_lookup_insert_eq.
    + intros [r' [j' f']] u u' Hin Hu Hstep.
      destruct (Hl2 r' j' f' Hin) as [Hf' Hcase].
      apply thpresftPairStep_Ok in Hstep as [[_ ->]|(Hname' & _ & -> & _)]; [done|].
      rewrite list_lookup_insert_ne; [done|]. intros ->.
      destruct Hcase as [[_ ?]|Hr']; [lia|].
      apply (Hlast r' Hr'). congruence.
Qed.

Lemma fault_value_of_last_record_witness :
  exists st,
    finishInit overlappingFaults constructed = Initialized st
    /\ thpresftValues_ st !! 0 = Some 4%Q.
Proof.
  eexists. split; [reflexivity|].
  apply (proj2 (fault_value_of_last_record overlappingFaults _ _ 0
                  {| getName := "A"; faultFaces := [[0]; [1]] |}
                  eq_refl eq_refl eq_refl eq_refl eq_refl eq_refl)
           [ {| faultName := "A"; thpresValue := 3%Q |};
             {| faultName := "B"; thpresValue := 7%Q |} ]
           {| faultName := "A"; thpresValue := 4%Q |} []);
    [reflexivity | reflexivity |].
  intros r' Hr'. by apply elem_of_nil in Hr'.
Defined.

(** X13: after such a construction the fault index of a cartesian cell is
    -1 exactly when no fault named by a record contains the cell; otherwise
    it is the index of a fault that contains the cell and is named by a
    record.  A cell is never attributed to a fault it does not belong to,
    nor to a fault without a record. *)
Theorem fault_index_of_cell (sim : Simulator) (st : EclThresholdPressure)
    (kw : list ThpresftRecord) (c : nat) (g : Z) :
  useThresholdPressure sim = true ->
  restart (getThresholdPressureConfig sim) = false ->
  enableExperiments sim = true ->
  thpresftKeyword sim = Some kw ->
  finishInit sim constructed = Initialized st ->
  cartElemFaultIdx_ st !! c = Some g ->
  (g = (-1)%Z
   /\ forall r j f, r ∈ kw -> faults sim !! j = Some f -> getName f = faultName r ->
                    c ∉ faultCells f)
  \/ (exists j f r,
        g = Z.of_nat j /\ faults sim !! j = Some f /\ r ∈ kw
        /\ getName f = faultName r /\ c ∈ faultCells f).
Proof.
  intros Huse Hrestart Hexp Hkw Hinit Hg.
  pose proof (construction_extract sim st kw Huse Hrestart Hexp Hkw Hinit) as Hrun.
  assert (Hsound : g = (-1)%Z
                   \/ exists j f r,
                        g = Z.of_nat j /\ faults sim !! j = Some f /\ r ∈ kw
                        /\ getName f = faultName r /\ c ∈ faultCells f).
  { revert g Hg.
    change (cartElemFaultIdx_ st) with ((thpresftValues_ st, cartElemFaultIdx_ st).2).
    revert Hrun.
    apply (forEach_invariant
             (fun acc : list Scalar * list Z =>
                forall g, acc.2 !! c = Some g ->
                  g = (-1)%Z
                  \/ exists j f r,
                       g = Z.of_nat j /\ faults sim !! j = Some f /\ r ∈ kw
                       /\ getName f = faultName r /\ c ∈ faultCells f)).
    - intros [r' [j' f']] u u' Hin Hu Hstep g Hg.
      apply elem_of_thpresftPairs in Hin as [Hr' Hf'].
      apply thpresftPairStep_Ok in Hstep as [[_ ->]|(Hname & _ & _ & Hidx)]; [by apply Hu|].
      rewrite Hidx in Hg. destruct (decide (c ∈ faultCells f')) as [Hc|Hc]; [|by apply Hu].
      injection Hg as <-. right. by exists j', f', r'.
    - simpl. intros g Hg. left. by apply lookup_replicate_1 in Hg as [-> _]. }
  destruct Hsound as [->|Hsome]; [|by right].
  left. split; [done|]. intros r j f Hr Hf Hname Hc.
  assert (Hin : (r, (j, f)) ∈ thpresftPairs sim kw) by (by apply elem_of_thpresftPairs).
  apply list_elem_of_split in Hin as (l1 & l2 & Hsplit). rewrite Hsplit in Hrun.
  assert (exists g', (thpresftValues_ st, cartElemFaultIdx_ st).2 !! c = Some g'
                     /\ (0 <= g')%Z) as (g' & Hg' & Hpos).
  { revert Hrun.
    apply (forEach_established_last
             (fun acc : list Scalar * list Z =>
                exists g', acc.2 !! c = Some g' /\ (0 <= g')%Z)).
    - intros u u' Hstep.
      apply thpresftPairStep_Ok in Hstep as [[Hne _]|(_ & _ & _ & Hidx)]; [done|].
      exists (Z.of_nat j). rewrite Hidx, decide_True by done. split; [done|lia].
    - intros [r' [j' f']] u u' _ (g' & Hg' & Hpos) Hstep.
      apply thpresftPairStep_Ok in Hstep as [[_ ->]|(_ & _ & _ & Hidx)]; [by exists g'|].
      rewrite Hidx. destruct (decide (c ∈ faultCells f')); [|by exists g'].
      exists (Z.of_nat j'). split; [done|lia]. }
  simpl in Hg'. rewrite Hg in Hg'. injection Hg' as <-. lia.
Qed.

Lemma fault_index_of_cell_witness :
  exists st,
    finishInit overlappingFaults constructed = Initialized st
    /\ cartElemFaultIdx_ st = [0; 0; 1; -1]%Z
    /\ (((-1)%Z = (-1)%Z
         /\ forall r j f,
              r ∈ [ {| faultName := "A"; thpresValue := 3%Q |};
                    {| faultName := "B"; thpresValue := 7%Q |};
                    {| faultName := "A"; thpresValue := 4%Q |} ] ->
              faults overlappingFaults !! j = Some f -> getName f = faultName r ->
              3 ∉ faultCells f)
        \/ exists j f r,
             (-1)%Z = Z.of_nat j /\ faults overlappingFaults !! j = Some f
             /\ r ∈ [ {| faultName := "A"; thpresValue := 3%Q |};
                      {| faultName := "B"; thpresValue := 7%Q |};
                      {| faultName := "A"; thpresValue := 4%Q |} ]
             /\ getName f = faultName r /\ 3 ∈ faultCells f).
Proof.
  eexists. split; [reflexivity|]. split; [reflexivity|].
  eapply (fault_index_of_cell overlappingFaults _ _ 3 (-1)%Z); reflexivity.
Defined.

(** X14: a cell that belongs to several faults keeps the index of the one
    processed last: if a fault named by a record contains the cell, and
    neither a later fault with a name match for the same record nor any
    fault named by a later record contains it, the cell carries the index
    of that fault. *)
Theorem fault_index_last_write_wins (sim : Simulator) (st : EclThresholdPressure)
    (k1 k2 : list ThpresftRecord) (r : ThpresftRecord) (j : nat) (f : FaultRecord)
    (c : nat) :
  useThresholdPressure sim = true ->
  restart (getThresholdPressureConfig sim) = false ->
  enableExperiments sim = true ->
  thpresftKeyword sim = Some (k1 ++ r :: k2) ->
  finishInit sim constructed = Initialized st ->
  faults sim !! j = Some f ->
  getName f = faultName r ->
  c ∈ faultCells f ->
  (forall j' f', j < j' -> faults sim !! j' = Some f' -> getName f' = faultName r ->
                 c ∉ faultCells f') ->
  (forall r' j' f', r' ∈ k2 -> faults sim !! j' = Some f' -> getName f' = faultName r' ->
                    c ∉ faultCells f') ->
  cartElemFaultIdx_ st !! c = Some (Z.of_nat j).
Proof.
  intros Huse Hrestart Hexp Hkw Hinit Hf Hname Hc Hlater Hrecords.
  pose proof (construction_extract sim st _ Huse Hrestart Hexp Hkw Hinit) as Hrun.
  destruct (thpresftPairs_split sim k1 k2 r j f Hf) as (l1 & l2 & Hsplit & Hl2).
  rewrite Hsplit in Hrun.
  change (cartElemFaultIdx_ st) with ((thpresftValues_ st, cartElemFaultIdx_ st).2).
  revert Hrun.
  apply (forEach_established_last
           (fun acc : list Scalar * list Z => acc.2 !! c = Some (Z.of_nat j))).
  - intros u u' Hstep.
    apply thpresftPairStep_Ok in Hstep as [[Hne _]|(_ & _ & _ & Hidx)]; [done|].
    by rewrite Hidx, decide_True.
  - intros [r' [j' f']] u u' Hin Hu Hstep.
    destruct (Hl2 r' j' f' Hin) as [Hf' Hcase].
    apply thpresftPairStep_Ok in Hstep as [[_ ->]|(Hname' & _ & _ & Hidx)]; [done|].
    rewrite Hidx. rewrite decide_False; [done|].
    destruct Hcase as [[-> Hlt]|Hr']; [by eapply Hlater | by eapply Hrecords].
Qed.

Lemma fault_index_last_write_wins_witness :
  exists st,
    finishInit overlappingFaults constructed = Initialized st
    /\ cartElemFaultIdx_ st !! 1 = Some 0%Z.
Proof.
  eexists. split; [reflexivity|].
  eapply (fault_index_last_write_wins overlappingFaults _
           [ {| faultName := "A"; thpresValue := 3%Q |};
             {| faultName := "B"; thpresValue := 7%Q |} ] []
           {| faultName := "A"; thpresValue := 4%Q |}
           0 {| getName := "A"; faultFaces := [[0]; [1]] |} 1); try reflexivity.
  - unfold faultCells. simpl. rewrite !elem_of_cons. tauto.
  - intros [|[|[|j']]] f' Hlt Hf' Hname; simpl in Hf'; try lia; try discriminate Hf';
      injection Hf' as <-; discriminate Hname.
  - intros r' j' f' Hr'. by apply elem_of_nil in Hr'.
Defined.

(** * The driver *)

Lemma string_length_app (s t : string) :
  String.length (s +:+ t) = String.length s + String.length t.
Proof. induction s as [|c s IH]; simpl; [done|]. by rewrite IH. Qed.

Lemma fill_length (n : nat) (c : ascii) : String.length (FlowMainEbos.fill n c) = n.
Proof. induction n as [|n IH]; simpl; [done|]. by rewrite IH. Qed.

Lemma string_app_inj_r (s1 s2 t : string) : s1 +:+ t = s2 +:+ t -> s1 = s2.
Proof.
  revert s2. induction s1 as [|c s1 IH]; intros [|d s2] Heq.
  - done.
  - apply (f_equal String.length) in Heq.
    rewrite !string_length_app in Heq. simpl in Heq. lia.
  - apply (f_equal String.length) in Heq.
    rewrite !string_length_app in Heq. simpl in Heq. lia.
  - injection Heq as -> Heq. f_equal. by apply IH.
Qed.

Lemma banner_length (version : string) :
  String.length (FlowMainEbos.banner version) = 13 + String.length version.
Proof. reflexivity. Qed.

Lemma banner_fits (version : string) :
  String.length version <= 55 ->
  FlowMainEbos.bannerPreLen version = ((55 - Z.of_nat (String.length version)) / 2)%Z
  /\ FlowMainEbos.bannerPostLen version
     = ((55 - Z.of_nat (String.length version)) / 2
        + (55 - Z.of_nat (String.length version)) mod 2)%Z.
Proof.
  intros Hlen.
  unfold FlowMainEbos.bannerPostLen, FlowMainEbos.bannerPreLen, FlowMainEbos.bannerRoom,
    FlowMainEbos.to_int, FlowMainEbos.to_size_t, FlowMainEbos.lineLen.
  rewrite banner_length.
  replace (70 - 2 - Z.of_nat (13 + String.length version))%Z
    with (55 - Z.of_nat (String.length version))%Z by lia.
  set (k := (55 - Z.of_nat (String.length version))%Z).
  assert (0 <= k <= 55)%Z as Hk by (unfold k; lia).
  change (2 ^ 64)%Z with 18446744073709551616%Z.
  change (2 ^ 32)%Z with 4294967296%Z.
  change (2 ^ 31)%Z with 2147483648%Z.
  rewrite (Z.mod_small k) by lia.
  assert (0 <= k / 2 <= 27)%Z as Hdiv by (clearbody k; Z.div_mod_to_equations; lia).
  assert (0 <= k mod 2 < 2)%Z as Hmod by (apply Z.mod_pos_bound; lia).
  rewrite (Z.mod_small (k / 2)) by lia.
  destruct (Z.ltb_spec (k / 2) 2147483648) as [_|?]; [|lia].
  split; [done|].
  rewrite (Z.mod_small (k / 2)) by lia.
  rewrite (Z.mod_small (k / 2 + k mod 2)) by lia.
  rewrite (Z.mod_small (k / 2 + k mod 2)) by lia.
  destruct (Z.ltb_spec (k / 2 + k mod 2) 2147483648) as [_|?]; [done|lia].
Qed.

(** X15: on the output rank and for a version name of at most 55
    characters, the start-up message is a box of nine lines of exactly 70
    characters followed by an empty line; its third line holds the banner
    between two runs of blanks, the right one as long as the left one or
    one blank longer.  On every other rank nothing is written. *)
Theorem startup_box_is_70_wide (version : string) (m : FlowMainEbos.Members) :
  String.length version <= 55 ->
  (FlowMainEbos.output_cout_ m = false ->
     FlowMainEbos.printStartupMessage version m = FlowMainEbos.Returns [])
  /\ (FlowMainEbos.output_cout_ m = true ->
      exists lines pre post,
        FlowMainEbos.printStartupMessage version m = FlowMainEbos.Returns lines
        /\ length lines = 10
        /\ (forall i l, i < 9 -> lines !! i = Some l -> String.length l = 70)
        /\ lines !! 9 = Some ""
        /\ lines !! 2 = Some ("*" +:+ FlowMainEbos.fill pre " "
                              +:+ FlowMainEbos.banner version
                              +:+ FlowMainEbos.fill post " " +:+ "*")
        /\ pre <= post <= pre + 1).
Proof.
  intros Hlen. unfold FlowMainEbos.printStartupMessage. split; intros ->; [done|].
  destruct (banner_fits version Hlen) as [Hpre Hpost].
  set (k := (55 - Z.of_nat (String.length version))%Z) in *.
  assert (0 <= k <= 55)%Z as Hk by (unfold k; lia).
  assert (0 <= k / 2)%Z as Hdiv by (apply Z.div_pos; lia).
  assert (0 <= k mod 2 < 2)%Z as Hmod by (apply Z.mod_pos_bound; lia).
  assert (k = 2 * (k / 2) + k mod 2)%Z as Hsplit by (apply Z.div_mod; lia).
  rewrite Hpre, Hpost. unfold FlowMainEbos.string_fill.
  destruct (Z.leb_spec 0 (k / 2)) as [_|?]; [|lia].
  destruct (Z.leb_spec 0 (k / 2 + k mod 2)) as [_|?]; [|lia].
  simpl FlowMainEbos.outcome_bind.
  eexists _, (Z.to_nat (k / 2)), (Z.to_nat (k / 2 + k mod 2)).
  split; [reflexivity|]. split; [reflexivity|]. split; [|split; [reflexivity|split; [reflexivity|lia]]].
  intros i l Hi Hl.
  destruct i as [|[|[|[|[|[|[|[|[|i]]]]]]]]]; try lia; simpl in Hl; injection Hl as <-;
    try reflexivity.
  change (String.length ("*" +:+ ?s)) with (S (String.length s)).
  rewrite !string_length_app, !fill_length, banner_length. simpl String.length.
  unfold k in *. lia.
Qed.

Lemma startup_box_is_70_wide_witness :
  exists lines pre post,
    FlowMainEbos.printStartupMessage "2018.04"
      (FlowMainEbos.setupParallelism 0 1 FlowMainEbos.declared)
    = FlowMainEbos.Returns lines
    /\ length lines = 10
    /\ (forall i l, i < 9 -> lines !! i = Some l -> String.length l = 70)
    /\ lines !! 9 = Some ""
    /\ lines !! 2 = Some ("*" +:+ FlowMainEbos.fill pre " "
                          +:+ FlowMainEbos.banner "2018.04"
                          +:+ FlowMainEbos.fill post " " +:+ "*")
    /\ pre <= post <= pre + 1.
Proof.
  apply (proj2 (startup_box_is_70_wide "2018.04"
                  (FlowMainEbos.setupParallelism 0 1 FlowMainEbos.declared)
                  ltac:(simpl; lia))).
  reflexivity.
Defined.

(** X16: for a version name of more than 55 characters the room left on
    the banner line, computed in [std::size_t], wraps around; the number
    of blanks becomes a negative [int], and the output rank ends the
    start-up message with [std::length_error] instead of a banner line. *)
Theorem long_version_name_throws (version : string) (m : FlowMainEbos.Members) :
  FlowMainEbos.output_cout_ m = true ->
  55 < String.length version ->
  (Z.of_nat (String.length version) < 2 ^ 32)%Z ->
  (FlowMainEbos.bannerPreLen version < 0)%Z
  /\ FlowMainEbos.printStartupMessage version m
     = FlowMainEbos.Throws FlowMainEbos.length_error.
Proof.
  intros Hcout Hlong Hbound.
  assert (FlowMainEbos.bannerPreLen version < 0)%Z as Hneg.
  { unfold FlowMainEbos.bannerPreLen, FlowMainEbos.bannerRoom, FlowMainEbos.to_int,
      FlowMainEbos.to_size_t, FlowMainEbos.lineLen.
    rewrite banner_length.
    change (2 ^ 64)%Z with 18446744073709551616%Z.
    change (2 ^ 32)%Z with 4294967296%Z in *.
    change (2 ^ 31)%Z with 2147483648%Z.
    set (n := Z.of_nat (13 + String.length version)).
    assert (68 < n < 4294967296 + 13)%Z as Hn by (unfold n; lia).
    clearbody n.
    destruct (Z.ltb_spec (((70 - 2 - n) mod 18446744073709551616 / 2) mod 4294967296)
                2147483648) as [Hlt|Hge];
      Z.div_mod_to_equations; lia. }
  split; [done|].
  unfold FlowMainEbos.printStartupMessage, FlowMainEbos.string_fill. rewrite Hcout.
  destruct (Z.leb_spec 0 (FlowMainEbos.bannerPreLen version)) as [?|_]; [lia|done].
Qed.

Lemma long_version_name_throws_witness :
  (FlowMainEbos.bannerPreLen
     "2018.04-pre~git20180301.7f0e1a2+branch.of.a.long.name.and.more" < 0)%Z
  /\ FlowMainEbos.printStartupMessage
       "2018.04-pre~git20180301.7f0e1a2+branch.of.a.long.name.and.more"
       (FlowMainEbos.setupParallelism 0 4 FlowMainEbos.declared)
     = FlowMainEbos.Throws FlowMainEbos.length_error.
Proof.
  apply (long_version_name_throws
           "2018.04-pre~git20180301.7f0e1a2+branch.of.a.long.name.and.more"
           (FlowMainEbos.setupParallelism 0 4 FlowMainEbos.declared)
           eq_refl);
    simpl; lia.
Defined.

Lemma setupOutput_frame (param : FlowMainEbos.ParameterGroup) (m : FlowMainEbos.Members) :
  FlowMainEbos.mpi_rank_ (FlowMainEbos.setupOutput param m).1 = FlowMainEbos.mpi_rank_ m
  /\ FlowMainEbos.must_distribute_ (FlowMainEbos.setupOutput param m).1
     = FlowMainEbos.must_distribute_ m
  /\ FlowMainEbos.output_cout_ (FlowMainEbos.setupOutput param m).1
     = FlowMainEbos.output_cout_ m
  /\ FlowMainEbos.output_to_files_ (FlowMainEbos.setupOutput param m).1
     = FlowMainEbos.output_cout_ m
       && negb (FlowMainEbos.enumValue (FlowMainEbos.output_ (FlowMainEbos.setupOutput param m).1)
                =? 0)%Z.
Proof.
  unfold FlowMainEbos.setupOutput.
  by destruct (FlowMainEbos.find _ _).
Qed.

Lemma find_output (value : string) :
  FlowMainEbos.find value FlowMainEbos.string2OutputEnum
  = if bool_decide (value = "none") then Some FlowMainEbos.OUTPUT_NONE
    else if bool_decide (value = "false") then Some FlowMainEbos.OUTPUT_LOG_ONLY
    else if bool_decide (value = "log") then Some FlowMainEbos.OUTPUT_LOG_ONLY
    else if bool_decide (value = "all") then Some FlowMainEbos.OUTPUT_ALL
    else if bool_decide (value = "true") then Some FlowMainEbos.OUTPUT_ALL
    else None.
Proof.
  unfold FlowMainEbos.string2OutputEnum, FlowMainEbos.find.
  repeat case_bool_decide; congruence.
Qed.

Lemma afterSetup_level (rank size : Z) (param : FlowMainEbos.ParameterGroup) :
  FlowMainEbos.output_ (FlowMainEbos.afterSetup rank size param)
  = match param "output" with
    | None => FlowMainEbos.OUTPUT_ALL
    | Some value =>
        if bool_decide (value = "none") then FlowMainEbos.OUTPUT_NONE
        else if bool_decide (value = "false") then FlowMainEbos.OUTPUT_LOG_ONLY
        else if bool_decide (value = "log") then FlowMainEbos.OUTPUT_LOG_ONLY
        else FlowMainEbos.OUTPUT_ALL
    end.
Proof.
  unfold FlowMainEbos.afterSetup, FlowMainEbos.setupOutput, FlowMainEbos.getDefault.
  rewrite find_output.
  destruct (param "output") as [value|]; simpl; [|done].
  repeat case_bool_decide; done.
Qed.

Lemma afterSetup_members (rank size : Z) (param : FlowMainEbos.ParameterGroup) :
  FlowMainEbos.mpi_rank_ (FlowMainEbos.afterSetup rank size param) = rank
  /\ FlowMainEbos.must_distribute_ (FlowMainEbos.afterSetup rank size param) = (1 <? size)%Z
  /\ FlowMainEbos.output_cout_ (FlowMainEbos.afterSetup rank size param) = (rank =? 0)%Z.
Proof.
  unfold FlowMainEbos.afterSetup.
  destruct (setupOutput_frame param
              (FlowMainEbos.setupParallelism rank size FlowMainEbos.declared))
    as (-> & -> & -> & _).
  done.
Qed.

Lemma afterSetup_files (rank size : Z) (param : FlowMainEbos.ParameterGroup) :
  FlowMainEbos.output_to_files_ (FlowMainEbos.afterSetup rank size param)
  = (rank =? 0)%Z
    && negb (FlowMainEbos.enumValue
               (FlowMainEbos.output_ (FlowMainEbos.afterSetup rank size param)) =? 0)%Z.
Proof.
  unfold FlowMainEbos.afterSetup.
  by destruct (setupOutput_frame param
                 (FlowMainEbos.setupParallelism rank size FlowMainEbos.declared))
    as (_ & _ & _ & ->).
Qed.

(** X17: after the set-up of a run, a process writes output files exactly
    when it is the process of rank 0 and the parameter [output] is not
    the word none.  A missing parameter and a value that is not
    recognised both count as all. *)
Theorem files_written_by_rank_0_unless_none (rank size : Z)
    (param : FlowMainEbos.ParameterGroup) :
  FlowMainEbos.output_to_files_ (FlowMainEbos.afterSetup rank size param) = true
  <-> rank = 0%Z /\ param "output" <> Some "none".
Proof.
  rewrite afterSetup_files, afterSetup_level.
  rewrite andb_true_iff, Z.eqb_eq, negb_true_iff, Z.eqb_neq.
  apply and_iff_compat_l.
  destruct (param "output") as [value|]; simpl; [|split; [done|lia]].
  repeat case_bool_decide; subst; simpl; split; intros ?; try done; try lia; congruence.
Qed.

(** X18: the output level after the set-up is the one named by the
    parameter [output]: no files for none, log files only for false and
    log, and everything for all, true, a missing parameter and any value
    that is not recognised, for which one line goes to [std::cerr]. *)
Theorem output_level_of_parameter (rank size : Z) (param : FlowMainEbos.ParameterGroup) :
  (FlowMainEbos.output_ (FlowMainEbos.afterSetup rank size param) = FlowMainEbos.OUTPUT_NONE
   <-> param "output" = Some "none")
  /\ (FlowMainEbos.output_ (FlowMainEbos.afterSetup rank size param)
      = FlowMainEbos.OUTPUT_LOG_ONLY
      <-> param "output" = Some "false" \/ param "output" = Some "log")
  /\ (length (FlowMainEbos.setupOutput param
                (FlowMainEbos.setupParallelism rank size FlowMainEbos.declared)).2 = 1
      <-> exists value, param "output" = Some value
                        /\ value ∉ ["none"; "false"; "log"; "all"; "true"]).
Proof.
  rewrite afterSetup_level.
  unfold FlowMainEbos.setupOutput, FlowMainEbos.getDefault. rewrite find_output.
  destruct (param "output") as [value|]; simpl.
  - repeat case_bool_decide; subst; simpl;
      (split; [|split]); split; try done; try (intros [?|?]; congruence);
      try (intros ?; congruence); try (by left); try (by right);
      try (intros (v & [= <-] & Hv); exfalso; apply Hv;
           repeat first [apply list_elem_of_here | apply list_elem_of_further]).
    intros _. exists value. split; [done|].
    rewrite !not_elem_of_cons. repeat split; try done. apply not_elem_of_nil.
  - (split; [|split]); split; try done; try (intros [?|?]; congruence).
    by intros (v & ? & _).
Qed.

Lemma rankSuffix_inj (m1 m2 : FlowMainEbos.Members) :
  FlowMainEbos.must_distribute_ m1 = true ->
  FlowMainEbos.must_distribute_ m2 = true ->
  FlowMainEbos.rankSuffix m1 = FlowMainEbos.rankSuffix m2 ->
  FlowMainEbos.mpi_rank_ m1 = FlowMainEbos.mpi_rank_ m2.
Proof.
  unfold FlowMainEbos.rankSuffix. intros -> ->. simpl.
  destruct (Z.eqb_spec (FlowMainEbos.mpi_rank_ m1) 0) as [->|_],
           (Z.eqb_spec (FlowMainEbos.mpi_rank_ m2) 0) as [->|_]; simpl; try done.
  intros Heq. apply (inj (String.app ".")) in Heq. by apply (inj pretty) in Heq.
Qed.

(** X19: in a run of more than one process, two processes of different
    rank never have the same name for their log file, nor for their debug
    log file, whatever the deck, the output directory and the
    parameters. *)
Theorem log_files_of_two_ranks_differ (size rank1 rank2 : Z)
    (param : FlowMainEbos.ParameterGroup) (fpath : FlowMainEbos.Path)
    (output_dir : string) (no_debug_log : bool) :
  (1 < size)%Z ->
  rank1 <> rank2 ->
  FlowMainEbos.logFile_
    (FlowMainEbos.setupLogging fpath output_dir no_debug_log
       (FlowMainEbos.afterSetup rank1 size param)).1
  <> FlowMainEbos.logFile_
       (FlowMainEbos.setupLogging fpath output_dir no_debug_log
          (FlowMainEbos.afterSetup rank2 size param)).1
  /\ FlowMainEbos.debugFileName fpath output_dir (FlowMainEbos.afterSetup rank1 size param)
     <> FlowMainEbos.debugFileName fpath output_dir (FlowMainEbos.afterSetup rank2 size param).
Proof.
  intros Hsize Hne.
  destruct (afterSetup_members rank1 size param) as (Hr1 & Hd1 & _).
  destruct (afterSetup_members rank2 size param) as (Hr2 & Hd2 & _).
  assert ((1 <? size)%Z = true) as Hdist by (by apply Z.ltb_lt).
  rewrite Hdist in Hd1, Hd2.
  assert (FlowMainEbos.rankSuffix (FlowMainEbos.afterSetup rank1 size param)
          <> FlowMainEbos.rankSuffix (FlowMainEbos.afterSetup rank2 size param)) as Hsuffix.
  { intros Heq. apply rankSuffix_inj in Heq; [|done..]. congruence. }
  split; simpl; unfold FlowMainEbos.logFileName, FlowMainEbos.debugFileName; intros Heq;
    apply Hsuffix.
  - do 3 apply (inj (String.app _)) in Heq. by apply string_app_inj_r in Heq.
  - do 4 apply (inj (String.app _)) in Heq. by apply string_app_inj_r in Heq.
Qed.

Lemma log_files_of_two_ranks_differ_witness :
  FlowMainEbos.logFile_
    (FlowMainEbos.setupLogging caseNorne "out" false
       (FlowMainEbos.afterSetup 0 4 (outputParam "all"))).1
  <> FlowMainEbos.logFile_
       (FlowMainEbos.setupLogging caseNorne "out" false
          (FlowMainEbos.afterSetup 3 4 (outputParam "all"))).1
  /\ FlowMainEbos.debugFileName caseNorne "out" (FlowMainEbos.afterSetup 0 4 (outputParam "all"))
     <> FlowMainEbos.debugFileName caseNorne "out"
          (FlowMainEbos.afterSetup 3 4 (outputParam "all")).
Proof.
  apply (log_files_of_two_ranks_differ 4 0 3 (outputParam "all") caseNorne "out" false);
    lia.
Defined.

Example log_file_names_of_a_run :
  FlowMainEbos.logFile_
    (FlowMainEbos.setupLogging caseNorne "out" false
       (FlowMainEbos.afterSetup 0 4 (outputParam "all"))).1 = "out/NORNE.PRT"
  /\ FlowMainEbos.logFile_
       (FlowMainEbos.setupLogging caseNorne "out" false
          (FlowMainEbos.afterSetup 3 4 (outputParam "all"))).1 = "out/NORNE.3.PRT"
  /\ FlowMainEbos.debugFileName caseNorne "out"
       (FlowMainEbos.afterSetup 3 4 (outputParam "all")) = "out/.NORNE.3.DEBUG"
  /\ FlowMainEbos.logFile_
       (FlowMainEbos.setupLogging caseNorne "out" false
          (FlowMainEbos.afterSetup 3 1 (outputParam "all"))).1 = "out/NORNE.PRT".
Proof. repeat split; vm_compute; reflexivity. Qed.

(** X20: the log on [std::cout] is added on every process; the log file
    is added on every process, of rank 0 or not, exactly when the
    parameter [output] is not the word none, and the debug log file
    exactly when moreover the parameter [no_debug_log] is off.  The log
    file added is the one recorded in [logFile_]. *)
Theorem log_backends_of_a_process (rank size : Z) (param : FlowMainEbos.ParameterGroup)
    (fpath : FlowMainEbos.Path) (output_dir : string) (no_debug_log : bool) :
  FlowMainEbos.StreamLog "STREAMLOG"
    ∈ (FlowMainEbos.setupLogging fpath output_dir no_debug_log
         (FlowMainEbos.afterSetup rank size param)).2
  /\ ((exists file, FlowMainEbos.FileLog "ECLIPSEPRTLOG" file
                      ∈ (FlowMainEbos.setupLogging fpath output_dir no_debug_log
                           (FlowMainEbos.afterSetup rank size param)).2)
      <-> param "output" <> Some "none")
  /\ ((exists file, FlowMainEbos.FileLog "DEBUGLOG" file
                      ∈ (FlowMainEbos.setupLogging fpath output_dir no_debug_log
                           (FlowMainEbos.afterSetup rank size param)).2)
      <-> param "output" <> Some "none" /\ no_debug_log = false)
  /\ (forall file, FlowMainEbos.FileLog "ECLIPSEPRTLOG" file
                     ∈ (FlowMainEbos.setupLogging fpath output_dir no_debug_log
                          (FlowMainEbos.afterSetup rank size param)).2 ->
                   file = FlowMainEbos.logFile_
                            (FlowMainEbos.setupLogging fpath output_dir no_debug_log
                               (FlowMainEbos.afterSetup rank size param)).1).
Proof.
  unfold FlowMainEbos.setupLogging. simpl.
  rewrite afterSetup_level.
  assert (param "output" <> Some "none"
          <-> match param "output" with
              | Some value =>
                  if bool_decide (value = "none") then FlowMainEbos.OUTPUT_NONE
                  else if bool_decide (value = "false") then FlowMainEbos.OUTPUT_LOG_ONLY
                  else if bool_decide (value = "log") then FlowMainEbos.OUTPUT_LOG_ONLY
                  else FlowMainEbos.OUTPUT_ALL
              | None => FlowMainEbos.OUTPUT_ALL
              end <> FlowMainEbos.OUTPUT_NONE) as ->.
  { destruct (param "output") as [value|]; [|done].
    repeat case_bool_decide; subst; split; intros ?; congruence. }
  generalize (match param "output" with
              | Some value =>
                  if bool_decide (value = "none") then FlowMainEbos.OUTPUT_NONE
                  else if bool_decide (value = "false") then FlowMainEbos.OUTPUT_LOG_ONLY
                  else if bool_decide (value = "log") then FlowMainEbos.OUTPUT_LOG_ONLY
                  else FlowMainEbos.OUTPUT_ALL
              | None => FlowMainEbos.OUTPUT_ALL
              end).
  intros level.
  destruct level, no_debug_log; simpl;
    setoid_rewrite elem_of_cons; repeat setoid_rewrite elem_of_cons;
    setoid_rewrite elem_of_nil;
    repeat split; intros;
    repeat match goal with
           | H : ex _ |- _ => destruct H
           | H : _ /\ _ |- _ => destruct H
           end;
    try (intuition congruence); eauto.
Qed.

Lemma afterSetup_not_none (rank size : Z) (param : FlowMainEbos.ParameterGroup) :
  negb (FlowMainEbos.enumValue
          (FlowMainEbos.output_ (FlowMainEbos.afterSetup rank size param)) =? 0)%Z = true
  <-> param "output" <> Some "none".
Proof.
  rewrite afterSetup_level, negb_true_iff, Z.eqb_neq.
  destruct (param "output") as [value|]; simpl; [|split; [done|lia]].
  repeat case_bool_decide; subst; simpl; split; intros ?; try done; try lia; congruence.
Qed.

(** X21: at the end of a run the log files are merged exactly on the
    process of rank 0 of a run of more than one process whose parameter
    [output] is not the word none; the files merged are those of the
    output directory when the parameter [output_dir] is given and those
    of the current directory otherwise. *)
Theorem log_files_merged_by_rank_0 (rank size : Z) (param : FlowMainEbos.ParameterGroup)
    (output_dir : string) :
  (FlowMainEbos.mergeParallelLogFiles param output_dir
     (FlowMainEbos.afterSetup rank size param) <> None
   <-> rank = 0%Z /\ (1 < size)%Z /\ param "output" <> Some "none")
  /\ (forall dir,
        FlowMainEbos.mergeParallelLogFiles param output_dir
          (FlowMainEbos.afterSetup rank size param) = Some dir ->
        dir = match param "output_dir" with Some _ => output_dir | None => "." end).
Proof.
  unfold FlowMainEbos.mergeParallelLogFiles.
  destruct (afterSetup_members rank size param) as (-> & -> & _).
  rewrite afterSetup_files.
  pose proof (afterSetup_not_none rank size param) as Hlevel.
  assert (FlowMainEbos.has param "output_dir"
          = match param "output_dir" with Some _ => true | None => false end) as ->.
  { unfold FlowMainEbos.has. destruct (param "output_dir").
    - by rewrite bool_decide_eq_true_2.
    - rewrite bool_decide_eq_false_2; [done|]. by intros [? ?]. }
  destruct (negb (FlowMainEbos.enumValue _ =? 0)%Z);
    destruct (Z.eqb_spec rank 0) as [->|Hrank], (Z.ltb_spec 1 size) as [Hsize|Hsize]; simpl;
    (split; [split; [intros Hmerge|intros (Hr & Hs & Hp)]|intros dir Hdir]);
    try done; try lia.
  - repeat split; [done|]. by apply Hlevel.
  - injection Hdir as <-. by destruct (param "output_dir").
  - by apply Hlevel in Hp.
Qed.

Lemma caseExists_true (fs : FlowMainEbos.FileSystem) (f : string) :
  FlowMainEbos.caseExists fs f = true
  <-> FlowMainEbos.fs_exists fs f = true
      /\ (FlowMainEbos.is_regular_file fs f = true
          \/ (FlowMainEbos.is_symlink fs f = true
              /\ FlowMainEbos.is_regular_file fs (FlowMainEbos.read_symlink fs f) = true)).
Proof.
  unfold FlowMainEbos.caseExists.
  destruct (FlowMainEbos.fs_exists fs f), (FlowMainEbos.is_regular_file fs f),
    (FlowMainEbos.is_symlink fs f); simpl; intuition congruence.
Qed.

(** X22: the search for the input case answers with the first of three
    paths that passes the test of the function: the name as given, the
    name with the extension data, and that path with its extension
    replaced by DATA.  A path passes when the file system says that it
    exists and that it is a regular file, or that it is a symbolic link
    whose stored target, taken as a path by itself, is a regular file.
    The function throws [std::invalid_argument], naming the case as given,
    exactly when none of the three passes. *)
Theorem simulationCaseName_first_existing (fs : FlowMainEbos.FileSystem)
    (replace_extension : string -> string -> string) (casename : string) :
  (forall p,
     FlowMainEbos.simulationCaseName fs replace_extension casename = FlowMainEbos.Returns p ->
     (FlowMainEbos.fs_exists fs p = true
      /\ (FlowMainEbos.is_regular_file fs p = true
          \/ (FlowMainEbos.is_symlink fs p = true
              /\ FlowMainEbos.is_regular_file fs (FlowMainEbos.read_symlink fs p) = true)))
     /\ (p = casename
         \/ (FlowMainEbos.caseExists fs casename = false
             /\ p = replace_extension casename "data")
         \/ (FlowMainEbos.caseExists fs casename = false
             /\ FlowMainEbos.caseExists fs (replace_extension casename "data") = false
             /\ p = replace_extension (replace_extension casename "data") "DATA")))
  /\ (forall e,
        FlowMainEbos.simulationCaseName fs replace_extension casename = FlowMainEbos.Throws e ->
        e = FlowMainEbos.invalid_argument ("Cannot find input case " +:+ casename))
  /\ ((exists e,
         FlowMainEbos.simulationCaseName fs replace_extension casename = FlowMainEbos.Throws e)
      <-> FlowMainEbos.caseExists fs casename = false
          /\ FlowMainEbos.caseExists fs (replace_extension casename "data") = false
          /\ FlowMainEbos.caseExists fs
               (replace_extension (replace_extension casename "data") "DATA") = false).
Proof.
  unfold FlowMainEbos.simulationCaseName, FlowMainEbos.tryExtensions.
  destruct (FlowMainEbos.caseExists fs casename) eqn:H0;
    [|destruct (FlowMainEbos.caseExists fs (replace_extension casename "data")) eqn:H1;
      [|destruct (FlowMainEbos.caseExists fs
                    (replace_extension (replace_extension casename "data") "DATA")) eqn:H2]].
  - split; [|split].
    + intros p [= <-]. split; [by apply caseExists_true | by left].
    + by intros e.
    + split; [by intros [e ?] | by intros [? _]].
  - split; [|split].
    + intros p [= <-]. split; [by apply caseExists_true | right; by left].
    + by intros e.
    + split; [by intros [e ?] | by intros (_ & ? & _)].
  - split; [|split].
    + intros p [= <-]. split; [by apply caseExists_true | right; by right].
    + by intros e.
    + split; [by intros [e ?] | by intros (_ & _ & ?)].
  - split; [|split].
    + by intros p.
    + by intros e [= <-].
    + split; [done|]. intros _. by eexists.
Qed.

(** The path that is returned need not be a regular file itself: the
    stored target of a link is tested as it is read, from the working
    directory. *)
Example simulationCaseName_returns_a_link :
  FlowMainEbos.simulationCaseName linkBesideFile replaceExtension "sub/CASE"
  = FlowMainEbos.Returns "sub/CASE"
  /\ FlowMainEbos.is_regular_file linkBesideFile "sub/CASE" = false.
Proof. split; reflexivity. Qed.

Example simulationCaseName_tries_the_upper_case_extension :
  FlowMainEbos.simulationCaseName onlyUpperCase replaceExtension "CASE"
  = FlowMainEbos.Returns "CASE.DATA"
  /\ FlowMainEbos.simulationCaseName onlyUpperCase replaceExtension "OTHER"
     = FlowMainEbos.Throws (FlowMainEbos.invalid_argument "Cannot find input case OTHER").
Proof. split; reflexivity. Qed.
